(** * Mini Smash: combat / physics simulation and decision engine

    A shallow embedding of [Characters.py], [ai.py] and the simulation part
    of [main.py] (the body of [main_game] guarded by [if not game_over]).

    Conventions of the embedding.
    - Python [float]s (percent, weight, velocities, speed) are modelled by
      exact rationals [Q]; results on them are stated up to [Qeq] ([==]).
      Rounding of IEEE doubles is therefore idealised away.
    - [pygame.Rect] holds integers: [Z].  [pygame] itself is an external
      library; the few [Rect] operations used by the game are written out
      below from its documented behaviour.
    - [pygame.time.get_ticks()] is an input: every function that samples the
      clock takes the sample as an argument [now].
    - The module-level generator [random] is an explicit state threaded
      through the decision engine (a state monad over [RNG]).
    - Back references to a fighter ([Projectile.owner], [ent is player]) are
      the non-owning handle [Side].
    - Sprites, particles, screen shake and drawing are cosmetic and left
      out of the match state; of the animation code it keeps only
      [current_state].  The particle code draws from the same generator,
      which is why the generator's state is an input of every iteration.
      [AnimatedSprite], [Particle] and the selection screen are modelled
      on their own, after the match.
    - [int(attack_cooldown * 1.3)] and the like are computed exactly; for
      the cooldowns the constructors set, the floating-point products are
      the same whole numbers. *)

From Stdlib Require Import ZArith QArith Qabs Lqa Lia List Bool.
From ExtLib Require Import Structures.Monad Structures.MonadState
  Data.Monads.StateMonad.
Import ListNotations.
Import MonadNotation.

Local Open Scope Z_scope.
Local Open Scope monad_scope.

(* ===================================================================== *)
(** ** Python numerics *)
(* ===================================================================== *)

(** [int(x)] on a float: truncation toward zero. *)
Definition py_int (q : Q) : Z := Z.quot (Qnum q) (Zpos (Qden q)).

(** [a < b], [a <= b], [a > b], [a >= b] on floats, as booleans. *)
Definition Qltb (a b : Q) : bool := negb (Qle_bool b a).
Definition Qleb (a b : Q) : bool := Qle_bool a b.
Definition Qgtb (a b : Q) : bool := Qltb b a.
Definition Qgeb (a b : Q) : bool := Qle_bool b a.

(** [max(a, b)]: Python returns the first argument unless the second is
    strictly larger. *)
Definition py_max (a b : Q) : Q := if Qgtb b a then b else a.

(** [abs] on integers is [Z.abs]; on floats: *)
Definition py_abs (q : Q) : Q := Qabs q.

(* ===================================================================== *)
(** ** pygame.Rect *)
(* ===================================================================== *)

Record Rect := mkRect { rx : Z; ry : Z; rw : Z; rh : Z }.

Module R.
Definition left (r : Rect) : Z := rx r.
Definition top (r : Rect) : Z := ry r.
Definition right (r : Rect) : Z := rx r + rw r.
Definition bottom (r : Rect) : Z := ry r + rh r.
Definition width (r : Rect) : Z := rw r.
Definition height (r : Rect) : Z := rh r.
(** pygame computes the centre with C integer division. *)
Definition centerx (r : Rect) : Z := rx r + Z.quot (rw r) 2.
Definition centery (r : Rect) : Z := ry r + Z.quot (rh r) 2.

(** [r.x += dx], [r.y += dy]. *)
Definition move_x (dx : Z) (r : Rect) : Rect :=
  mkRect (rx r + dx) (ry r) (rw r) (rh r).
Definition move_y (dy : Z) (r : Rect) : Rect :=
  mkRect (rx r) (ry r + dy) (rw r) (rh r).

(** [r.bottom = v]. *)
Definition set_bottom (v : Z) (r : Rect) : Rect :=
  mkRect (rx r) (v - rh r) (rw r) (rh r).

(** [r.center = (cx, cy)]. *)
Definition set_center (cx cy : Z) (r : Rect) : Rect :=
  mkRect (cx - Z.quot (rw r) 2) (cy - Z.quot (rh r) 2) (rw r) (rh r).

(** [a.colliderect(b)]: strict overlap of the two extents; a rectangle
    of zero width or height collides with nothing. *)
Definition colliderect (a b : Rect) : bool :=
  if (rw a =? 0) || (rh a =? 0) || (rw b =? 0) || (rh b =? 0) then false
  else
    (Z.min (rx a) (rx a + rw a) <? Z.max (rx b) (rx b + rw b)) &&
    (Z.min (ry a) (ry a + rh a) <? Z.max (ry b) (ry b + rh b)) &&
    (Z.min (rx b) (rx b + rw b) <? Z.max (rx a) (rx a + rw a)) &&
    (Z.min (ry b) (ry b + rh b) <? Z.max (ry a) (ry a + rh a)).

(** [r.clamp_ip(b)]: move [r] inside [b]; centred on an axis where it
    does not fit. *)
Definition clamp_axis (p s bp bs : Z) : Z :=
  if s >=? bs then bp + Z.quot bs 2 - Z.quot s 2
  else if p <? bp then bp
  else if p + s >? bp + bs then bp + bs - s
  else p.
Definition clamp_ip (b r : Rect) : Rect :=
  mkRect (clamp_axis (rx r) (rw r) (rx b) (rw b))
         (clamp_axis (ry r) (rh r) (ry b) (rh b))
         (rw r) (rh r).
End R.

(* ===================================================================== *)
(** ** Characters.py: data *)
(* ===================================================================== *)

(** The two combatants; also the value of [Projectile.owner]. *)
Inductive Side := Player | Enemy.

Definition other (s : Side) : Side :=
  match s with Player => Enemy | Enemy => Player end.

Definition Side_eqb (a b : Side) : bool :=
  match a, b with Player, Player | Enemy, Enemy => true | _, _ => false end.

(** An entry of [active_attacks]: the dict
    [{"rect", "damage", "knockback", "time", "alive"}]. *)
Record Hitbox := mkHitbox {
  hb_rect : Rect;
  hb_damage : Z;
  hb_knockback : Z;
  hb_time : Z;
  hb_alive : bool
}.

(** [class Projectile]. *)
Record Projectile := mkProjectile {
  p_rect : Rect;
  p_vel_x : Q;
  p_vel_y : Q;
  p_owner : Side;
  p_damage : Z;
  p_knockback : Z;
  p_alive : bool
}.

(** The classes of [Characters.py]; [Character] is the base class. *)
Inductive Archetype :=
  | Character | Ninja | Tank | Mage | Archer | Assassin
  | Priest | Boxer | Robot | Gunner | Brawler.

(** Values of [current_state]. *)
Inductive AnimState := Idle | Run | Attack | Special.

(** An instance of [class Character] (or of a subclass, [cls]).
    [anim_attack] and [anim_special] say whether
    [self.animations.get("attack")] / [("special")] is truthy, which depends
    on the sprite files found at start-up. *)
Record Fighter := mkFighter {
  cls : Archetype;
  rect : Rect;
  vel_x : Q;
  vel_y : Q;
  speed : Q;
  jump_strength : Q;
  on_ground : bool;
  facing : Z;
  percent : Q;
  weight : Q;
  active_attacks : list Hitbox;
  last_attack_time : Z;
  attack_cooldown : Z;
  stocks : Z;
  anim_attack : bool;
  anim_special : bool;
  current_state : AnimState
}.

(** Field updates. *)
Definition set_rect (v : Rect) (c : Fighter) : Fighter :=
  mkFighter (cls c) v (vel_x c) (vel_y c) (speed c) (jump_strength c)
    (on_ground c) (facing c) (percent c) (weight c) (active_attacks c)
    (last_attack_time c) (attack_cooldown c) (stocks c) (anim_attack c)
    (anim_special c) (current_state c).
Definition set_vel_x (v : Q) (c : Fighter) : Fighter :=
  mkFighter (cls c) (rect c) v (vel_y c) (speed c) (jump_strength c)
    (on_ground c) (facing c) (percent c) (weight c) (active_attacks c)
    (last_attack_time c) (attack_cooldown c) (stocks c) (anim_attack c)
    (anim_special c) (current_state c).
Definition set_vel_y (v : Q) (c : Fighter) : Fighter :=
  mkFighter (cls c) (rect c) (vel_x c) v (speed c) (jump_strength c)
    (on_ground c) (facing c) (percent c) (weight c) (active_attacks c)
    (last_attack_time c) (attack_cooldown c) (stocks c) (anim_attack c)
    (anim_special c) (current_state c).
Definition set_on_ground (v : bool) (c : Fighter) : Fighter :=
  mkFighter (cls c) (rect c) (vel_x c) (vel_y c) (speed c) (jump_strength c)
    v (facing c) (percent c) (weight c) (active_attacks c)
    (last_attack_time c) (attack_cooldown c) (stocks c) (anim_attack c)
    (anim_special c) (current_state c).
Definition set_facing (v : Z) (c : Fighter) : Fighter :=
  mkFighter (cls c) (rect c) (vel_x c) (vel_y c) (speed c) (jump_strength c)
    (on_ground c) v (percent c) (weight c) (active_attacks c)
    (last_attack_time c) (attack_cooldown c) (stocks c) (anim_attack c)
    (anim_special c) (current_state c).
Definition set_percent (v : Q) (c : Fighter) : Fighter :=
  mkFighter (cls c) (rect c) (vel_x c) (vel_y c) (speed c) (jump_strength c)
    (on_ground c) (facing c) v (weight c) (active_attacks c)
    (last_attack_time c) (attack_cooldown c) (stocks c) (anim_attack c)
    (anim_special c) (current_state c).
Definition set_active_attacks (v : list Hitbox) (c : Fighter) : Fighter :=
  mkFighter (cls c) (rect c) (vel_x c) (vel_y c) (speed c) (jump_strength c)
    (on_ground c) (facing c) (percent c) (weight c) v
    (last_attack_time c) (attack_cooldown c) (stocks c) (anim_attack c)
    (anim_special c) (current_state c).
Definition set_last_attack_time (v : Z) (c : Fighter) : Fighter :=
  mkFighter (cls c) (rect c) (vel_x c) (vel_y c) (speed c) (jump_strength c)
    (on_ground c) (facing c) (percent c) (weight c) (active_attacks c)
    v (attack_cooldown c) (stocks c) (anim_attack c)
    (anim_special c) (current_state c).
Definition set_stocks (v : Z) (c : Fighter) : Fighter :=
  mkFighter (cls c) (rect c) (vel_x c) (vel_y c) (speed c) (jump_strength c)
    (on_ground c) (facing c) (percent c) (weight c) (active_attacks c)
    (last_attack_time c) (attack_cooldown c) v (anim_attack c)
    (anim_special c) (current_state c).
Definition set_current_state (v : AnimState) (c : Fighter) : Fighter :=
  mkFighter (cls c) (rect c) (vel_x c) (vel_y c) (speed c) (jump_strength c)
    (on_ground c) (facing c) (percent c) (weight c) (active_attacks c)
    (last_attack_time c) (attack_cooldown c) (stocks c) (anim_attack c)
    (anim_special c) v.

(** [self.active_attacks.append(h)]. *)
Definition append_attack (h : Hitbox) (c : Fighter) : Fighter :=
  set_active_attacks (active_attacks c ++ [h]) c.

(** [if self.animations.get("attack"): self.current_state = "attack"]. *)
Definition trigger_attack_anim (c : Fighter) : Fighter :=
  if anim_attack c then set_current_state Attack c else c.
Definition trigger_special_anim (c : Fighter) : Fighter :=
  if anim_special c then set_current_state Special c else c.

(** [BASE_WIDTH, BASE_HEIGHT]. *)
Definition BASE_WIDTH : Z := 64.
Definition BASE_HEIGHT : Z := 80.

(** The constructors: [Character.__init__] followed by the subclass's
    overrides of speed, jump strength, weight and cooldown.  The two
    animation flags stand for the outcome of [try_load_sprites]. *)
Definition tune (sp js wt : Q) (cd : Z) : Q * Q * Q * Z := (sp, js, wt, cd).

Definition tuning (k : Archetype) : Q * Q * Q * Z :=
  match k with
  | Character => tune 4.0 (-14) 1.0 300
  | Ninja => tune 5.5 (-15) 0.9 220
  | Tank => tune 3.2 (-13) 1.8 420
  | Mage => tune 4.0 (-13.5) 1.0 300
  | Archer => tune 4.2 (-13.5) 0.95 260
  | Assassin => tune 6.0 (-16) 0.8 200
  | Priest => tune 3.8 (-12.5) 1.05 320
  | Boxer => tune 5.0 (-13.0) 0.95 180
  | Robot => tune 3.6 (-12.0) 1.4 360
  | Gunner => tune 4.4 (-13.0) 1.0 300
  | Brawler => tune 3.9 (-13.0) 1.2 300
  end.

Definition new_fighter (k : Archetype) : Fighter :=
  let '(sp, js, wt, cd) := tuning k in
  mkFighter k (mkRect 0 0 BASE_WIDTH BASE_HEIGHT) 0 0 sp js false 1 0 wt []
    0 cd 3 false false Idle.

(** What [try_load_sprites] finds on disk, as far as the simulation can
    tell: whether frames exist for "attack" and for "special", and the
    number in [scale.txt] if that file exists and parses. *)
Record Assets := mkAssets {
  has_attack_frames : bool;
  has_special_frames : bool;
  scale_txt : option Q
}.

(** [min(a, b)]: the first argument unless the second is strictly
    smaller. *)
Definition py_min (a b : Q) : Q := if Qltb b a then b else a.

(** [try_load_sprites()]: the animation table and, with a scale file, the
    size of the rectangle ([rect.size = (sw, sh)] keeps the top left
    corner). *)
Definition try_load_sprites (a : Assets) (c : Fighter) : Fighter :=
  let c :=
    mkFighter (cls c) (rect c) (vel_x c) (vel_y c) (speed c)
      (jump_strength c) (on_ground c) (facing c) (percent c) (weight c)
      (active_attacks c) (last_attack_time c) (attack_cooldown c) (stocks c)
      (has_attack_frames a) (has_special_frames a) (current_state c) in
  match scale_txt a with
  | Some s =>
      let scale := py_max 0.5 (py_min 2.0 s) in
      let sw := py_int (inject_Z BASE_WIDTH * scale) in
      let sh := py_int (inject_Z BASE_HEIGHT * scale) in
      set_rect (mkRect (rx (rect c)) (ry (rect c)) sw sh) c
  | None => c
  end.

(* ===================================================================== *)
(** ** Characters.py: methods of [Character] *)
(* ===================================================================== *)

(** [update_physics(gravity)]. *)
Definition update_physics (gravity : Q) (c : Fighter) : Fighter :=
  let c := set_vel_y (vel_y c + gravity) c in
  if on_ground c then set_vel_x (vel_x c * 0.85) c else c.

(** [apply_input(move, jump)]. *)
Definition apply_input (move : Z) (jump : bool) (c : Fighter) : Fighter :=
  let c :=
    if negb (move =? 0) then
      let c := set_vel_x (vel_x c + inject_Z move * speed c) c in
      set_facing (if move >? 0 then 1 else -1) c
    else c in
  if jump && on_ground c then
    set_on_ground false (set_vel_y (jump_strength c) c)
  else c.

(** What an attack method returns: [None], [("melee",)] or
    [("proj", proj)]. *)
Inductive AttackResult :=
  | NoAction
  | Melee
  | Proj (p : Projectile).

(** The rectangle every single-hit melee attack builds: [reach] wide and
    [h] tall, adjacent to the fighter on the side it faces, its top [up]
    above the fighter's vertical centre. *)
Definition front_rect (c : Fighter) (reach up h : Z) : Rect :=
  if facing c =? 1 then
    mkRect (R.right (rect c)) (R.centery (rect c) - up) reach h
  else
    mkRect (R.left (rect c) - reach) (R.centery (rect c) - up) reach h.

(** [Projectile(x, y, vx, vy, owner, damage=, knockback=, size=)]. *)
Definition new_projectile (x y : Z) (vx vy : Z) (owner : Side)
    (damage knockback size : Z) : Projectile :=
  mkProjectile (mkRect x y size size) (inject_Z vx) (inject_Z vy) owner
    damage knockback true.

Definition Character_light_attack (now : Z) (c : Fighter)
    : Fighter * AttackResult :=
  if now - last_attack_time c <? attack_cooldown c then (c, NoAction)
  else
    let c := set_last_attack_time now c in
    let reach := py_int (inject_Z (R.width (rect c)) * 0.6) in
    let r := front_rect c reach 10 20 in
    let c := append_attack (mkHitbox r 6 6 now true) c in
    (trigger_attack_anim c, Melee).

Definition Character_heavy_attack (now : Z) (c : Fighter)
    : Fighter * AttackResult :=
  if now - last_attack_time c <? py_int (inject_Z (attack_cooldown c) * 1.3)
  then (c, NoAction)
  else
    let c := set_last_attack_time now c in
    let reach := py_int (inject_Z (R.width (rect c)) * 0.9) in
    let r := front_rect c reach 14 28 in
    let c := if facing c =? 1 then set_vel_x (vel_x c - 2) c
             else set_vel_x (vel_x c + 2) c in
    let c := append_attack (mkHitbox r 10 12 now true) c in
    (trigger_attack_anim c, Melee).

Definition Character_special_attack (now : Z) (c : Fighter)
    : Fighter * AttackResult :=
  if now - last_attack_time c <? py_int (inject_Z (attack_cooldown c) * 0.9)
  then (c, NoAction)
  else
    let c := set_last_attack_time now c in
    let c := set_vel_x (vel_x c + 6 * inject_Z (facing c)) c in
    let reach := py_int (inject_Z (R.width (rect c)) * 0.7) in
    let r := front_rect c reach 10 20 in
    let c := append_attack (mkHitbox r 8 10 now true) c in
    (trigger_special_anim c, Melee).

(** [receive_hit(damage, base_kb, source)]; of [source] only
    [source.rect.centerx] is read. *)
Definition kb_force (base_kb pct wt : Q) : Q :=
  base_kb * (1 + pct / 100.0) / py_max 0.5 wt.

Definition hit_direction (c : Fighter) (source_centerx : Z) : Z :=
  if R.centerx (rect c) >? source_centerx then 1 else -1.

Definition receive_hit (damage base_kb : Q) (source : Fighter) (c : Fighter)
    : Fighter :=
  let c := set_percent (percent c + damage) c in
  let kb := kb_force base_kb (percent c) (weight c) in
  let direction := hit_direction c (R.centerx (rect source)) in
  let c := set_vel_x (vel_x c + kb * inject_Z direction) c in
  set_vel_y (vel_y c - kb * 0.6) c.

(** [on_ko()]. *)
Definition on_ko (c : Fighter) : Fighter :=
  let c := set_stocks (stocks c - 1) c in
  if stocks c <=? 0 then set_percent 0 (set_stocks 3 c) else c.

(** [update_animation(dt)]: the part that picks [current_state]. *)
Definition update_animation (c : Fighter) : Fighter :=
  if Qgtb (py_abs (vel_x c)) 1.2 && on_ground c then set_current_state Run c
  else set_current_state Idle c.

(* ===================================================================== *)
(** ** Characters.py: the subclasses' overrides *)
(* ===================================================================== *)

Definition Ninja_special_attack (now : Z) (c : Fighter)
    : Fighter * AttackResult :=
  if now - last_attack_time c <? 400 then (c, NoAction)
  else
    let c := set_last_attack_time now c in
    let c := set_rect (R.move_x (60 * facing c) (rect c)) c in
    let r := front_rect c 40 12 24 in
    let c := append_attack (mkHitbox r 12 14 now true) c in
    (trigger_special_anim c, Melee).

Definition Tank_light_attack (now : Z) (c : Fighter)
    : Fighter * AttackResult :=
  if now - last_attack_time c <? attack_cooldown c then (c, NoAction)
  else
    let c := set_last_attack_time now c in
    let r := front_rect c 40 16 32 in
    let c := append_attack (mkHitbox r 8 8 now true) c in
    (trigger_attack_anim c, Melee).

Definition Tank_special_attack (now : Z) (c : Fighter)
    : Fighter * AttackResult :=
  if now - last_attack_time c <? 900 then (c, NoAction)
  else
    let c := set_last_attack_time now c in
    let r := front_rect c 60 22 44 in
    let c := append_attack (mkHitbox r 18 28 now true) c in
    let c := set_vel_x (vel_x c - 4 * inject_Z (facing c)) c in
    (trigger_special_anim c, Melee).

Definition Mage_special_attack (self : Side) (now : Z) (c : Fighter)
    : Fighter * AttackResult :=
  if now - last_attack_time c <? 500 then (c, NoAction)
  else
    let c := set_last_attack_time now c in
    let vx := 10 * facing c in
    (c, Proj (new_projectile (R.centerx (rect c) + facing c * 30)
                (R.centery (rect c) - 10) vx 0 self 9 10 14)).

Definition Archer_special_attack (self : Side) (now : Z) (c : Fighter)
    : Fighter * AttackResult :=
  if now - last_attack_time c <? 420 then (c, NoAction)
  else
    let c := set_last_attack_time now c in
    let vx := 12 * facing c in
    let vy := -2 in
    (c, Proj (new_projectile (R.centerx (rect c) + facing c * 30)
                (R.centery (rect c) - 16) vx vy self 11 11 12)).

Definition Assassin_light_attack (now : Z) (c : Fighter)
    : Fighter * AttackResult :=
  if now - last_attack_time c <? 160 then (c, NoAction)
  else
    let c := set_last_attack_time now c in
    let r := front_rect c 28 8 16 in
    let c := append_attack (mkHitbox r 5 5 now true) c in
    (trigger_attack_anim c, Melee).

Definition Assassin_special_attack (now : Z) (c : Fighter)
    : Fighter * AttackResult :=
  if now - last_attack_time c <? 700 then (c, NoAction)
  else
    let c := set_last_attack_time now c in
    let c := set_rect (R.move_x (80 * facing c) (rect c)) c in
    let r := front_rect c 40 14 28 in
    let c := append_attack (mkHitbox r 16 18 now true) c in
    (trigger_special_anim c, Melee).

Definition Priest_special_attack (now : Z) (c : Fighter)
    : Fighter * AttackResult :=
  if now - last_attack_time c <? 1000 then (c, NoAction)
  else
    let c := set_last_attack_time now c in
    let heal_amount := 12%Q in
    let c := set_percent (py_max 0.0 (percent c - heal_amount)) c in
    (trigger_special_anim c, Melee).

(** The three punches of [Boxer.light_attack]: [for i in range(3)]. *)
Definition Boxer_punch (now : Z) (c : Fighter) (i : Z) : Fighter :=
  let t_offset := i * 60 in
  let ts := now + t_offset in
  let r := front_rect c 26 10 20 in
  let dmg := 4 + i in
  let kb := 4 + i in
  append_attack (mkHitbox r dmg kb ts true) c.

Definition Boxer_light_attack (now : Z) (c : Fighter)
    : Fighter * AttackResult :=
  if now - last_attack_time c <? attack_cooldown c then (c, NoAction)
  else
    let c := set_last_attack_time now c in
    let c := fold_left (Boxer_punch now) [0; 1; 2] c in
    (trigger_attack_anim c, Melee).

Definition Boxer_special_attack (now : Z) (c : Fighter)
    : Fighter * AttackResult :=
  if now - last_attack_time c <? 600 then (c, NoAction)
  else
    let c := set_last_attack_time now c in
    let reach := 30 in
    let r := if facing c =? 1 then
               mkRect (R.right (rect c)) (R.top (rect c) - 10) reach
                      (R.height (rect c) + 20)
             else
               mkRect (R.left (rect c) - reach) (R.top (rect c) - 10) reach
                      (R.height (rect c) + 20) in
    let c := append_attack (mkHitbox r 12 22 now true) c in
    (trigger_special_anim c, Melee).

Definition Robot_light_attack (now : Z) (c : Fighter)
    : Fighter * AttackResult :=
  if now - last_attack_time c <? attack_cooldown c then (c, NoAction)
  else
    let c := set_last_attack_time now c in
    let r := front_rect c 36 12 24 in
    let c := append_attack (mkHitbox r 9 9 now true) c in
    (trigger_attack_anim c, Melee).

Definition Robot_special_attack (self : Side) (now : Z) (c : Fighter)
    : Fighter * AttackResult :=
  if now - last_attack_time c <? 900 then (c, NoAction)
  else
    let c := set_last_attack_time now c in
    let vx := 7 * facing c in
    let proj := new_projectile (R.centerx (rect c) + facing c * 36)
                  (R.centery (rect c) - 8) vx 0 self 20 24 18 in
    let c := set_vel_x (vel_x c - 5 * inject_Z (facing c)) c in
    (c, Proj proj).

Definition Gunner_light_attack (self : Side) (now : Z) (c : Fighter)
    : Fighter * AttackResult :=
  if now - last_attack_time c <? 220 then (c, NoAction)
  else
    let c := set_last_attack_time now c in
    let vx := 14 * facing c in
    (c, Proj (new_projectile (R.centerx (rect c) + facing c * 28)
                (R.centery (rect c) - 8) vx 0 self 7 7 8)).

Definition Gunner_special_attack (self : Side) (now : Z) (c : Fighter)
    : Fighter * AttackResult :=
  if now - last_attack_time c <? 700 then (c, NoAction)
  else
    let c := set_last_attack_time now c in
    let vx := 16 * facing c in
    let proj := new_projectile (R.centerx (rect c) + facing c * 28)
                  (R.centery (rect c) - 6) vx (-1) self 14 16 12 in
    let c := set_vel_x (vel_x c - 2 * inject_Z (facing c)) c in
    (c, Proj proj).

Definition Brawler_heavy_attack (now : Z) (c : Fighter)
    : Fighter * AttackResult :=
  if now - last_attack_time c <? py_int (inject_Z (attack_cooldown c) * 1.2)
  then (c, NoAction)
  else
    let c := set_last_attack_time now c in
    let r := front_rect c 48 20 40 in
    let c := if facing c =? 1 then set_vel_x (vel_x c - 3) c
             else set_vel_x (vel_x c + 3) c in
    let c := append_attack (mkHitbox r 14 20 now true) c in
    (trigger_attack_anim c, Melee).

Definition Brawler_special_attack (now : Z) (c : Fighter)
    : Fighter * AttackResult :=
  if now - last_attack_time c <? 900 then (c, NoAction)
  else
    let c := set_last_attack_time now c in
    let size := 120 in
    let r := mkRect (R.centerx (rect c) - size / 2)
                    (R.centery (rect c) - size / 2) size size in
    let c := append_attack (mkHitbox r 16 22 now true) c in
    let c := set_vel_y (vel_y c + 6) c in
    (trigger_special_anim c, Melee).

(** Method resolution: the subclass's override when there is one, the
    base class's method otherwise.  [self] is the handle a spawned
    projectile records as its owner. *)
Definition light_attack (self : Side) (now : Z) (c : Fighter)
    : Fighter * AttackResult :=
  match cls c with
  | Tank => Tank_light_attack now c
  | Assassin => Assassin_light_attack now c
  | Boxer => Boxer_light_attack now c
  | Robot => Robot_light_attack now c
  | Gunner => Gunner_light_attack self now c
  | _ => Character_light_attack now c
  end.

Definition heavy_attack (self : Side) (now : Z) (c : Fighter)
    : Fighter * AttackResult :=
  match cls c with
  | Brawler => Brawler_heavy_attack now c
  | _ => Character_heavy_attack now c
  end.

Definition special_attack (self : Side) (now : Z) (c : Fighter)
    : Fighter * AttackResult :=
  match cls c with
  | Character => Character_special_attack now c
  | Ninja => Ninja_special_attack now c
  | Tank => Tank_special_attack now c
  | Mage => Mage_special_attack self now c
  | Archer => Archer_special_attack self now c
  | Assassin => Assassin_special_attack now c
  | Priest => Priest_special_attack now c
  | Boxer => Boxer_special_attack now c
  | Robot => Robot_special_attack self now c
  | Gunner => Gunner_special_attack self now c
  | Brawler => Brawler_special_attack now c
  end.

(** The three attack variants and the cooldown each one tests
    [now - last_attack_time] against. *)
Inductive Variant := Light | Heavy | SpecialV.

Definition attack (v : Variant) (self : Side) (now : Z) (c : Fighter)
    : Fighter * AttackResult :=
  match v with
  | Light => light_attack self now c
  | Heavy => heavy_attack self now c
  | SpecialV => special_attack self now c
  end.

Definition cooldown_window (v : Variant) (c : Fighter) : Z :=
  match v, cls c with
  | Light, Assassin => 160
  | Light, Gunner => 220
  | Light, _ => attack_cooldown c
  | Heavy, Brawler => py_int (inject_Z (attack_cooldown c) * 1.2)
  | Heavy, _ => py_int (inject_Z (attack_cooldown c) * 1.3)
  | SpecialV, Character => py_int (inject_Z (attack_cooldown c) * 0.9)
  | SpecialV, Ninja => 400
  | SpecialV, Tank => 900
  | SpecialV, Mage => 500
  | SpecialV, Archer => 420
  | SpecialV, Assassin => 700
  | SpecialV, Priest => 1000
  | SpecialV, Boxer => 600
  | SpecialV, Robot => 900
  | SpecialV, Gunner => 700
  | SpecialV, Brawler => 900
  end.

(* ===================================================================== *)
(** ** ai.py: [SimpleAI] *)
(* ===================================================================== *)

(** The generator behind [random.random()] and [random.randint]: the
    values it is about to return, in order. *)
Record RNG := mkRNG { floats : nat -> Q; ints : nat -> Z }.

(** [random.random()]. *)
Definition random : state RNG Q :=
  g <- get ;;
  put (mkRNG (fun n => floats g (S n)) (ints g)) ;;
  ret (floats g 0%nat).

(** [random.randint(a, b)]: an integer of [a..b]. *)
Definition randint (a b : Z) : state RNG Z :=
  g <- get ;;
  put (mkRNG (floats g) (fun n => ints g (S n))) ;;
  ret (a + (ints g 0%nat) mod (b - a + 1)).

(** The generator after [k] calls of [random.random()], and after the
    two draws that open a decision ([random.random()] for the 18% gate,
    then [random.randint]). *)
Definition skip_floats (k : nat) (g : RNG) : RNG :=
  mkRNG (fun n => floats g (k + n)%nat) (ints g).


(** The dict [{"move", "jump", "light", "heavy", "special"}]. *)
Record Action := mkAction {
  move : Z;
  jump : bool;
  light : bool;
  heavy : bool;
  special : bool
}.

(** The fields of [SimpleAI] that persist between ticks; [char],
    [target] and [projectiles] are references into the match and are
    passed to [decide] instead. *)
Record SimpleAI := mkAI { cool : Z; action : Action }.

Definition SimpleAI_init : SimpleAI :=
  mkAI 0 (mkAction 0 false false false false).

(** [update(enemy, projectiles)]. *)
Definition SimpleAI_update (ai : SimpleAI) : SimpleAI :=
  if cool ai >? 0 then mkAI (cool ai - 1) (action ai) else ai.

(** The test of the dodge loop on one projectile. *)
Definition threatens (self : Side) (char : Fighter) (p : Projectile) : bool :=
  negb (Side_eqb (p_owner p) self) &&
  ((Z.abs (R.centery (p_rect p) - R.centery (rect char)) <? 40) &&
   (Z.abs (R.centerx (p_rect p) - R.centerx (rect char)) <? 180)).

(** The move the dodge picks against [p]. *)
Definition evade (char : Fighter) (p : Projectile) : Z :=
  if R.centerx (p_rect p) <? R.centerx (rect char) then -1 else 1.

(** [for p in self.projectiles: ...]: [Some (move, jump)] when the loop
    leaves through [break], [None] when it runs to the end. *)
Fixpoint dodge_loop (self : Side) (char : Fighter) (ps : list Projectile)
    : state RNG (option (Z * bool)) :=
  match ps with
  | [] => ret None
  | p :: rest =>
      if threatens self char p then
        r <- random ;;
        if Qltb r 0.6 then
          r' <- random ;;
          ret (Some (evade char p, Qltb r' 0.4))
        else dodge_loop self char rest
      else dodge_loop self char rest
  end.

(** The [if dist > 220 / elif dist > 120 / else] block, acting on the
    local variables [move], [jump], [light], [heavy], [special]. *)
Definition range_behavior (dist_x : Z) (a : Action) : state RNG Action :=
  let dist := Z.abs dist_x in
  if dist >? 220 then
    let mv := if dist_x >? 0 then 1 else -1 in
    r <- random ;;
    ret (mkAction mv (jump a) (light a) (heavy a)
           (if Qltb r 0.2 then true else special a))
  else if dist >? 120 then
    let mv := if dist_x >? 0 then 1 else -1 in
    r <- random ;;
    if Qltb r 0.35 then
      ret (mkAction mv (jump a) (light a) (heavy a) true)
    else
      r' <- random ;;
      ret (mkAction mv (jump a) (light a)
             (if Qltb r' 0.4 then true else heavy a) (special a))
  else
    r <- random ;;
    a <- (if Qltb r 0.6 then
            ret (mkAction (move a) (jump a) true (heavy a) (special a))
          else
            r' <- random ;;
            ret (mkAction (move a) (jump a) (light a)
                   (if Qltb r' 0.3 then true else heavy a) (special a))) ;;
    r'' <- random ;;
    ret (mkAction (move a) (if Qltb r'' 0.2 then true else jump a)
           (light a) (heavy a) (special a)).

(** [if self.char.percent > 120 and random.random() < 0.5: ...]. *)
Definition retreat_override (char : Fighter) (dist_x : Z) (a : Action)
    : state RNG Action :=
  if Qgtb (percent char) 120 then
    r <- random ;;
    if Qltb r 0.5 then
      let mv := if dist_x >? 0 then -1 else 1 in
      r' <- random ;;
      ret (mkAction mv (if Qltb r' 0.6 then true else jump a)
             (light a) (heavy a) (special a))
    else ret a
  else ret a.

(** The branch of [decide] taken when a decision is made. *)
Definition decide_now (self : Side) (char target : Fighter)
    (projectiles : list Projectile) : state RNG (Action * SimpleAI) :=
  c <- randint 15 40 ;;
  let dist_x := R.centerx (rect target) - R.centerx (rect char) in
  d <- dodge_loop self char projectiles ;;
  let '(a, c) :=
    match d with
    | Some (mv, j) => (mkAction mv j false false false, c + 10)
    | None => (mkAction 0 false false false false, c)
    end in
  a <- range_behavior dist_x a ;;
  a <- retreat_override char dist_x a ;;
  ret (a, mkAI c a).

(** The default branch: face the target, rarely a light attack.  The
    action is returned but not stored. *)
Definition decide_default (char target : Fighter) (ai : SimpleAI)
    : state RNG (Action * SimpleAI) :=
  let mv :=
    if Z.abs (R.centerx (rect target) - R.centerx (rect char)) >? 30 then
      if R.centerx (rect target) >? R.centerx (rect char) then 1 else -1
    else 0 in
  r <- random ;;
  ret (mkAction mv false (Qltb r 0.02) false false, ai).

(** [decide()]; [and] does not draw when [cool > 0]. *)
Definition decide (self : Side) (char target : Fighter)
    (projectiles : list Projectile) (ai : SimpleAI)
    : state RNG (Action * SimpleAI) :=
  go <- (if cool ai <=? 0 then r <- random ;; ret (Qltb r 0.18)
         else ret false) ;;
  if (go : bool) then decide_now self char target projectiles
  else decide_default char target ai.

(* ===================================================================== *)
(** ** main.py: constants, platforms, match state *)
(* ===================================================================== *)

Definition WIDTH : Z := 1000.
Definition HEIGHT : Z := 600.
Definition GRAVITY : Q := 0.9.
Definition GROUND_Y : Z := HEIGHT - 80.

Definition PLATFORMS : list Rect :=
  [ mkRect 0 GROUND_Y WIDTH 80;
    mkRect (WIDTH / 2 - 100) (GROUND_Y - 150) 200 20;
    mkRect 150 (GROUND_Y - 90) 200 20;
    mkRect (WIDTH - 350) (GROUND_Y - 90) 200 20 ].

(** The local variables of [main_game] that make up the simulation. *)
Record Match := mkMatch {
  player : Fighter;
  enemy : Fighter;
  ai : SimpleAI;
  projectiles : list Projectile;
  game_over : bool;
  winner : option Side
}.

Definition fighter (s : Side) (m : Match) : Fighter :=
  match s with Player => player m | Enemy => enemy m end.

Definition set_fighter (s : Side) (f : Fighter) (m : Match) : Match :=
  match s with
  | Player => mkMatch f (enemy m) (ai m) (projectiles m) (game_over m)
                (winner m)
  | Enemy => mkMatch (player m) f (ai m) (projectiles m) (game_over m)
               (winner m)
  end.

Definition set_ai (a : SimpleAI) (m : Match) : Match :=
  mkMatch (player m) (enemy m) a (projectiles m) (game_over m) (winner m).

Definition set_projectiles (ps : list Projectile) (m : Match) : Match :=
  mkMatch (player m) (enemy m) (ai m) ps (game_over m) (winner m).

(** [winner = w; game_over = True]. *)
Definition end_match (w : Side) (m : Match) : Match :=
  mkMatch (player m) (enemy m) (ai m) (projectiles m) true (Some w).

(** [reset_positions(player, enemy)], one fighter at a time. *)
Definition reset_position (cx : Q) (f : Fighter) : Fighter :=
  let f := set_rect (R.set_center (py_int cx)
                       (GROUND_Y - R.height (rect f) / 2) (rect f)) f in
  let f := set_vel_y 0 (set_vel_x 0 f) in
  set_on_ground false f.

(** The state [main_game] enters its loop with. *)
Definition start_match (p e : Fighter) : Match :=
  mkMatch (reset_position (inject_Z WIDTH * 0.25) p)
          (reset_position (inject_Z WIDTH * 0.75) e)
          SimpleAI_init [] false None.

(** [main_game(player_cls, enemy_cls)] up to its loop. *)
Definition main_game_start (player_cls enemy_cls : Archetype)
    (player_assets enemy_assets : Assets) : Match :=
  start_match (try_load_sprites player_assets (new_fighter player_cls))
              (try_load_sprites enemy_assets (new_fighter enemy_cls)).

(* ===================================================================== *)
(** ** main.py: platform collisions *)
(* ===================================================================== *)

(** The test guarding a landing on [plat]. *)
Definition lands_on (entity : Fighter) (plat : Rect) : bool :=
  R.colliderect (rect entity) plat &&
  (Qgeb (vel_y entity) 0 &&
   Qleb (inject_Z (R.bottom (rect entity)) - vel_y entity)
        (inject_Z (R.top plat + 6))).

(** The landing itself. *)
Definition land (entity : Fighter) (plat : Rect) : Fighter :=
  let entity := set_rect (R.set_bottom (R.top plat) (rect entity)) entity in
  let entity := set_vel_y 0 entity in
  set_on_ground true entity.

(** The body of [for plat in PLATFORMS]. *)
Definition platform_step (entity : Fighter) (plat : Rect) : Fighter :=
  if lands_on entity plat then land entity plat else entity.

Definition handle_platform_collisions_on (plats : list Rect)
    (entity : Fighter) : Fighter :=
  fold_left platform_step plats (set_on_ground false entity).

Definition handle_platform_collisions : Fighter -> Fighter :=
  handle_platform_collisions_on PLATFORMS.

(* ===================================================================== *)
(** ** main.py: one iteration of the loop, [if not game_over] *)
(* ===================================================================== *)

(** [pygame.key.get_pressed()], the keys the game reads. *)
Record Keys := mkKeys {
  K_LEFT : bool; K_RIGHT : bool; K_UP : bool;
  K_z : bool; K_x : bool; K_c : bool
}.

Definition move_input (k : Keys) : Z :=
  (if K_LEFT k then -1 else 0) + (if K_RIGHT k then 1 else 0).

(** The clock samples of one iteration: one per attack call, and one per
    surviving hitbox for each of the two pruning comprehensions. *)
Record Clock := mkClock {
  t_light : Side -> Z;
  t_heavy : Side -> Z;
  t_special : Side -> Z;
  t_prune : Side -> nat -> Z
}.

(** Everything one iteration takes from outside the simulation. *)
Record Inputs := mkInputs { keys : Keys; clock : Clock; rng : RNG }.

(** [maybe = f.xxx_attack(); if maybe and maybe[0] == "proj":
    projectiles.append(maybe[1])]. *)
Definition register (res : AttackResult) (ps : list Projectile)
    : list Projectile :=
  match res with Proj p => ps ++ [p] | _ => ps end.

(** Physics, input and the requested attacks of one fighter (the same
    statements are written once for the player and once for the enemy).
    The result of [heavy_attack] is dropped by the caller. *)
Definition fighter_turn (s : Side) (clk : Clock) (a : Action)
    (f : Fighter) (ps : list Projectile) : Fighter * list Projectile :=
  let f := update_physics GRAVITY f in
  let f := apply_input (move a) (jump a) f in
  let '(f, ps) :=
    if light a then
      let '(f, res) := light_attack s (t_light clk s) f in (f, register res ps)
    else (f, ps) in
  let f := if heavy a then fst (heavy_attack s (t_heavy clk s) f) else f in
  if special a then
    let '(f, res) := special_attack s (t_special clk s) f in
    (f, register res ps)
  else (f, ps).

Definition keys_action (k : Keys) : Action :=
  mkAction (move_input k) (K_UP k) (K_z k) (K_x k) (K_c k).

(** [Projectile.update()]. *)
Definition Projectile_update (p : Projectile) : Projectile :=
  let r := R.move_x (py_int (p_vel_x p)) (p_rect p) in
  let r := R.move_y (py_int (p_vel_y p)) r in
  mkProjectile r (p_vel_x p) (p_vel_y p) (p_owner p) (p_damage p)
    (p_knockback p) (p_alive p).

Definition projectile_gone (p : Projectile) : bool :=
  negb (p_alive p) || (R.right (p_rect p) <? -100) ||
  (R.left (p_rect p) >? WIDTH + 100).

(** [for p in projectiles[:]: p.update(); if ...: projectiles.remove(p)].
    Every projectile object is in the list once, so removing it is
    dropping that element. *)
Definition update_projectiles (ps : list Projectile) : list Projectile :=
  filter (fun p => negb (projectile_gone p)) (map Projectile_update ps).

Definition clamp_to_arena (f : Fighter) : Fighter :=
  set_rect (R.clamp_ip (mkRect (-500) (-500) (WIDTH + 1000) (HEIGHT + 1000))
              (rect f)) f.

Definition kill (a : Hitbox) : Hitbox :=
  mkHitbox (hb_rect a) (hb_damage a) (hb_knockback a) (hb_time a) false.

(** Whether the loop over [owner.active_attacks[:]] hits with [atk]. *)
Definition connects (atk : Hitbox) (target : Fighter) : bool :=
  R.colliderect (hb_rect atk) (rect target) && hb_alive atk.

(** The loop over [owner.active_attacks[:]]: the target after the hits,
    and the hitbox dicts after the loop, in order. *)
Fixpoint hit_loop (owner : Fighter) (atks : list Hitbox) (target : Fighter)
    : Fighter * list Hitbox :=
  match atks with
  | [] => (target, [])
  | atk :: rest =>
      if connects atk target then
        let target :=
          receive_hit (inject_Z (hb_damage atk)) (inject_Z (hb_knockback atk))
            owner target in
        let '(target, rest) := hit_loop owner rest target in
        (target, kill atk :: rest)
      else
        let '(target, rest) := hit_loop owner rest target in
        (target, atk :: rest)
  end.

(** [[a for a in owner.active_attacks
      if a["alive"] and pygame.time.get_ticks() - a["time"] < 600]]:
    the clock is sampled once for every hitbox that is alive. *)
Fixpoint prune (clk : nat -> Z) (atks : list Hitbox) : list Hitbox :=
  match atks with
  | [] => []
  | a :: rest =>
      if hb_alive a then
        if clk 0%nat - hb_time a <? 600
        then a :: prune (fun n => clk (S n)) rest
        else prune (fun n => clk (S n)) rest
      else prune clk rest
  end.

(** One turn of [for owner in (player, enemy)]. *)
Definition resolve_attacks (s : Side) (clk : Clock) (m : Match) : Match :=
  let owner := fighter s m in
  let '(target, atks) :=
    hit_loop owner (active_attacks owner) (fighter (other s) m) in
  let m := set_fighter (other s) target m in
  set_fighter s (set_active_attacks (prune (t_prune clk s) atks)
                   (fighter s m)) m.

(** [p.alive = False]. *)
Definition spend (p : Projectile) : Projectile :=
  mkProjectile (p_rect p) (p_vel_x p) (p_vel_y p) (p_owner p) (p_damage p)
    (p_knockback p) false.

(** Whether the [if] or the [elif] of the loop "Projectiles hitting
    players" takes [p]: it overlaps the fighter that is not its owner.
    The flag [alive] is not looked at. *)
Definition strikes (p : Projectile) (pl en : Fighter) : bool :=
  (Side_eqb (p_owner p) Player && R.colliderect (p_rect p) (rect en)) ||
  (Side_eqb (p_owner p) Enemy && R.colliderect (p_rect p) (rect pl)).

(** The [if]/[elif] of that loop for one projectile: the two fighters
    and the projectile afterwards. *)
Definition projectile_hit (p : Projectile) (pl en : Fighter)
    : Fighter * Fighter * Projectile :=
  if Side_eqb (p_owner p) Player && R.colliderect (p_rect p) (rect en)
  then
    (pl,
     receive_hit (inject_Z (p_damage p)) (inject_Z (p_knockback p)) pl en,
     spend p)
  else if Side_eqb (p_owner p) Enemy && R.colliderect (p_rect p) (rect pl)
  then
    (receive_hit (inject_Z (p_damage p)) (inject_Z (p_knockback p)) en pl,
     en,
     spend p)
  else (pl, en, p).

(** The loop "Projectiles hitting players": the two fighters after the
    hits and the projectiles left in the list.  The last statement of the
    body, [if not p.alive and p in projectiles: projectiles.remove(p)],
    decides whether the projectile stays. *)
Fixpoint projectile_loop (ps : list Projectile) (pl en : Fighter)
    : Fighter * Fighter * list Projectile :=
  match ps with
  | [] => (pl, en, [])
  | p :: rest =>
      let '(pl, en, p) := projectile_hit p pl en in
      let '(pl, en, rest) := projectile_loop rest pl en in
      (pl, en, if negb (p_alive p) then rest else p :: rest)
  end.

Definition resolve_projectiles (m : Match) : Match :=
  let '(pl, en, ps) := projectile_loop (projectiles m) (player m) (enemy m) in
  mkMatch pl en (ai m) ps (game_over m) (winner m).

(** [ent.rect.x += int(ent.vel.x); ent.rect.y += int(ent.vel.y)]. *)
Definition integrate (f : Fighter) : Fighter :=
  set_rect (R.move_y (py_int (vel_y f))
              (R.move_x (py_int (vel_x f)) (rect f))) f.

Definition out_of_bounds (r : Rect) : bool :=
  (R.top r >? HEIGHT + 200) || (R.right r <? -200) ||
  (R.left r >? WIDTH + 200).

(** The closure [check_ko(ent, spawn_x)]; [game_over] and [winner] are
    its [nonlocal] variables. *)
Definition check_ko (s : Side) (spawn_x : Q) (m : Match) : Match :=
  let ent := fighter s m in
  if out_of_bounds (rect ent) then
    if stocks ent <=? 1 then end_match (other s) m
    else
      let ent := on_ko ent in
      let ent := set_percent 0 ent in
      let ent := set_rect (R.set_center (py_int spawn_x)
                             (GROUND_Y - R.height (rect ent) / 2)
                             (rect ent)) ent in
      let ent := set_vel_y 0 (set_vel_x 0 ent) in
      set_fighter s ent m
  else m.

(** The body of [if not game_over:], first half: input, physics, attack
    calls, AI decision, projectile motion, clamping and platforms. *)
Definition act (inp : Inputs) (m : Match) : Match :=
  (* player *)
  let '(pl, ps) := fighter_turn Player (clock inp) (keys_action (keys inp))
                     (player m) (projectiles m) in
  (* AI makes decision *)
  let ai1 := SimpleAI_update (ai m) in
  let '(ai_action, ai2) :=
    evalState (decide Enemy (enemy m) pl ps ai1) (rng inp) in
  let '(en, ps) := fighter_turn Enemy (clock inp) ai_action (enemy m) ps in
  (* update projectiles *)
  let ps := update_projectiles ps in
  (* platform collisions and clamping *)
  let pl := handle_platform_collisions (clamp_to_arena pl) in
  let en := handle_platform_collisions (clamp_to_arena en) in
  mkMatch pl en ai2 ps (game_over m) (winner m).

(** [for owner in (player, enemy): ...]. *)
Definition resolve_hitboxes (clk : Clock) (m : Match) : Match :=
  let m := resolve_attacks Player clk m in
  resolve_attacks Enemy clk m.

(** "Apply continuous knockback movement". *)
Definition apply_movement (m : Match) : Match :=
  let m := set_fighter Player (integrate (player m)) m in
  set_fighter Enemy (integrate (enemy m)) m.

(** [check_ko(player, WIDTH * 0.25); check_ko(enemy, WIDTH * 0.75)]. *)
Definition ko_checks (m : Match) : Match :=
  let m := check_ko Player (inject_Z WIDTH * 0.25) m in
  check_ko Enemy (inject_Z WIDTH * 0.75) m.

(** "Update animations". *)
Definition update_animations (m : Match) : Match :=
  let m := set_fighter Player (update_animation (player m)) m in
  set_fighter Enemy (update_animation (enemy m)) m.

(** Second half: hitbox and projectile collisions, knockback movement,
    KO check, animation state. *)
Definition resolve (clk : Clock) (m : Match) : Match :=
  let m := resolve_hitboxes clk m in
  let m := resolve_projectiles m in
  let m := apply_movement m in
  let m := ko_checks m in
  update_animations m.

Definition simulate (inp : Inputs) (m : Match) : Match :=
  resolve (clock inp) (act inp m).

(** One iteration of the [while running] loop, as far as the simulation
    state goes. *)
Definition tick (inp : Inputs) (m : Match) : Match :=
  if game_over m then m else simulate inp m.

(** The states a match can be in at the top of the loop. *)
Inductive reachable : Match -> Prop :=
  | reach_start pk ek pa ea : reachable (main_game_start pk ek pa ea)
  | reach_tick inp m : reachable m -> reachable (tick inp m).

(** What holds of every hitbox and projectile the match holds at the top
    of the loop: it is alive, and its damage is not negative. *)
Definition hitbox_ok (a : Hitbox) : Prop :=
  hb_alive a = true /\ 0 <= hb_damage a.

Definition projectile_ok (p : Projectile) : Prop :=
  p_alive p = true /\ 0 <= p_damage p.

Definition well_formed (m : Match) : Prop :=
  Forall hitbox_ok (active_attacks (player m)) /\
  Forall hitbox_ok (active_attacks (enemy m)) /\
  Forall projectile_ok (projectiles m).

(** Every hitbox and projectile of the match is alive. *)
Definition all_alive (m : Match) : Prop :=
  (forall s a, In a (active_attacks (fighter s m)) -> hb_alive a = true) /\
  (forall p, In p (projectiles m) -> p_alive p = true).

(** Relations between a fighter, or a match, and the same a few
    statements later; the invariants below are stated with them. *)

(** [c'] is [c] after operations that touch neither class, stocks,
    percent nor the hitbox list. *)
Definition same_core (c c' : Fighter) : Prop :=
  cls c' = cls c /\ stocks c' = stocks c /\ percent c' = percent c /\
  active_attacks c' = active_attacks c.

(** [c'] is [c] after one fighter's turn: class and stocks are kept,
    percent is kept unless the fighter is a priest, and the hitbox list
    stays in order if it was. *)
Definition turn_ok (c c' : Fighter) : Prop :=
  cls c' = cls c /\ stocks c' = stocks c /\
  (cls c <> Priest -> percent c' = percent c) /\
  (Forall hitbox_ok (active_attacks c) ->
   Forall hitbox_ok (active_attacks c')).

(** [c'] is [c] after hits: class, stocks and hitbox list are kept and
    percent has not gone down. *)
Definition grows (c c' : Fighter) : Prop :=
  cls c' = cls c /\ stocks c' = stocks c /\
  active_attacks c' = active_attacks c /\
  (percent c <= percent c')%Q.

Definition nonneg_damage (a : Hitbox) : Prop := 0 <= hb_damage a.

(** [c'] is [c] some statements later: same class, same stocks, percent
    not lower. *)
Definition rises (c c' : Fighter) : Prop :=
  cls c' = cls c /\ stocks c' = stocks c /\ (percent c <= percent c')%Q.

(** A stage of the loop body: from a match in order it leads to a match
    in order and lowers nobody's percent. *)
Definition stage_ok (m m' : Match) : Prop :=
  well_formed m ->
  well_formed m' /\ forall s, rises (fighter s m) (fighter s m').

(** How many projectiles an attack call hands to the simulation. *)
Definition spawned (r : AttackResult) : nat :=
  match r with Proj _ => 1%nat | _ => 0%nat end.

(* ===================================================================== *)
(** ** Concrete fighters and states for the examples *)
(* ===================================================================== *)

(** A freshly built fighter of class [k] with its top left corner moved
    to [(x, y)]; at [y = 440] it stands on the ground. *)
Definition fighter_at (k : Archetype) (x y : Z) : Fighter :=
  set_rect (mkRect x y BASE_WIDTH BASE_HEIGHT) (new_fighter k).

(** The same fighter with another weight (the game itself never writes
    [weight] after construction). *)
Definition with_weight (w : Q) (c : Fighter) : Fighter :=
  mkFighter (cls c) (rect c) (vel_x c) (vel_y c) (speed c) (jump_strength c)
    (on_ground c) (facing c) (percent c) w (active_attacks c)
    (last_attack_time c) (attack_cooldown c) (stocks c) (anim_attack c)
    (anim_special c) (current_state c).

(** Two fighters that differ in weight only, both under the floor. *)
Definition featherweight_a : Fighter :=
  with_weight 0.2 (fighter_at Character 500 440).
Definition featherweight_b : Fighter :=
  with_weight 0.4 (fighter_at Character 500 440).

(** A boxer that has not attacked yet. *)
Definition idle_boxer : Fighter := fighter_at Boxer 250 440.

(** A fighter of class [k] that has fallen well below the arena, with
    [st] stocks left. *)
Definition fallen (k : Archetype) (x st : Z) : Fighter :=
  set_stocks st (fighter_at k x 900).

(** Both fighters below the arena on their last stock. *)
Definition double_ko_state : Match :=
  mkMatch (fallen Ninja 250 1) (fallen Tank 750 1) SimpleAI_init [] false
    None.

(** The player below the arena with all three stocks. *)
Definition first_ko_state : Match :=
  mkMatch (fallen Ninja 250 3) (fighter_at Tank 750 440) SimpleAI_init []
    false None.

(** No key pressed, a clock that reads 0, and a generator whose draws all
    fail their tests. *)
Definition quiet_inputs : Inputs :=
  mkInputs (mkKeys false false false false false false)
    (mkClock (fun _ => 0) (fun _ => 0) (fun _ => 0) (fun _ _ => 0))
    (mkRNG (fun _ => 1%Q) (fun _ => 0)).

(** A fighter three units into the ground platform, falling at 2.7 per
    tick; one rising at 5 per tick through the middle platform; and one
    standing under the left platform, overlapping it from below. *)
Definition faller : Fighter :=
  set_vel_y 2.7 (fighter_at Character 500 443).
Definition riser : Fighter :=
  set_vel_y (-5) (fighter_at Character 470 340).
Definition stander : Fighter :=
  set_vel_y 0.9 (fighter_at Character 200 440).

(** A generator that returns the floats [fs] and then 1.0 for ever, and
    [n] for every integer it is asked. *)
Definition rng_of (fs : list Q) (n : Z) : RNG :=
  mkRNG (fun i => nth i fs 1%Q) (fun _ => n).

(** The AI's tank at the right, a mage far to its left and one close to
    its left, and the player's projectile between them, left of the tank
    and level with it. *)
Definition ai_tank : Fighter := fighter_at Tank 500 440.
Definition far_mage : Fighter := fighter_at Mage 100 440.
Definition shot : Projectile := new_projectile 425 470 10 0 Player 9 10 14.

(** Draws: gate passes, dodge passes, no dodge jump, then the range
    block's draws. *)
Definition far_draws : RNG := rng_of [0.1; 0.5; 0.9; 0.1]%Q 0.

(** A priest at 20 percent standing on the ground, the match it is the
    player of, and the inputs of an iteration in which only the special
    key is down and the clock reads 1000. *)
Definition hurt_priest : Fighter :=
  set_percent 20 (fighter_at Priest 218 440).

Definition priest_match : Match :=
  mkMatch hurt_priest (fighter_at Tank 718 440) SimpleAI_init [] false None.

Definition special_key_inputs : Inputs :=
  mkInputs (mkKeys false false false false false true)
    (mkClock (fun _ => 1000) (fun _ => 1000) (fun _ => 1000)
       (fun _ _ => 1000))
    (mkRNG (fun _ => 1%Q) (fun _ => 0)).

(** No sprite files on disk. *)
Definition no_assets : Assets := mkAssets false false None.

(** A ninja against a tank, at the start of the match. *)
Definition ninja_vs_tank : Match :=
  main_game_start Ninja Tank no_assets no_assets.

(** Two fighters standing next to each other, and the inputs of an
    iteration in which only the light-attack key is down. *)
Definition close_match : Match :=
  mkMatch (fighter_at Character 400 440) (fighter_at Tank 470 440)
    SimpleAI_init [] false None.

Definition light_key_inputs : Inputs :=
  mkInputs (mkKeys false false false true false false)
    (mkClock (fun _ => 1000) (fun _ => 1000) (fun _ => 1000)
       (fun _ _ => 1000))
    (mkRNG (fun _ => 1%Q) (fun _ => 0)).

(* ===================================================================== *)
(** ** main.py: the respawn of [check_ko], as a function of the fighter *)
(* ===================================================================== *)

(** What the respawn branch of [check_ko] makes of the fighter it looks
    at: [on_ko()], [percent = 0], [rect.center = (int(spawn_x), ...)],
    [vel = Vector2(0, 0)]. *)
Definition respawned (spawn_x : Q) (ent : Fighter) : Fighter :=
  let ent := on_ko ent in
  let ent := set_percent 0 ent in
  let ent := set_rect (R.set_center (py_int spawn_x)
                         (GROUND_Y - R.height (rect ent) / 2)
                         (rect ent)) ent in
  set_vel_y 0 (set_vel_x 0 ent).

(** The attributes a constructor and [try_load_sprites] set and nothing
    writes afterwards. *)
Definition same_build (c c' : Fighter) : Prop :=
  cls c' = cls c /\ speed c' = speed c /\
  jump_strength c' = jump_strength c /\ weight c' = weight c /\
  attack_cooldown c' = attack_cooldown c /\
  rw (rect c') = rw (rect c) /\ rh (rect c') = rh (rect c) /\
  anim_attack c' = anim_attack c /\ anim_special c' = anim_special c.

(** The ranges the dynamic attributes stay in. *)
Definition in_range (c : Fighter) : Prop :=
  (facing c = 1 \/ facing c = -1) /\ (0 <= percent c)%Q /\
  1 <= stocks c <= 3.

(** The states a match that started in [m0] can be in at the top of the
    loop. *)
Inductive reachable_from (m0 : Match) : Match -> Prop :=
  | from_start : reachable_from m0 m0
  | from_tick inp m : reachable_from m0 m -> reachable_from m0 (tick inp m).

(** Several iterations in a row, one [Inputs] for each. *)
Definition run (inps : list Inputs) (m : Match) : Match :=
  fold_left (fun m inp => tick inp m) inps m.

(** A move intent is one of -1, 0, 1. *)
Definition unit_move (z : Z) : Prop := z = -1 \/ z = 0 \/ z = 1.

(** The AI's tank at 130 percent, and draws for a decision far from the
    target that ends in a retreat: gate passes, no special, retreat
    passes, no jump. *)
Definition hurt_tank : Fighter := set_percent 130 ai_tank.
Definition retreat_draws : RNG := rng_of [0.1; 0.9; 0.3; 0.9]%Q 0.

(** A match in which the AI's timer stands at 20. *)
Definition cooling_match : Match :=
  set_ai (mkAI 20 (mkAction 1 false false false false)) ninja_vs_tank.

(** [r] lies inside [b]. *)
Definition inside (b r : Rect) : Prop :=
  rx b <= rx r /\ rx r + rw r <= rx b + rw b /\
  ry b <= ry r /\ ry r + rh r <= ry b + rh b.

(** The rectangle fighters are clamped to. *)
Definition ARENA : Rect := mkRect (-500) (-500) (WIDTH + 1000) (HEIGHT + 1000).

(** The damage of the hitboxes of [atks] that overlap [target] while
    alive. *)
Definition connecting_damage (atks : list Hitbox) (target : Fighter) : Z :=
  fold_right Z.add 0
    (map hb_damage (filter (fun a => connects a target) atks)).

(** [n] calls of [Projectile.update()]. *)
Definition fly (n : nat) (p : Projectile) : Projectile :=
  Nat.iter n Projectile_update p.

(** The player's mage, the AI's tank and the mage's projectile on its
    way. *)
Definition shot_match : Match :=
  mkMatch far_mage ai_tank SimpleAI_init [shot] false None.

(** What one iteration of the loop does to a fighter that is given no
    input, is not hit and is not KO'd: the statements of the loop body
    that touch it, in order. *)
Definition idle_step (e : Fighter) : Fighter :=
  let e := update_physics GRAVITY e in
  let e := apply_input 0 false e in
  let e := handle_platform_collisions (clamp_to_arena e) in
  let e := integrate e in
  update_animation e.

(** A fighter whose rectangle stands on top of the ground platform,
    overlapping it sideways, at rest vertically and slower than one pixel
    per frame sideways. *)
Definition standing (e : Fighter) : Prop :=
  R.bottom (rect e) = GROUND_Y /\
  0 < rw (rect e) <= 500 /\ 0 < rh (rect e) <= 1000 /\
  - rw (rect e) < rx (rect e) < WIDTH /\
  vel_y e = 0%Q /\ (-1 < vel_x e < 1)%Q.

(** Sprite files for every animation, and the match of a ninja against a
    tank with them; a fighter out of the other's reach that has just
    swung, and the match it is the player of. *)
Definition full_assets : Assets := mkAssets true true None.

Definition animated_match : Match :=
  main_game_start Ninja Tank full_assets full_assets.

Definition swing_match : Match :=
  mkMatch (fst (attack Light Player 1000 (fighter_at Character 100 440)))
    ai_tank SimpleAI_init [] false None.

(* ===================================================================== *)
(** ** Characters.py: [class AnimatedSprite] *)
(* ===================================================================== *)

(** [l[i]] on a Python list: a negative index counts from the end, and an
    index out of range raises [IndexError], which is [None] here. *)
Definition py_getitem {A : Type} (l : list A) (i : Z) : option A :=
  let n := Z.of_nat (length l) in
  if (0 <=? i) && (i <? n) then nth_error l (Z.to_nat i)
  else if (- n <=? i) && (i <? 0) then nth_error l (Z.to_nat (n + i))
  else None.

(** The attributes of an [AnimatedSprite]; [A] is the type of a frame (a
    [pygame.Surface]). *)
Record AnimatedSprite (A : Type) := mkAnimatedSprite {
  spr_frames : list A;
  spr_frame_time : Q;
  spr_loop : bool;
  spr_time : Q;
  spr_index : Z
}.
Arguments mkAnimatedSprite {A}.
Arguments spr_frames {A}.
Arguments spr_frame_time {A}.
Arguments spr_loop {A}.
Arguments spr_time {A}.
Arguments spr_index {A}.

(** [AnimatedSprite(frames, frame_time, loop)]. *)
Definition AnimatedSprite_init {A : Type} (frames : list A) (frame_time : Q)
    (loop : bool) : AnimatedSprite A :=
  mkAnimatedSprite frames frame_time loop 0 0.

(** [update(dt)]. *)
Definition AnimatedSprite_update {A : Type} (dt : Q) (s : AnimatedSprite A)
    : AnimatedSprite A :=
  match spr_frames s with
  | [] => s
  | _ :: _ =>
      let time := (spr_time s + dt)%Q in
      if Qgeb time (spr_frame_time s) then
        let time := (time - spr_frame_time s)%Q in
        let index := spr_index s + 1 in
        let index :=
          if index >=? Z.of_nat (length (spr_frames s)) then
            if spr_loop s then 0
            else Z.of_nat (length (spr_frames s)) - 1
          else index in
        mkAnimatedSprite (spr_frames s) (spr_frame_time s) (spr_loop s)
          time index
      else
        mkAnimatedSprite (spr_frames s) (spr_frame_time s) (spr_loop s)
          time (spr_index s)
  end.

(** What [current()] does: returns a frame, returns [None], or raises
    [IndexError]. *)
Inductive Current (A : Type) :=
  | Frame (a : A)
  | NoFrame
  | IndexError.
Arguments Frame {A}.
Arguments NoFrame {A}.
Arguments IndexError {A}.

Definition AnimatedSprite_current {A : Type} (s : AnimatedSprite A)
    : Current A :=
  match spr_frames s with
  | [] => NoFrame
  | _ :: _ =>
      match py_getitem (spr_frames s) (spr_index s) with
      | Some a => Frame a
      | None => IndexError
      end
  end.

(** A sprite after the calls [update(dt)] for the [dt] of [dts], in
    order. *)
Definition animate {A : Type} (dts : list Q) (s : AnimatedSprite A)
    : AnimatedSprite A :=
  fold_left (fun s dt => AnimatedSprite_update dt s) dts s.

(* ===================================================================== *)
(** ** main.py: [character_selection] *)
(* ===================================================================== *)

Definition CHARACTER_CLASSES : list Archetype :=
  [Ninja; Tank; Mage; Archer; Assassin; Priest; Boxer; Robot; Gunner;
   Brawler].

(** The events the selection screen tells apart: [QUIT], [KEYDOWN] with
    [K_RIGHT], [K_LEFT] or [K_RETURN], and anything else. *)
Inductive Event := EvQuit | EvRight | EvLeft | EvReturn | EvOther.

Definition Event_eqb (a b : Event) : bool :=
  match a, b with
  | EvQuit, EvQuit | EvRight, EvRight | EvLeft, EvLeft
  | EvReturn, EvReturn | EvOther, EvOther => true
  | _, _ => false
  end.

(** How [character_selection] ends: it returns a class, the process
    exits, [choices[idx]] raises, or, the events used up, it is still
    looping with the index it has reached. *)
Inductive Selection :=
  | Chosen (c : Archetype)
  | SysExit
  | SelectionError
  | Waiting (idx : Z).

(** The loop of [character_selection] over the events it is sent; drawing
    apart, a frame does nothing but handle its events in order. *)
Fixpoint selection_loop (idx : Z) (evs : list Event) : Selection :=
  match evs with
  | [] => Waiting idx
  | EvQuit :: _ => SysExit
  | EvRight :: evs =>
      selection_loop ((idx + 1) mod Z.of_nat (length CHARACTER_CLASSES)) evs
  | EvLeft :: evs =>
      selection_loop ((idx - 1) mod Z.of_nat (length CHARACTER_CLASSES)) evs
  | EvReturn :: _ =>
      match py_getitem CHARACTER_CLASSES idx with
      | Some c => Chosen c
      | None => SelectionError
      end
  | EvOther :: evs => selection_loop idx evs
  end.

Definition character_selection (evs : list Event) : Selection :=
  selection_loop 0 evs.

(** How many of [evs] are the event [e]. *)
Definition presses (e : Event) (evs : list Event) : Z :=
  Z.of_nat (length (filter (Event_eqb e) evs)).

(* ===================================================================== *)
(** ** main.py: [class Particle] *)
(* ===================================================================== *)

(** A particle, without its colour. *)
Record Particle := mkParticle {
  pt_pos_x : Q;
  pt_pos_y : Q;
  pt_vel_x : Q;
  pt_vel_y : Q;
  pt_life : Q;
  pt_size : Z;
  pt_age : Q
}.

(** [Particle(pos, vel, color, life, size)]. *)
Definition new_particle (px py vx vy life : Q) (size : Z) : Particle :=
  mkParticle px py vx vy life size 0.

(** [update(dt)]. *)
Definition Particle_update (dt : Q) (p : Particle) : Particle :=
  mkParticle (pt_pos_x p + pt_vel_x p * dt) (pt_pos_y p + pt_vel_y p * dt)
    (pt_vel_x p) (pt_vel_y p) (pt_life p) (pt_size p) (pt_age p + dt).

(** What [draw] does with the particle. *)
Inductive Drawn :=
  | ZeroDivision
  | Skipped
  | Circle (alpha : Z).

(** [draw(surf)] up to its call of [pygame.draw.circle]: the alpha
    component it passes, if it gets that far. *)
Definition Particle_draw (p : Particle) : Drawn :=
  if Qeq_bool (pt_life p) 0 then ZeroDivision
  else
    let alpha := py_max 0 (255 * (1 - pt_age p / pt_life p)) in
    if Qleb alpha 0 then Skipped else Circle (py_int alpha).

(** [for part in particles[:]: part.update(dt);
     if part.age >= part.life: particles.remove(part)]. *)
Definition update_particles (dt : Q) (ps : list Particle) : list Particle :=
  filter (fun p => negb (Qgeb (pt_age p) (pt_life p)))
    (map (Particle_update dt) ps).

(** A particle as the loop keeps it: a positive life and an age from 0 up
    to it. *)
Definition fresh (p : Particle) : Prop :=
  (0 < pt_life p)%Q /\ (0 <= pt_age p)%Q.

(** Only the left key down, and a match in which the player holds it from
    the start for 45 iterations. *)
Definition left_key_inputs : Inputs :=
  mkInputs (mkKeys true false false false false false)
    (mkClock (fun _ => 0) (fun _ => 0) (fun _ => 0) (fun _ _ => 0))
    (mkRNG (fun _ => 1%Q) (fun _ => 0)).

Definition walked_off : Match :=
  run (repeat left_key_inputs 45) ninja_vs_tank.

(* ===================================================================== *)
(** ** main.py: one iteration, stage by stage *)
(* ===================================================================== *)

(** The two turns as [act] runs them, and the action each fighter is
    given: the keys for the player, the AI's decision for the enemy. *)
Definition player_turn (inp : Inputs) (m : Match)
    : Fighter * list Projectile :=
  fighter_turn Player (clock inp) (keys_action (keys inp)) (player m)
    (projectiles m).

Definition ai_action_of (inp : Inputs) (m : Match) : Action :=
  fst (evalState
         (decide Enemy (enemy m) (fst (player_turn inp m))
            (snd (player_turn inp m)) (SimpleAI_update (ai m)))
         (rng inp)).

Definition enemy_turn (inp : Inputs) (m : Match)
    : Fighter * list Projectile :=
  fighter_turn Enemy (clock inp) (ai_action_of inp m) (enemy m)
    (snd (player_turn inp m)).

Definition requested (s : Side) (inp : Inputs) (m : Match) : Action :=
  match s with
  | Player => keys_action (keys inp)
  | Enemy => ai_action_of inp m
  end.

(** Fighter [s] after its physics, input and attacks, before the clamp
    and the platforms. *)
Definition moved (s : Side) (inp : Inputs) (m : Match) : Fighter :=
  match s with
  | Player => fst (player_turn inp m)
  | Enemy => fst (enemy_turn inp m)
  end.

(** The match when the iteration reaches its two calls of [check_ko]. *)
Definition before_ko (inp : Inputs) (m : Match) : Match :=
  apply_movement
    (resolve_projectiles (resolve_hitboxes (clock inp) (act inp m))).

(** The second argument of the call [check_ko(ent, spawn_x)] for each
    fighter. *)
Definition spawn_x (s : Side) : Q :=
  match s with
  | Player => inject_Z WIDTH * 0.25
  | Enemy => inject_Z WIDTH * 0.75
  end.

(** Whether some platform of the stage passes the landing test on
    [entity]. *)
Definition lands_somewhere (entity : Fighter) : bool :=
  existsb (lands_on entity) PLATFORMS.

(** ** Matches played out for the examples *)

(** Only the up key down. *)
Definition up_key_inputs : Inputs :=
  mkInputs (mkKeys false false true false false false)
    (mkClock (fun _ => 0) (fun _ => 0) (fun _ => 0) (fun _ _ => 0))
    (mkRNG (fun _ => 1%Q) (fun _ => 0)).

(** A priest that starts under the left platform and holds the up key for
    [n] iterations. *)
Definition LEFT_PLATFORM : Rect := mkRect 150 (GROUND_Y - 90) 200 20.

Definition priest_jump (n : nat) : Match :=
  run (repeat up_key_inputs n)
    (main_game_start Priest Tank no_assets no_assets).




(** A mage that fires its special at the start (the clock at 1000) and
    then waits: the state fourteen iterations later, the projectile about
    to reach the tank. *)
Definition before_impact : Match :=
  run (special_key_inputs :: repeat quiet_inputs 14)
    (main_game_start Mage Tank no_assets no_assets).

(** A ninja that waits twenty iterations while the AI's tank walks up to
    it. *)
Definition before_swing : Match :=
  run (repeat quiet_inputs 20) ninja_vs_tank.

(* ===================================================================== *)
(** * Properties *)
(* ===================================================================== *)

(** ** Comparisons and [max] on rationals *)

Lemma Qltb_lt (a b : Q) : Qltb a b = true <-> (a < b)%Q.
Proof.
  unfold Qltb. rewrite negb_true_iff. split; intros H.
  - apply Qnot_le_lt. intros C. apply Qle_bool_iff in C. congruence.
  - destruct (Qle_bool b a) eqn:E; [|reflexivity].
    apply Qle_bool_iff in E. exfalso. apply (Qlt_not_le _ _ H E).
Qed.

Lemma Qltb_ge (a b : Q) : Qltb a b = false <-> (b <= a)%Q.
Proof.
  unfold Qltb. rewrite negb_false_iff. apply Qle_bool_iff.
Qed.

Lemma Qgtb_gt (a b : Q) : Qgtb a b = true <-> (b < a)%Q.
Proof. apply Qltb_lt. Qed.

Lemma Qgeb_ge (a b : Q) : Qgeb a b = true <-> (b <= a)%Q.
Proof. apply Qle_bool_iff. Qed.

Lemma Qleb_le (a b : Q) : Qleb a b = true <-> (a <= b)%Q.
Proof. apply Qle_bool_iff. Qed.

Lemma py_max_right (a b : Q) : (a < b)%Q -> py_max a b = b.
Proof.
  intros H. unfold py_max. apply Qgtb_gt in H. now rewrite H.
Qed.

Lemma py_max_left (a b : Q) : (b <= a)%Q -> py_max a b = a.
Proof.
  intros H. unfold py_max, Qgtb. apply Qltb_ge in H. now rewrite H.
Qed.

Lemma py_max_ge_left (a b : Q) : (a <= py_max a b)%Q.
Proof.
  destruct (Qlt_le_dec a b) as [H|H].
  - rewrite (py_max_right _ _ H). now apply Qlt_le_weak.
  - rewrite (py_max_left _ _ H). apply Qle_refl.
Qed.

Lemma py_max_ge_right (a b : Q) : (b <= py_max a b)%Q.
Proof.
  destruct (Qlt_le_dec a b) as [H|H].
  - rewrite (py_max_right _ _ H). apply Qle_refl.
  - now rewrite (py_max_left _ _ H).
Qed.

(* ===================================================================== *)
(** ** [receive_hit]: damage and knockback *)
(* ===================================================================== *)

Lemma receive_hit_percent d b src c :
  percent (receive_hit d b src c) = (percent c + d)%Q.
Proof. reflexivity. Qed.

Lemma receive_hit_vel_x d b src c :
  vel_x (receive_hit d b src c) =
  (vel_x c + kb_force b (percent c + d) (weight c) *
             inject_Z (hit_direction c (R.centerx (rect src))))%Q.
Proof. reflexivity. Qed.

Lemma receive_hit_vel_y d b src c :
  vel_y (receive_hit d b src c) =
  (vel_y c - kb_force b (percent c + d) (weight c) * 0.6)%Q.
Proof. reflexivity. Qed.





(** Above the floor the divisor is the weight itself. *)
Lemma kb_force_heavy b p w :
  (0.5 <= w)%Q -> (kb_force b p w == b * (1 + p * 0.01) / w)%Q.
Proof.
  intros H. unfold kb_force.
  destruct (Qlt_le_dec 0.5 w) as [L|L].
  - rewrite (py_max_right _ _ L). field. lra.
  - rewrite (py_max_left _ _ L). assert (E : (w == 0.5)%Q) by lra.
    rewrite E. field.
Qed.

(** At or below the floor the divisor is [0.5]. *)
Lemma kb_force_light b p w :
  (w <= 0.5)%Q -> (kb_force b p w == b * (1 + p * 0.01) * 2)%Q.
Proof.
  intros H. unfold kb_force. rewrite (py_max_left _ _ H). field.
Qed.


(** [C1], as amended.  With weight 1.0 and percent 0, a hit of base
    knockback 10 from a source whose centre lies strictly to the left adds
    [10 * (1 + damage/100)] to the horizontal velocity and takes
    [6 * (1 + damage/100)] off the vertical velocity, because the damage is
    added to percent before the impulse is computed; percent becomes the
    hit's damage. *)
Theorem receive_hit_scenario (A B : Fighter) (damage : Q) :
  (weight A == 1)%Q ->
  (percent A == 0)%Q ->
  R.centerx (rect B) < R.centerx (rect A) ->
  let A' := receive_hit damage 10 B A in
  (vel_x A' == vel_x A + 10 * (1 + damage / 100))%Q /\
  (vel_y A' == vel_y A - 6 * (1 + damage / 100))%Q /\
  (percent A' == damage)%Q.
Proof.
  intros Hw Hp Hc A'. subst A'.
  rewrite receive_hit_vel_x, receive_hit_vel_y, receive_hit_percent.
  assert (K : (kb_force 10 (percent A + damage) (weight A)
               == 10 * (1 + damage / 100))%Q).
  { rewrite kb_force_heavy by lra. rewrite Hw, Hp. field. }
  unfold hit_direction.
  destruct (Z.gtb_spec (R.centerx (rect A)) (R.centerx (rect B))); [|lia].
  rewrite K, Hp. repeat split; try field. 
Qed.

Lemma receive_hit_scenario_witness :
  let A := fighter_at Character 500 440 in
  let B := fighter_at Character 100 440 in
  let A' := receive_hit 6 10 B A in
  (vel_x A' == vel_x A + 10 * (1 + 6 / 100))%Q /\
  (vel_y A' == vel_y A - 6 * (1 + 6 / 100))%Q /\
  (percent A' == 6)%Q.
Proof.
  apply (receive_hit_scenario (fighter_at Character 500 440)
           (fighter_at Character 100 440) 6);
    [reflexivity | reflexivity | vm_compute; reflexivity].
Defined.

(** [C1] as stated fails: a hit of damage 6 on such a fighter adds 10.6,
    not 10, to its horizontal velocity, and takes 6.36, not 6, off its
    vertical velocity. *)
Lemma receive_hit_scenario_counterexample :
  let A := fighter_at Character 500 440 in
  let B := fighter_at Character 100 440 in
  let A' := receive_hit 6 10 B A in
  (weight A == 1)%Q /\ (percent A == 0)%Q /\
  R.centerx (rect B) < R.centerx (rect A) /\
  (vel_x A' == vel_x A + 10.6)%Q /\ ~ (vel_x A' == vel_x A + 10)%Q /\
  (vel_y A' == vel_y A - 6.36)%Q /\ ~ (vel_y A' == vel_y A - 6)%Q.
Proof.
  vm_compute. repeat split; try reflexivity; discriminate.
Qed.






Lemma kb_force_floor b p w1 w2 :
  (w1 <= 0.5)%Q -> (w2 <= 0.5)%Q -> (kb_force b p w1 == kb_force b p w2)%Q.
Proof.
  intros H1 H2. now rewrite !kb_force_light.
Qed.




(** Under the floor of [max(0.5, weight)] the impulse would not depend on
    the weight: two fighters of weight 0.2 and 0.4 would take the same
    impulse from the same hit.  No constructor makes a fighter that
    light. *)
Remark weight_floor_is_flat :
  let src := fighter_at Character 100 440 in
  (weight featherweight_a < weight featherweight_b)%Q /\
  (vel_x (receive_hit 6 10 src featherweight_a)
   == vel_x (receive_hit 6 10 src featherweight_b))%Q /\
  ~ (kb_force 10 6 (weight featherweight_b)
     < kb_force 10 6 (weight featherweight_a))%Q.
Proof.
  vm_compute. repeat split; try reflexivity. discriminate.
Qed.

(* ===================================================================== *)
(** ** Attack variants: cooldown gate and frame conditions *)
(* ===================================================================== *)

Ltac unfold_attacks :=
  unfold attack, light_attack, heavy_attack, special_attack,
    Character_light_attack, Character_heavy_attack, Character_special_attack,
    Ninja_special_attack, Tank_light_attack, Tank_special_attack,
    Mage_special_attack, Archer_special_attack, Assassin_light_attack,
    Assassin_special_attack, Priest_special_attack, Boxer_light_attack,
    Boxer_special_attack, Robot_light_attack, Robot_special_attack,
    Gunner_light_attack, Gunner_special_attack, Brawler_heavy_attack,
    Brawler_special_attack in *.

Ltac split_ifs :=
  repeat match goal with
  | |- context [if ?b then _ else _] => destruct b
  end.

(** Inside its window every variant of every class is a no-op. *)
Lemma attack_on_cooldown v s now c :
  now - last_attack_time c < cooldown_window v c ->
  attack v s now c = (c, NoAction).
Proof.
  intros H. unfold cooldown_window in H. unfold_attacks.
  destruct v, (cls c); apply Z.ltb_lt in H; rewrite H; reflexivity.
Qed.

(** Outside it the call acts and stamps the time; class and base cooldown
    are never touched. *)
Lemma attack_off_cooldown v s now c :
  cooldown_window v c <= now - last_attack_time c ->
  snd (attack v s now c) <> NoAction /\
  last_attack_time (fst (attack v s now c)) = now /\
  cls (fst (attack v s now c)) = cls c /\
  attack_cooldown (fst (attack v s now c)) = attack_cooldown c.
Proof.
  intros H. unfold cooldown_window in H. unfold_attacks.
  destruct v, (cls c) eqn:E; apply Z.ltb_ge in H; rewrite H;
    unfold trigger_attack_anim, trigger_special_anim; cbn;
    split_ifs; cbn; repeat split; try discriminate; assumption.
Qed.

(** What one successful call produces. *)
Lemma attack_appends v s now c :
  cooldown_window v c <= now - last_attack_time c ->
  exists new,
    active_attacks (fst (attack v s now c)) = active_attacks c ++ new /\
    (length new + spawned (snd (attack v s now c)))%nat =
    match v, cls c with
    | Light, Boxer => 3%nat
    | SpecialV, Priest => 0%nat
    | _, _ => 1%nat
    end.
Proof.
  intros H. unfold cooldown_window in H. unfold_attacks.
  destruct v, (cls c) eqn:E; apply Z.ltb_ge in H; rewrite H;
    unfold trigger_attack_anim, trigger_special_anim; cbn;
    split_ifs; cbn;
    first [ exists []; split; [now rewrite app_nil_r | reflexivity]
          | rewrite <- ?app_assoc; eexists; split; reflexivity ].
Qed.

(** The hitboxes and projectiles an attack makes have a positive
    knockback and a positive damage, whatever the class and the variant. *)
Lemma attack_pushes v s now c :
  (exists new,
     active_attacks (fst (attack v s now c)) = active_attacks c ++ new /\
     Forall (fun h => 0 < hb_knockback h /\ 0 < hb_damage h) new) /\
  (forall p, snd (attack v s now c) = Proj p ->
             0 < p_knockback p /\ 0 < p_damage p).
Proof.
  unfold_attacks.
  destruct v, (cls c) eqn:E;
    unfold trigger_attack_anim, trigger_special_anim; cbn;
    split_ifs; cbn.
  all: split;
    [|intros p Hp; try discriminate; injection Hp as <-; cbn; lia].
  all: first [ exists []; split; [now rewrite app_nil_r | apply Forall_nil]
             | rewrite <- ?app_assoc; eexists; split; [reflexivity|];
               repeat (apply Forall_cons; [cbn; lia|]); apply Forall_nil ].
Qed.

(** [C7], as amended.  When a call of a variant succeeds at [now1] and the
    same variant is called again at [now2] inside its cooldown window, the
    second call returns the no-action value and leaves the fighter as the
    first call left it, so the two calls together produce what the one
    successful call produces: three hitboxes for the boxer's light attack,
    nothing for the priest's special, and one hitbox or one projectile for
    every other variant. *)
Theorem attack_twice_in_window (v : Variant) (s : Side) (now1 now2 : Z)
    (c : Fighter) :
  cooldown_window v c <= now1 - last_attack_time c ->
  now2 - now1 < cooldown_window v c ->
  let r1 := attack v s now1 c in
  let r2 := attack v s now2 (fst r1) in
  snd r1 <> NoAction /\
  r2 = (fst r1, NoAction) /\
  exists new,
    active_attacks (fst r2) = active_attacks c ++ new /\
    (length new + spawned (snd r1) + spawned (snd r2))%nat =
    match v, cls c with
    | Light, Boxer => 3%nat
    | SpecialV, Priest => 0%nat
    | _, _ => 1%nat
    end.
Proof.
  intros H1 H2 r1 r2.
  destruct (attack_off_cooldown v s now1 c H1) as (Hr & Ht & Hk & Hc).
  assert (W : cooldown_window v (fst r1) = cooldown_window v c).
  { unfold cooldown_window. subst r1. now rewrite Hk, Hc. }
  assert (E : r2 = (fst r1, NoAction)).
  { subst r2. apply attack_on_cooldown. subst r1. rewrite Ht, W. exact H2. }
  split; [exact Hr|]. split; [exact E|].
  destruct (attack_appends v s now1 c H1) as (new & Ha & Hn).
  exists new. rewrite E. cbn [fst snd spawned]. split; [exact Ha|].
  subst r1. rewrite Nat.add_0_r. exact Hn.
Qed.

Lemma attack_twice_in_window_witness :
  let r1 := attack SpecialV Enemy 1000 (fighter_at Mage 750 440) in
  let r2 := attack SpecialV Enemy 1200 (fst r1) in
  snd r1 <> NoAction /\
  r2 = (fst r1, NoAction) /\
  exists new,
    active_attacks (fst r2) = [] ++ new /\
    (length new + spawned (snd r1) + spawned (snd r2))%nat = 1%nat.
Proof.
  apply (attack_twice_in_window SpecialV Enemy 1000 1200
           (fighter_at Mage 750 440)); vm_compute; congruence.
Defined.

(** [C7] as stated fails: a boxer's light attack called twice within its
    window leaves three hitboxes, not exactly one. *)
Lemma attack_twice_counterexample :
  let r1 := attack Light Player 1000 idle_boxer in
  let r2 := attack Light Player 1050 (fst r1) in
  active_attacks idle_boxer = [] /\
  1050 - 1000 < cooldown_window Light idle_boxer /\
  snd r2 = NoAction /\
  length (active_attacks (fst r2)) = 3%nat /\
  spawned (snd r1) = 0%nat.
Proof.
  vm_compute. repeat split; reflexivity.
Qed.

(** [C10].  A successful special attack of a ninja or an assassin moves the
    rectangle horizontally by 60 (ninja) or 80 (assassin) times [facing],
    inside the attack call; it returns the melee marker, leaves both
    velocity components alone, and changes nothing but the rectangle's
    [x], [last_attack_time], [active_attacks] (one hitbox appended) and
    [current_state]. *)
Theorem dash_special_frame (s : Side) (now : Z) (c : Fighter) :
  cls c = Ninja \/ cls c = Assassin ->
  cooldown_window SpecialV c <= now - last_attack_time c ->
  let dash := match cls c with Ninja => 60 | _ => 80 end in
  let c1 := fst (special_attack s now c) in
  snd (special_attack s now c) = Melee /\
  rect c1 = R.move_x (dash * facing c) (rect c) /\
  rx (rect c1) = rx (rect c) + dash * facing c /\
  vel_x c1 = vel_x c /\ vel_y c1 = vel_y c /\
  exists h,
    c1 = mkFighter (cls c) (R.move_x (dash * facing c) (rect c))
           (vel_x c) (vel_y c) (speed c) (jump_strength c) (on_ground c)
           (facing c) (percent c) (weight c) (active_attacks c ++ [h])
           now (attack_cooldown c) (stocks c) (anim_attack c)
           (anim_special c)
           (if anim_special c then Special else current_state c).
Proof.
  intros K H.
  destruct c as [k r vx vy sp js og fc pc wt aa lt cd st a1 a2 cs].
  unfold cooldown_window in H. unfold_attacks. simpl in *.
  destruct K; subst k; apply Z.ltb_ge in H; rewrite H;
    unfold trigger_special_anim, append_attack; simpl;
    destruct a2; simpl; repeat split; eexists; reflexivity.
Qed.

Lemma dash_special_frame_witness :
  let c := fighter_at Ninja 250 440 in
  let c1 := fst (special_attack Player 1000 c) in
  snd (special_attack Player 1000 c) = Melee /\
  rect c1 = R.move_x (60 * 1) (rect c) /\
  rx (rect c1) = 250 + 60 * 1 /\
  vel_x c1 = vel_x c /\ vel_y c1 = vel_y c /\
  exists h,
    c1 = mkFighter Ninja (R.move_x (60 * 1) (rect c))
           (vel_x c) (vel_y c) (speed c) (jump_strength c) (on_ground c)
           (facing c) (percent c) (weight c) ([] ++ [h])
           1000 (attack_cooldown c) (stocks c) (anim_attack c)
           (anim_special c) Idle.
Proof.
  apply (dash_special_frame Player 1000 (fighter_at Ninja 250 440));
    [left; reflexivity | vm_compute; discriminate].
Defined.

(* ===================================================================== *)
(** ** Stock / KO lifecycle *)
(* ===================================================================== *)

Lemma fighter_set_same s f m : fighter s (set_fighter s f m) = f.
Proof. now destruct s. Qed.

Lemma fighter_set_other s f m :
  fighter (other s) (set_fighter s f m) = fighter (other s) m.
Proof. now destruct s. Qed.

Lemma check_ko_in_bounds s x m :
  out_of_bounds (rect (fighter s m)) = false -> check_ko s x m = m.
Proof. intros H. unfold check_ko. now rewrite H. Qed.

Lemma check_ko_last_stock s x m :
  out_of_bounds (rect (fighter s m)) = true ->
  stocks (fighter s m) <= 1 ->
  check_ko s x m = end_match (other s) m.
Proof.
  intros H L. unfold check_ko. rewrite H.
  apply Z.leb_le in L. now rewrite L.
Qed.

Lemma check_ko_respawn s x m :
  out_of_bounds (rect (fighter s m)) = true ->
  1 < stocks (fighter s m) ->
  check_ko s x m =
  set_fighter s
    (set_vel_y 0 (set_vel_x 0
       (set_rect (rect (reset_position x (fighter s m)))
          (set_percent 0 (on_ko (fighter s m)))))) m.
Proof.
  intros H L. unfold check_ko. rewrite H.
  destruct (Z.leb_spec (stocks (fighter s m)) 1); [lia|].
  assert (E : rect (set_percent 0 (on_ko (fighter s m))) = rect (fighter s m)).
  { unfold on_ko. cbn. now destruct (stocks (fighter s m) - 1 <=? 0). }
  rewrite E. reflexivity.
Qed.

(** One call of [check_ko] on a fighter that is out of bounds: with at
    most one stock the call ends the match, names the other fighter as
    winner and touches neither fighter; with three stocks it puts the
    fighter back where [reset_positions] puts it, with zero velocity,
    percent 0 and two stocks, and leaves the match flags alone. *)
Lemma check_ko_call (s : Side) (spawn_x : Q) (m : Match) :
  out_of_bounds (rect (fighter s m)) = true ->
  let m' := check_ko s spawn_x m in
  (stocks (fighter s m) <= 1 ->
     game_over m' = true /\ winner m' = Some (other s) /\
     player m' = player m /\ enemy m' = enemy m) /\
  (stocks (fighter s m) = 3 ->
     stocks (fighter s m') = 2 /\
     percent (fighter s m') = 0%Q /\
     vel_x (fighter s m') = 0%Q /\ vel_y (fighter s m') = 0%Q /\
     rect (fighter s m') = rect (reset_position spawn_x (fighter s m)) /\
     R.centerx (rect (fighter s m')) = py_int spawn_x /\
     fighter (other s) m' = fighter (other s) m /\
     game_over m' = game_over m /\ winner m' = winner m).
Proof.
  intros H m'. split; intros L; subst m'.
  - rewrite check_ko_last_stock by assumption. now repeat split.
  - rewrite check_ko_respawn by (assumption || lia).
    rewrite fighter_set_same, fighter_set_other.
    unfold on_ko. cbn. rewrite L. cbn.
    repeat split; try (now destruct s).
    unfold R.centerx, R.set_center. cbn. lia.
Qed.

(** The match-ending branch on a concrete state: the player falls with
    one stock left. *)
Example check_ko_last_stock_run :
  let m := mkMatch (fallen Ninja 250 1) (fighter_at Tank 750 440)
             SimpleAI_init [] false None in
  check_ko Player (inject_Z WIDTH * 0.25) m = end_match Enemy m.
Proof. reflexivity. Qed.

(** Once the match is over an iteration changes nothing. *)
Lemma tick_game_over inp m : game_over m = true -> tick inp m = m.
Proof. intros H. unfold tick. now rewrite H. Qed.

Lemma check_ko_game_over_stays s x m :
  game_over m = true -> game_over (check_ko s x m) = true.
Proof.
  intros H. unfold check_ko.
  destruct (out_of_bounds _); [|assumption].
  destruct (_ <=? 1); [reflexivity|]. now destruct s.
Qed.

(** [C9] fails on the code.  From a state in which both fighters are out
    of bounds on their last stock, [check_ko(player, ...)] ends the match
    with the enemy as winner, and [check_ko(enemy, ...)], which runs next
    in the same iteration, replaces the winner by the player; the iteration
    as a whole ends with the player as winner. *)
Theorem double_ko_overwrites_winner :
  let m0 := double_ko_state in
  let m1 := check_ko Player (inject_Z WIDTH * 0.25) m0 in
  let m2 := check_ko Enemy (inject_Z WIDTH * 0.75) m1 in
  (game_over m0 = false /\ winner m0 = None) /\
  (game_over m1 = true /\ winner m1 = Some Enemy) /\
  (game_over m2 = true /\ winner m2 = Some Player) /\
  winner (tick quiet_inputs double_ko_state) = Some Player.
Proof. vm_compute. repeat split; reflexivity. Qed.

(* ===================================================================== *)
(** ** Platform collisions *)
(* ===================================================================== *)

Lemma lands_on_iff entity plat :
  lands_on entity plat = true <->
  R.colliderect (rect entity) plat = true /\
  (0 <= vel_y entity)%Q /\
  (inject_Z (R.bottom (rect entity)) - vel_y entity
   <= inject_Z (R.top plat + 6))%Q.
Proof.
  unfold lands_on. rewrite !andb_true_iff, Qgeb_ge, Qleb_le. tauto.
Qed.

Lemma land_spec entity plat :
  R.bottom (rect (land entity plat)) = R.top plat /\
  vel_y (land entity plat) = 0%Q /\
  on_ground (land entity plat) = true.
Proof.
  unfold land, R.bottom, R.set_bottom. cbn. repeat split. lia.
Qed.

Lemma platform_step_on_ground entity plat :
  on_ground (platform_step entity plat)
  = lands_on entity plat || on_ground entity.
Proof.
  unfold platform_step. destruct (lands_on entity plat); reflexivity.
Qed.

(** The flag after the loop: set exactly when some platform's test
    succeeded on the state the loop had reached by then. *)
Lemma loop_on_ground plats : forall e0,
  on_ground (fold_left platform_step plats e0) = true <->
  on_ground e0 = true \/
  exists pre plat post,
    plats = pre ++ plat :: post /\
    lands_on (fold_left platform_step pre e0) plat = true.
Proof.
  induction plats as [|p plats IH]; intros e0; cbn [fold_left].
  - split; [tauto|]. intros [H|(pre & plat & post & E & _)]; [exact H|].
    now destruct pre.
  - rewrite IH, platform_step_on_ground, orb_true_iff. split.
    + intros [[H|H]|(pre & plat & post & E & L)].
      * right. exists [], p, plats. now split.
      * now left.
      * right. exists (p :: pre), plat, post. split; [now rewrite E|exact L].
    + intros [H|(pre & plat & post & E & L)]; [now left; right|].
      destruct pre as [|q pre]; cbn in E; injection E as -> ->.
      * left. now left.
      * right. now exists pre, plat, post.
Qed.

Lemma loop_no_landing plats : forall e0,
  (forall p, In p plats -> lands_on e0 p = false) ->
  fold_left platform_step plats e0 = e0.
Proof.
  induction plats as [|p plats IH]; intros e0 H; cbn [fold_left];
    [reflexivity|].
  unfold platform_step at 2. rewrite (H p) by now left.
  apply IH. intros q Hq. apply H. now right.
Qed.

(** A grounded fighter is a fighter at rest vertically, all through the
    loop. *)
Lemma loop_grounded_at_rest plats : forall e0,
  (on_ground e0 = true -> vel_y e0 = 0%Q) ->
  on_ground (fold_left platform_step plats e0) = true ->
  vel_y (fold_left platform_step plats e0) = 0%Q.
Proof.
  induction plats as [|p plats IH]; intros e0 H; cbn [fold_left];
    [exact H|].
  apply IH. unfold platform_step.
  destruct (lands_on e0 p); [intros _; apply land_spec | exact H].
Qed.

(** One platform, and the loop over any list of platforms.  The loop
    starts from [on_ground = False].  On each platform a landing happens
    exactly when the rectangle overlaps the platform, the vertical velocity
    is non-negative and the bottom edge less the vertical velocity is at
    most the platform's top plus 6; a landing puts the bottom on the
    platform's top, zeroes the vertical velocity and sets [on_ground];
    without it the step changes nothing.  After the loop [on_ground] holds
    exactly when one of the steps landed, and then the vertical velocity
    is 0. *)
Lemma platform_loop_landing (entity : Fighter) (plat : Rect)
    (plats : list Rect) :
  on_ground (set_on_ground false entity) = false /\
  handle_platform_collisions_on plats entity
    = fold_left platform_step plats (set_on_ground false entity) /\
  (lands_on entity plat = true <->
     R.colliderect (rect entity) plat = true /\
     (0 <= vel_y entity)%Q /\
     (inject_Z (R.bottom (rect entity)) - vel_y entity
      <= inject_Z (R.top plat + 6))%Q) /\
  (lands_on entity plat = true ->
     platform_step entity plat = land entity plat /\
     R.bottom (rect (platform_step entity plat)) = R.top plat /\
     vel_y (platform_step entity plat) = 0%Q /\
     on_ground (platform_step entity plat) = true) /\
  (lands_on entity plat = false -> platform_step entity plat = entity) /\
  (on_ground (handle_platform_collisions_on plats entity) = true <->
     exists pre p post,
       plats = pre ++ p :: post /\
       lands_on (fold_left platform_step pre (set_on_ground false entity)) p
       = true) /\
  (on_ground (handle_platform_collisions_on plats entity) = true ->
     vel_y (handle_platform_collisions_on plats entity) = 0%Q) /\
  ((vel_y entity < 0)%Q ->
     handle_platform_collisions_on plats entity
     = set_on_ground false entity) /\
  ((forall p, In p plats ->
      (inject_Z (R.top p + 6)
       < inject_Z (R.bottom (rect entity)) - vel_y entity)%Q) ->
     handle_platform_collisions_on plats entity
     = set_on_ground false entity).
Proof.
  unfold handle_platform_collisions_on.
  split; [reflexivity|]. split; [reflexivity|].
  split; [apply lands_on_iff|].
  split; [|split; [|split; [|split; [|split]]]].
  - intros L. unfold platform_step. rewrite L. split; [reflexivity|].
    apply land_spec.
  - intros L. unfold platform_step. now rewrite L.
  - rewrite loop_on_ground. cbn [on_ground set_on_ground].
    split; [intros [H|H]; [discriminate|exact H] | now right].
  - apply loop_grounded_at_rest. discriminate.
  - intros V. apply loop_no_landing. intros p _.
    destruct (lands_on _ p) eqn:L; [|reflexivity].
    apply lands_on_iff in L. cbn in L. lra.
  - intros V. apply loop_no_landing. intros p Hp.
    destruct (lands_on _ p) eqn:L; [|reflexivity].
    apply lands_on_iff in L. cbn in L. specialize (V p Hp). lra.
Qed.

(** The three approaches on the stage of the game: from above onto the
    ground, from below through the middle platform, and from the
    underside of the left platform. *)
Example stage_landing_runs :
  (let e := handle_platform_collisions faller in
   on_ground e = true /\ vel_y e = 0%Q /\ R.bottom (rect e) = GROUND_Y) /\
  (R.colliderect (rect riser) (mkRect 400 370 200 20) = true /\
   handle_platform_collisions riser = set_on_ground false riser) /\
  (R.colliderect (rect stander) (mkRect 150 430 200 20) = true /\
   handle_platform_collisions stander = set_on_ground false stander).
Proof. vm_compute. repeat split; reflexivity. Qed.

(* ===================================================================== *)
(** ** Decision engine *)
(* ===================================================================== *)

(** When the dodge loop breaks, it does so on the first projectile, in
    list order, that passes the range test and whose 60% draw succeeds;
    every earlier projectile in range has used up one failed draw. *)
Lemma dodge_loop_some self char ps : forall g mv j g',
  runState (dodge_loop self char ps) g = (Some (mv, j), g') ->
  exists pre p post,
    ps = pre ++ p :: post /\
    threatens self char p = true /\
    mv = evade char p /\
    let k := length (filter (threatens self char) pre) in
    (forall i, (i < k)%nat -> (0.6 <= floats g i)%Q) /\
    (floats g k < 0.6)%Q /\
    j = Qltb (floats g (S k)) 0.4 /\
    g' = skip_floats (S (S k)) g.
Proof.
  induction ps as [|p ps IH]; intros g mv j g' H; cbn in H; [discriminate|].
  destruct (threatens self char p) eqn:T.
  - cbn in H. destruct (Qltb (floats g 0%nat) 0.6) eqn:D; cbn in H.
    + injection H as <- <- <-. exists [], p, ps. cbn.
      repeat split; try assumption; try lia. now apply Qltb_lt.
    + apply IH in H. destruct H as (pre & q & post & -> & Tq & -> & K).
      exists (p :: pre), q, post. cbn [filter app length]. rewrite T.
      cbn [length]. cbn in K. destruct K as (K1 & K2 & K3 & K4).
      split; [reflexivity|]. split; [exact Tq|]. split; [reflexivity|].
      cbn zeta. split; [|split; [exact K2|split; [exact K3|exact K4]]].
      intros [|i] Hi; [now apply Qltb_ge|]. apply K1. lia.
  - apply IH in H. destruct H as (pre & q & post & -> & Tq & -> & K).
    exists (p :: pre), q, post. cbn [filter app]. rewrite T.
    split; [reflexivity|]. split; [exact Tq|]. split; [reflexivity|exact K].
Qed.

(** The move the dodge picks is to the left when the projectile's centre
    is strictly left of the fighter's, to the right otherwise. *)
Lemma evade_direction char p :
  (R.centerx (p_rect p) < R.centerx (rect char) -> evade char p = -1) /\
  (R.centerx (rect char) <= R.centerx (p_rect p) -> evade char p = 1).
Proof.
  unfold evade.
  destruct (Z.ltb_spec (R.centerx (p_rect p)) (R.centerx (rect char)));
    split; intros; (reflexivity || lia).
Qed.

(** [decide_now], one statement after the other. *)
Lemma decide_now_run self char target ps g :
  runState (decide_now self char target ps) g =
  let dist_x := R.centerx (rect target) - R.centerx (rect char) in
  let c := 15 + ints g 0%nat mod 26 in
  let (d, g2) := runState (dodge_loop self char ps)
                   (mkRNG (floats g) (fun n => ints g (S n))) in
  let a0 := match d with
            | Some (mv, j) => mkAction mv j false false false
            | None => mkAction 0 false false false false
            end in
  let c := match d with Some _ => c + 10 | None => c end in
  let (a1, g3) := runState (range_behavior dist_x a0) g2 in
  let (a2, g4) := runState (retreat_override char dist_x a1) g3 in
  ((a2, mkAI c a2), g4).
Proof.
  unfold decide_now. cbn.
  destruct (runState (dodge_loop self char ps) _) as [[[mv j]|] g2]; cbn;
  destruct (runState (range_behavior _ _) g2) as [a1 g3]; cbn;
  destruct (runState (retreat_override _ _ a1) g3) as [a2 g4]; reflexivity.
Qed.

Lemma decide_gate_open self char target ps ai0 g :
  cool ai0 <= 0 -> (floats g 0%nat < 0.18)%Q ->
  runState (decide self char target ps ai0) g =
  runState (decide_now self char target ps) (skip_floats 1 g).
Proof.
  intros C D. unfold decide. apply Z.leb_le in C. apply Qltb_lt in D.
  cbn. rewrite C. cbn. rewrite D. reflexivity.
Qed.

Lemma decide_gate_shut self char target ps ai0 g :
  0 < cool ai0 \/ (0.18 <= floats g 0%nat)%Q ->
  fst (runState (decide self char target ps ai0) g) =
  fst (runState (decide_default char target ai0)
         (if cool ai0 <=? 0 then skip_floats 1 g else g)).
Proof.
  intros H. unfold decide. cbn.
  destruct (Z.leb_spec (cool ai0) 0) as [L|L]; cbn.
  - destruct H as [H|H]; [lia|]. apply Qltb_ge in H. rewrite H. reflexivity.
  - reflexivity.
Qed.

(** The range block sets the move beyond 120 units and keeps it within. *)
Lemma range_behavior_move dist_x a g :
  move (fst (runState (range_behavior dist_x a) g)) =
  if Z.abs dist_x >? 120 then (if dist_x >? 0 then 1 else -1) else move a.
Proof.
  unfold range_behavior.
  destruct (Z.gtb_spec (Z.abs dist_x) 220) as [F|F].
  - destruct (Z.gtb_spec (Z.abs dist_x) 120); [reflexivity|lia].
  - destruct (Z.abs dist_x >? 120); cbn.
    + destruct (Qltb (floats g 0%nat) 0.35); reflexivity.
    + destruct (Qltb (floats g 0%nat) 0.6); reflexivity.
Qed.

Lemma retreat_override_calm char dist_x a g :
  (percent char <= 120)%Q ->
  runState (retreat_override char dist_x a) g = (a, g).
Proof.
  intros H. unfold retreat_override. apply Qltb_ge in H.
  unfold Qgtb. now rewrite H.
Qed.




(* ===================================================================== *)
(** ** Invariants of the loop *)
(* ===================================================================== *)

Lemma same_core_refl c : same_core c c.
Proof. now repeat split. Qed.

Lemma same_core_trans a b c : same_core a b -> same_core b c -> same_core a c.
Proof.
  intros (A1 & A2 & A3 & A4) (B1 & B2 & B3 & B4).
  repeat split; congruence.
Qed.

Lemma update_physics_core g c : same_core c (update_physics g c).
Proof. unfold update_physics. cbn. destruct (on_ground c); now repeat split. Qed.

Lemma apply_input_core mv j c : same_core c (apply_input mv j c).
Proof.
  unfold apply_input. destruct (negb (mv =? 0)); cbn;
    destruct (j && on_ground c); now repeat split.
Qed.

Lemma clamp_to_arena_core c : same_core c (clamp_to_arena c).
Proof. now repeat split. Qed.

Lemma integrate_core c : same_core c (integrate c).
Proof. now repeat split. Qed.

Lemma update_animation_core c : same_core c (update_animation c).
Proof. unfold update_animation. destruct (_ && _); now repeat split. Qed.

Lemma platform_step_core c p : same_core c (platform_step c p).
Proof. unfold platform_step. destruct (lands_on c p); now repeat split. Qed.

Lemma handle_platform_collisions_core plats c :
  same_core c (handle_platform_collisions_on plats c).
Proof.
  unfold handle_platform_collisions_on.
  apply same_core_trans with (set_on_ground false c); [now repeat split|].
  generalize (set_on_ground false c). clear c.
  induction plats as [|p plats IH]; intros c; cbn [fold_left].
  - apply same_core_refl.
  - eapply same_core_trans; [apply platform_step_core | apply IH].
Qed.

Lemma turn_ok_core c c' : same_core c c' -> turn_ok c c'.
Proof.
  intros (A1 & A2 & A3 & A4). unfold turn_ok. rewrite A4.
  repeat split; auto.
Qed.

Lemma turn_ok_trans a b c : turn_ok a b -> turn_ok b c -> turn_ok a c.
Proof.
  intros (A1 & A2 & A3 & A4) (B1 & B2 & B3 & B4).
  repeat split; try congruence.
  - intros H. rewrite B3, A3; congruence.
  - auto.
Qed.

Lemma hitbox_ok_app l a :
  Forall hitbox_ok l -> hb_alive a = true -> 0 <= hb_damage a ->
  Forall hitbox_ok (l ++ [a]).
Proof.
  intros H A D. apply Forall_app. split; [exact H|].
  constructor; [now split|constructor].
Qed.

Lemma attack_turn_ok v s now c :
  turn_ok c (fst (attack v s now c)) /\
  (forall p, snd (attack v s now c) = Proj p -> projectile_ok p).
Proof.
  unfold turn_ok. unfold_attacks.
  destruct v, (cls c) eqn:E;
    unfold trigger_attack_anim, trigger_special_anim; cbn;
    split_ifs; cbn; rewrite ?E.
  all: split.
  all: try (intros p Hp; try discriminate; injection Hp as <-;
              split; [reflexivity | cbn; lia]).
  all: repeat split; try reflexivity; try congruence.
  all: intros H; repeat apply hitbox_ok_app;
         try assumption; try reflexivity; cbn; lia.
Qed.

Lemma register_ok res ps :
  Forall projectile_ok ps ->
  (forall p, res = Proj p -> projectile_ok p) ->
  Forall projectile_ok (register res ps).
Proof.
  intros H R. destruct res as [| |p]; cbn; try assumption.
  apply Forall_app. split; [exact H|]. constructor; [now apply R|constructor].
Qed.

Lemma fighter_turn_ok s clk a f ps :
  turn_ok f (fst (fighter_turn s clk a f ps)) /\
  (Forall projectile_ok ps ->
   Forall projectile_ok (snd (fighter_turn s clk a f ps))).
Proof.
  unfold fighter_turn.
  set (f1 := apply_input (move a) (jump a) (update_physics GRAVITY f)).
  assert (T1 : turn_ok f f1).
  { apply turn_ok_core. eapply same_core_trans;
      [apply update_physics_core | apply apply_input_core]. }
  clearbody f1.
  assert (S2 : exists f2 ps2,
    (if light a
     then let '(f0, res) := light_attack s (t_light clk s) f1 in
          (f0, register res ps)
     else (f1, ps)) = (f2, ps2) /\ turn_ok f f2 /\
    (Forall projectile_ok ps -> Forall projectile_ok ps2)).
  { destruct (light a).
    - pose proof (attack_turn_ok Light s (t_light clk s) f1) as [A B].
      cbn [attack] in A, B.
      destruct (light_attack s (t_light clk s) f1) as [f2 r].
      exists f2, (register r ps). split; [reflexivity|].
      split; [eapply turn_ok_trans; eassumption|].
      intros H. now apply register_ok.
    - exists f1, ps. auto. }
  destruct S2 as (f2 & ps2 & -> & T2 & P2).
  set (f3 := if heavy a then fst (heavy_attack s (t_heavy clk s) f2) else f2).
  assert (T3 : turn_ok f f3).
  { subst f3. destruct (heavy a); [|exact T2].
    eapply turn_ok_trans; [exact T2|].
    apply (attack_turn_ok Heavy s (t_heavy clk s) f2). }
  clearbody f3.
  destruct (special a); cbn [fst snd]; [|now split].
  pose proof (attack_turn_ok SpecialV s (t_special clk s) f3) as [A B].
  cbn [attack] in A, B.
  destruct (special_attack s (t_special clk s) f3) as [f4 r]. cbn [fst snd] in *.
  split; [eapply turn_ok_trans; eassumption|].
  intros H. apply register_ok; auto.
Qed.

Lemma grows_refl c : grows c c.
Proof. repeat split. apply Qle_refl. Qed.

Lemma grows_trans a b c : grows a b -> grows b c -> grows a c.
Proof.
  intros (A1 & A2 & A3 & A4) (B1 & B2 & B3 & B4).
  repeat split; try congruence. eapply Qle_trans; eassumption.
Qed.

Lemma grows_core c c' : same_core c c' -> grows c c'.
Proof.
  intros (A1 & A2 & A3 & A4). repeat split; try assumption.
  rewrite A3. apply Qle_refl.
Qed.

Lemma receive_hit_grows d b src c :
  0 <= d -> grows c (receive_hit (inject_Z d) (inject_Z b) src c).
Proof.
  intros H. repeat split. rewrite receive_hit_percent.
  assert (0 <= inject_Z d)%Q by (change 0%Q with (inject_Z 0); now rewrite <- Zle_Qle).
  lra.
Qed.

Lemma hit_loop_spec owner atks : forall target,
  Forall nonneg_damage atks ->
  grows target (fst (hit_loop owner atks target)) /\
  Forall nonneg_damage (snd (hit_loop owner atks target)).
Proof.
  induction atks as [|a atks IH]; intros target H; cbn [hit_loop].
  - split; [apply grows_refl|constructor].
  - inversion H as [|? ? Ha Hr]; subst.
    destruct (connects a target).
    + set (t1 := receive_hit _ _ owner target).
      assert (G : grows target t1) by now apply receive_hit_grows.
      destruct (IH t1 Hr) as [G2 F2].
      destruct (hit_loop owner atks t1) as [t2 rest]. cbn [fst snd] in *.
      split; [eapply grows_trans; eassumption|].
      constructor; [exact Ha|exact F2].
    + destruct (IH target Hr) as [G2 F2].
      destruct (hit_loop owner atks target) as [t2 rest]. cbn [fst snd] in *.
      split; [exact G2|]. now constructor.
Qed.

Lemma prune_ok atks : forall clk,
  Forall nonneg_damage atks -> Forall hitbox_ok (prune clk atks).
Proof.
  induction atks as [|a atks IH]; intros clk H; cbn [prune]; [constructor|].
  inversion H as [|? ? Ha Hr]; subst.
  destruct (hb_alive a) eqn:A; [|now apply IH].
  destruct (_ <? 600); [|now apply IH].
  constructor; [now split|now apply IH].
Qed.

Lemma prune_alive atks : forall clk a,
  In a (prune clk atks) -> hb_alive a = true.
Proof.
  induction atks as [|b atks IH]; intros clk a H; cbn [prune] in H;
    [contradiction|].
  destruct (hb_alive b) eqn:A; [|now apply IH in H].
  destruct (_ <? 600); [|now apply IH in H].
  destruct H as [<-|H]; [exact A|now apply IH in H].
Qed.

Lemma hitbox_ok_nonneg l : Forall hitbox_ok l -> Forall nonneg_damage l.
Proof. apply Forall_impl. now intros a [_ H]. Qed.

(** The loop, one projectile at a time: a projectile that strikes is
    marked dead and dropped at once, one that does not stays if it is
    alive. *)
Lemma projectile_loop_cons p rest pl en :
  projectile_loop (p :: rest) pl en
  = if Side_eqb (p_owner p) Player && R.colliderect (p_rect p) (rect en)
    then
      projectile_loop rest pl
        (receive_hit (inject_Z (p_damage p)) (inject_Z (p_knockback p))
           pl en)
    else if Side_eqb (p_owner p) Enemy && R.colliderect (p_rect p) (rect pl)
    then
      projectile_loop rest
        (receive_hit (inject_Z (p_damage p)) (inject_Z (p_knockback p))
           en pl) en
    else
      let '(pl, en, rest) := projectile_loop rest pl en in
      (pl, en, if p_alive p then p :: rest else rest).
Proof.
  cbn [projectile_loop]. unfold projectile_hit.
  destruct (_ && _).
  - destruct (projectile_loop rest pl _) as [[pl' en'] ps']. reflexivity.
  - destruct (_ && _).
    + destruct (projectile_loop rest _ en) as [[pl' en'] ps']. reflexivity.
    + destruct (projectile_loop rest pl en) as [[pl' en'] ps'].
      now destruct (p_alive p).
Qed.

Lemma projectile_loop_spec ps : forall pl en,
  Forall projectile_ok ps ->
  let '(pl', en', ps') := projectile_loop ps pl en in
  grows pl pl' /\ grows en en' /\ Forall projectile_ok ps'.
Proof.
  induction ps as [|p ps IH]; intros pl en H;
    [cbn [projectile_loop]|rewrite projectile_loop_cons].
  - split; [apply grows_refl|]. split; [apply grows_refl|constructor].
  - inversion H as [|? ? [Pa Pd] Hr]; subst.
    destruct (_ && _).
    + specialize (IH pl (receive_hit (inject_Z (p_damage p))
                           (inject_Z (p_knockback p)) pl en) Hr).
      destruct (projectile_loop ps pl _) as [[pl' en'] ps'].
      destruct IH as (G1 & G2 & F).
      split; [exact G1|]. split; [|exact F].
      eapply grows_trans; [apply receive_hit_grows; exact Pd | exact G2].
    + destruct (_ && _).
      * specialize (IH (receive_hit (inject_Z (p_damage p))
                           (inject_Z (p_knockback p)) en pl) en Hr).
        destruct (projectile_loop ps _ en) as [[pl' en'] ps'].
        destruct IH as (G1 & G2 & F). split; [|split; [exact G2|exact F]].
        eapply grows_trans; [apply receive_hit_grows; exact Pd | exact G1].
      * specialize (IH pl en Hr).
        destruct (projectile_loop ps pl en) as [[pl' en'] ps'].
        destruct IH as (G1 & G2 & F).
        split; [exact G1|]. split; [exact G2|].
        rewrite Pa. constructor; [split; assumption|exact F].
Qed.

Lemma projectile_loop_alive ps : forall pl en p,
  In p (snd (projectile_loop ps pl en)) -> p_alive p = true.
Proof.
  induction ps as [|q ps IH]; intros pl en p H;
    [cbn [projectile_loop] in H|rewrite projectile_loop_cons in H].
  - contradiction.
  - destruct (_ && _); [now apply IH in H|].
    destruct (_ && _); [now apply IH in H|].
    specialize (IH pl en p).
    destruct (projectile_loop ps pl en) as [[pl' en'] ps']. cbn [snd] in *.
    destruct (p_alive q) eqn:A; [|now apply IH].
    destruct H as [<-|H]; [exact A|now apply IH].
Qed.

Lemma rises_refl c : rises c c.
Proof. split; [reflexivity|]. split; [reflexivity|apply Qle_refl]. Qed.

Lemma rises_trans a b c : rises a b -> rises b c -> rises a c.
Proof.
  intros (A1 & A2 & A3) (B1 & B2 & B3).
  split; [congruence|]. split; [congruence|]. eapply Qle_trans; eassumption.
Qed.

Lemma grows_rises c c' : grows c c' -> rises c c'.
Proof. intros (A1 & A2 & A3 & A4). split; [|split]; assumption. Qed.

Lemma well_formed_sides m :
  well_formed m <->
  (forall s, Forall hitbox_ok (active_attacks (fighter s m))) /\
  Forall projectile_ok (projectiles m).
Proof.
  unfold well_formed. split.
  - intros (A & B & C). split; [intros []; assumption|exact C].
  - intros (A & C). split; [apply (A Player)|]. split; [apply (A Enemy)|exact C].
Qed.

Lemma stage_ok_trans a b c : stage_ok a b -> stage_ok b c -> stage_ok a c.
Proof.
  intros A B W. destruct (A W) as [W1 R1]. destruct (B W1) as [W2 R2].
  split; [exact W2|]. intros s. eapply rises_trans; [apply R1|apply R2].
Qed.

Lemma resolve_attacks_ok s clk m : stage_ok m (resolve_attacks s clk m).
Proof.
  intros W. apply well_formed_sides in W. destruct W as [WA WP].
  unfold resolve_attacks.
  pose proof (hit_loop_spec (fighter s m) (active_attacks (fighter s m))
                (fighter (other s) m) (hitbox_ok_nonneg _ (WA s))) as [G F].
  destruct (hit_loop _ _ _) as [t atks]. cbn [fst snd] in G, F.
  pose proof (prune_ok atks (t_prune clk s) F) as P.
  destruct G as (G1 & G2 & G3 & G4).
  split.
  - apply well_formed_sides. split; [|destruct s; exact WP].
    intros s'. destruct s, s'; cbn; try exact P; rewrite G3;
      (apply (WA Player) || apply (WA Enemy)).
  - intros s'. destruct s, s'; cbn; cbn in G1, G2, G4;
      (split; [|split]); try reflexivity; try assumption; apply Qle_refl.
Qed.

Lemma resolve_projectiles_ok m : stage_ok m (resolve_projectiles m).
Proof.
  intros W. unfold resolve_projectiles.
  pose proof (projectile_loop_spec (projectiles m) (player m) (enemy m)) as L.
  destruct (projectile_loop _ _ _) as [[pl en] ps].
  destruct W as (WA & WB & WP). destruct (L WP) as (G1 & G2 & F).
  split.
  - unfold well_formed. cbn.
    destruct G1 as (_ & _ & -> & _). destruct G2 as (_ & _ & -> & _).
    now repeat split.
  - intros []; cbn; now apply grows_rises.
Qed.

Lemma core_stage_ok (f g : Fighter -> Fighter) m :
  (forall c, same_core c (f c)) -> (forall c, same_core c (g c)) ->
  stage_ok m (set_fighter Enemy (g (enemy m))
                (set_fighter Player (f (player m)) m)).
Proof.
  intros F G (WA & WB & WP).
  destruct (F (player m)) as (F1 & F2 & F3 & F4).
  destruct (G (enemy m)) as (G1 & G2 & G3 & G4).
  split.
  - unfold well_formed. cbn. rewrite F4, G4. now repeat split.
  - intros []; cbn; (split; [|split]); try assumption;
      rewrite ?F3, ?G3; apply Qle_refl.
Qed.

Lemma apply_movement_ok m : stage_ok m (apply_movement m).
Proof. apply (core_stage_ok integrate integrate); apply integrate_core. Qed.

Lemma update_animations_ok m : stage_ok m (update_animations m).
Proof.
  apply (core_stage_ok update_animation update_animation);
    apply update_animation_core.
Qed.

Lemma on_ko_frame c :
  cls (on_ko c) = cls c /\ active_attacks (on_ko c) = active_attacks c /\
  (1 < stocks c -> stocks (on_ko c) = stocks c - 1).
Proof.
  unfold on_ko. cbn.
  destruct (Z.leb_spec (stocks c - 1) 0); cbn; repeat split; intros; lia.
Qed.

(** One call of [check_ko] either leaves a fighter as it is or, for the
    fighter it looks at, takes a stock. *)
Lemma check_ko_fighter s' x m s :
  active_attacks (fighter s (check_ko s' x m)) = active_attacks (fighter s m)
  /\ cls (fighter s (check_ko s' x m)) = cls (fighter s m)
  /\ projectiles (check_ko s' x m) = projectiles m
  /\ (fighter s (check_ko s' x m) = fighter s m \/
      stocks (fighter s (check_ko s' x m)) = stocks (fighter s m) - 1).
Proof.
  unfold check_ko.
  destruct (out_of_bounds _); [|now repeat split; left].
  destruct (Z.leb_spec (stocks (fighter s' m)) 1) as [L|L].
  - destruct s; repeat split; now left.
  - destruct (on_ko_frame (fighter s' m)) as (K1 & K2 & K3).
    destruct s, s'; cbn; repeat split; try (now left); try assumption;
      right; now apply K3.
Qed.

Lemma ko_checks_fighter m s :
  active_attacks (fighter s (ko_checks m)) = active_attacks (fighter s m)
  /\ cls (fighter s (ko_checks m)) = cls (fighter s m)
  /\ projectiles (ko_checks m) = projectiles m
  /\ (fighter s (ko_checks m) = fighter s m \/
      stocks (fighter s (ko_checks m)) = stocks (fighter s m) - 1).
Proof.
  unfold ko_checks.
  set (m1 := check_ko Player _ m).
  destruct (check_ko_fighter Player (inject_Z WIDTH * 0.25) m s)
    as (A1 & A2 & A3 & A4). fold m1 in A1, A2, A3, A4.
  destruct (check_ko_fighter Enemy (inject_Z WIDTH * 0.75) m1 s)
    as (B1 & B2 & B3 & B4).
  split; [congruence|]. split; [congruence|]. split; [congruence|].
  destruct s.
  - (* the enemy's check leaves the player alone *)
    assert (E : fighter Player (check_ko Enemy (inject_Z WIDTH * 0.75) m1)
                = fighter Player m1).
    { unfold check_ko. destruct (out_of_bounds _); [|reflexivity].
      now destruct (_ <=? 1). }
    rewrite E. exact A4.
  - assert (E : fighter Enemy m1 = fighter Enemy m).
    { subst m1. unfold check_ko. destruct (out_of_bounds _); [|reflexivity].
      now destruct (_ <=? 1). }
    rewrite <- E. exact B4.
Qed.

Lemma ko_checks_well_formed m : well_formed m -> well_formed (ko_checks m).
Proof.
  intros W. apply well_formed_sides in W. destruct W as [WA WP].
  apply well_formed_sides. split.
  - intros s. destruct (ko_checks_fighter m s) as (-> & _). apply WA.
  - destruct (ko_checks_fighter m Player) as (_ & _ & -> & _). exact WP.
Qed.

Lemma update_projectiles_ok ps :
  Forall projectile_ok ps -> Forall projectile_ok (update_projectiles ps).
Proof.
  intros H. unfold update_projectiles. apply Forall_forall.
  intros p Hp. apply filter_In in Hp. destruct Hp as [Hp _].
  apply in_map_iff in Hp. destruct Hp as (q & <- & Hq).
  rewrite Forall_forall in H. apply (H q Hq).
Qed.

(** The first half of the loop body keeps the match in order; it keeps
    class and stocks, and percent too unless the fighter is a priest. *)
Lemma act_ok inp m :
  (well_formed m -> well_formed (act inp m)) /\
  forall s, cls (fighter s (act inp m)) = cls (fighter s m) /\
            stocks (fighter s (act inp m)) = stocks (fighter s m) /\
            (cls (fighter s m) <> Priest ->
             percent (fighter s (act inp m)) = percent (fighter s m)).
Proof.
  unfold act.
  pose proof (fighter_turn_ok Player (clock inp) (keys_action (keys inp))
                (player m) (projectiles m)) as [T1 P1].
  destruct (fighter_turn Player _ _ _ _) as [pl ps]. cbn [fst snd] in T1, P1.
  destruct (evalState _ _) as [ai_action ai2].
  pose proof (fighter_turn_ok Enemy (clock inp) ai_action (enemy m) ps)
    as [T2 P2].
  destruct (fighter_turn Enemy _ _ _ _) as [en ps']. cbn [fst snd] in T2, P2.
  assert (H1 : turn_ok (player m)
                 (handle_platform_collisions (clamp_to_arena pl))).
  { eapply turn_ok_trans; [exact T1|]. apply turn_ok_core.
    eapply same_core_trans; [apply clamp_to_arena_core|].
    apply handle_platform_collisions_core. }
  assert (H2 : turn_ok (enemy m)
                 (handle_platform_collisions (clamp_to_arena en))).
  { eapply turn_ok_trans; [exact T2|]. apply turn_ok_core.
    eapply same_core_trans; [apply clamp_to_arena_core|].
    apply handle_platform_collisions_core. }
  set (pl1 := handle_platform_collisions (clamp_to_arena pl)) in *.
  set (en1 := handle_platform_collisions (clamp_to_arena en)) in *.
  clearbody pl1 en1.
  destruct H1 as (A1 & A2 & A3 & A4). destruct H2 as (B1 & B2 & B3 & B4).
  split.
  - intros (WA & WB & WP). unfold well_formed. cbn [player enemy projectiles].
    split; [exact (A4 WA)|]. split; [exact (B4 WB)|].
    apply update_projectiles_ok. exact (P2 (P1 WP)).
  - intros []; cbn [fighter player enemy].
    + split; [exact A1|]. split; [exact A2|exact A3].
    + split; [exact B1|]. split; [exact B2|exact B3].
Qed.

Lemma stage_ok_collisions clk m :
  stage_ok m (apply_movement (resolve_projectiles (resolve_hitboxes clk m))).
Proof.
  eapply stage_ok_trans; [|apply apply_movement_ok].
  eapply stage_ok_trans; [|apply resolve_projectiles_ok].
  unfold resolve_hitboxes.
  eapply stage_ok_trans; apply resolve_attacks_ok.
Qed.

Lemma resolve_well_formed clk m : well_formed m -> well_formed (resolve clk m).
Proof.
  intros W. unfold resolve.
  apply update_animations_ok, ko_checks_well_formed.
  now apply stage_ok_collisions.
Qed.

(** Through the second half of the loop body a fighter that keeps its
    stocks keeps or raises its percent. *)
Lemma resolve_percent clk m s :
  well_formed m ->
  cls (fighter s (resolve clk m)) = cls (fighter s m) /\
  (stocks (fighter s (resolve clk m)) = stocks (fighter s m) ->
   (percent (fighter s m) <= percent (fighter s (resolve clk m)))%Q).
Proof.
  intros W. unfold resolve.
  set (m3 := apply_movement (resolve_projectiles (resolve_hitboxes clk m))).
  destruct (stage_ok_collisions clk m W) as [W3 R3]. fold m3 in W3, R3.
  destruct (R3 s) as (C3 & S3 & P3).
  destruct (ko_checks_fighter m3 s) as (_ & C4 & _ & K).
  pose proof (ko_checks_well_formed m3 W3) as W4.
  destruct (update_animations_ok (ko_checks m3) W4) as [_ R5].
  destruct (R5 s) as (C5 & S5 & P5).
  split; [congruence|].
  intros E. destruct K as [K|K]; [|lia].
  rewrite K in P5. eapply Qle_trans; eassumption.
Qed.

Lemma tick_well_formed inp m : well_formed m -> well_formed (tick inp m).
Proof.
  intros W. unfold tick. destruct (game_over m); [exact W|].
  unfold simulate. apply resolve_well_formed. now apply act_ok.
Qed.

Lemma start_well_formed pk ek pa ea :
  well_formed (main_game_start pk ek pa ea).
Proof.
  unfold well_formed, main_game_start, start_match, try_load_sprites,
    new_fighter.
  destruct (tuning pk) as [[[? ?] ?] ?], (tuning ek) as [[[? ?] ?] ?].
  destruct (scale_txt pa), (scale_txt ea); cbn; repeat split; constructor.
Qed.

Lemma reachable_well_formed m : reachable m -> well_formed m.
Proof.
  induction 1 as [pk ek pa ea|inp m _ IH].
  - apply start_well_formed.
  - now apply tick_well_formed.
Qed.

Lemma well_formed_alive m : well_formed m -> all_alive m.
Proof.
  intros W. apply well_formed_sides in W. destruct W as [WA WP]. split.
  - intros s a Ha. specialize (WA s). rewrite Forall_forall in WA.
    now apply WA.
  - intros p Hp. rewrite Forall_forall in WP. now apply WP.
Qed.


(* ===================================================================== *)
(** ** Percent over a match; dead hitboxes and projectiles *)
(* ===================================================================== *)

(** Every attack variant but the priest's special leaves percent alone. *)
Lemma attack_percent v s now c :
  ~ (v = SpecialV /\ cls c = Priest) ->
  percent (fst (attack v s now c)) = percent c.
Proof.
  intros H. unfold_attacks.
  destruct v, (cls c) eqn:E; try (exfalso; apply H; now split);
    unfold trigger_attack_anim, trigger_special_anim; cbn;
    split_ifs; reflexivity.
Qed.

(** The priest's special, off cooldown, takes 12 off percent, not below
    0. *)
Lemma priest_heal s now c :
  cls c = Priest ->
  1000 <= now - last_attack_time c ->
  percent (fst (special_attack s now c)) = py_max 0.0 (percent c - 12) /\
  (percent (fst (special_attack s now c)) <= percent c \/
   percent c < 0)%Q.
Proof.
  intros K H. unfold special_attack, Priest_special_attack. rewrite K.
  apply Z.ltb_ge in H. rewrite H. unfold trigger_special_anim. cbn.
  assert (E : forall x, percent (if anim_special c
                                 then set_current_state Special x else x)
                        = percent x) by (intros; now destruct (anim_special c)).
  change (percent (if anim_special c then _ else _))
    with (percent (if anim_special c
                   then set_current_state Special
                          (set_percent (py_max 0.0 (percent c - 12))
                             (set_last_attack_time now c))
                   else set_percent (py_max 0.0 (percent c - 12))
                          (set_last_attack_time now c))).
  rewrite E. cbn. split; [reflexivity|].
  destruct (Qlt_le_dec 0.0 (percent c - 12)) as [L|L].
  - rewrite (py_max_right _ _ L). left. lra.
  - rewrite (py_max_left _ _ L).
    destruct (Qlt_le_dec (percent c) 0); [now right|left; lra].
Qed.

Lemma hit_loop_attacks owner atks : forall target,
  active_attacks (fst (hit_loop owner atks target)) = active_attacks target.
Proof.
  induction atks as [|a atks IH]; intros target; cbn [hit_loop];
    [reflexivity|].
  destruct (connects a target).
  - specialize (IH (receive_hit (inject_Z (hb_damage a))
                      (inject_Z (hb_knockback a)) owner target)).
    destruct (hit_loop owner atks _) as [t rest]. exact IH.
  - specialize (IH target).
    destruct (hit_loop owner atks target) as [t rest]. exact IH.
Qed.

Lemma projectile_loop_attacks ps : forall pl en,
  active_attacks (fst (fst (projectile_loop ps pl en))) = active_attacks pl /\
  active_attacks (snd (fst (projectile_loop ps pl en))) = active_attacks en.
Proof.
  induction ps as [|p ps IH]; intros pl en;
    [cbn [projectile_loop]; now split|rewrite projectile_loop_cons].
  destruct (_ && _); [apply (IH pl (receive_hit _ _ pl en))|].
  destruct (_ && _); [apply (IH (receive_hit _ _ en pl) en)|].
  specialize (IH pl en).
  destruct (projectile_loop ps pl en) as [[pl' en'] ps']. exact IH.
Qed.

(** Whatever the lists hold when the collision checks start, they hold
    nothing dead when the checks are done. *)
Lemma collisions_leave_alive clk m :
  all_alive (resolve_projectiles (resolve_hitboxes clk m)).
Proof.
  unfold resolve_projectiles.
  pose proof (projectile_loop_attacks (projectiles (resolve_hitboxes clk m))
                (player (resolve_hitboxes clk m))
                (enemy (resolve_hitboxes clk m))) as [A1 A2].
  pose proof (projectile_loop_alive (projectiles (resolve_hitboxes clk m))
                (player (resolve_hitboxes clk m))
                (enemy (resolve_hitboxes clk m))) as PA.
  destruct (projectile_loop _ _ _) as [[pl en] ps]. cbn [fst snd] in *.
  split; [|exact PA].
  assert (H : forall s a,
            In a (active_attacks (fighter s (resolve_hitboxes clk m))) ->
            hb_alive a = true).
  { clear. intros s a. unfold resolve_hitboxes, resolve_attacks.
    cbn [fighter other].
    pose proof (hit_loop_attacks (player m) (active_attacks (player m))
                  (enemy m)) as E1.
    destruct (hit_loop (player m) _ (enemy m)) as [t1 atks1].
    cbn [fst] in E1. cbn [fighter set_fighter player enemy].
    pose proof (hit_loop_attacks t1 (active_attacks t1)
                  (set_active_attacks (prune (t_prune clk Player) atks1)
                     (player m))) as E2.
    destruct (hit_loop t1 _ _) as [t2 atks2]. cbn [fst] in E2.
    destruct s; cbn [fighter set_fighter player enemy].
    - rewrite E2. apply prune_alive.
    - apply prune_alive. }
  intros [] a; cbn [fighter player enemy]; rewrite ?A1, ?A2.
  - apply (H Player).
  - apply (H Enemy).
Qed.

(** A hitbox that is not alive hits nothing. *)
Lemma hit_loop_dead owner atks : forall target,
  Forall (fun a => hb_alive a = false) atks ->
  hit_loop owner atks target = (target, atks).
Proof.
  induction atks as [|a atks IH]; intros target H; cbn [hit_loop];
    [reflexivity|].
  inversion H as [|? ? Ha Hr]; subst.
  unfold connects. rewrite Ha, andb_false_r. now rewrite IH.
Qed.

(** From the top of one iteration of a match to the top of the next, the
    percent of a fighter that is not a priest does not go down, unless the
    iteration's KO handling took one of its stocks. *)
Lemma percent_tick_others (inp : Inputs) (m : Match) (s : Side) :
  reachable m ->
  cls (fighter s m) <> Priest ->
  stocks (fighter s (tick inp m)) = stocks (fighter s m) ->
  (percent (fighter s m) <= percent (fighter s (tick inp m)))%Q.
Proof.
  intros R C E. apply reachable_well_formed in R.
  unfold tick in *. destruct (game_over m); [apply Qle_refl|].
  unfold simulate in *.
  destruct (act_ok inp m) as [W A]. destruct (A s) as (A1 & A2 & A3).
  destruct (resolve_percent (clock inp) (act inp m) s (W R)) as [_ P].
  rewrite <- (A3 C). apply P. congruence.
Qed.

(** [C2] as stated fails: a priest at 20 percent that uses its special
    attack is at 8 percent afterwards, with all its stocks; so it is after
    an iteration of the loop in which the special key is down. *)
Lemma priest_heal_counterexample :
  let c' := fst (special_attack Player 1000 hurt_priest) in
  let m' := tick special_key_inputs priest_match in
  (percent hurt_priest == 20)%Q /\
  (percent c' == 8)%Q /\ stocks c' = stocks hurt_priest /\
  game_over priest_match = false /\
  stocks (player m') = stocks (player priest_match) /\
  (percent (player m') == 8)%Q /\
  ~ (percent (player priest_match) <= percent (player m'))%Q.
Proof.
  vm_compute. repeat split; try reflexivity. intros H. now apply H.
Qed.

(** A light attack that connects: the hitbox enters the collision checks
    alive, deals its 6 damage once, and is gone from the list at the end of
    the same iteration; the next iteration deals no further damage. *)
Example hit_connects_once :
  let m1 := tick light_key_inputs close_match in
  let m2 := tick quiet_inputs m1 in
  length (active_attacks (player (act light_key_inputs close_match)))
    = 1%nat /\
  active_attacks (player m1) = [] /\
  (percent (enemy m1) == 6)%Q /\
  active_attacks (player m2) = [] /\
  (percent (enemy m2) == 6)%Q.
Proof. vm_compute. repeat split; reflexivity. Qed.

(* ===================================================================== *)
(** ** Match end, from iteration to iteration *)
(* ===================================================================== *)

(** Only the KO check writes [game_over] and [winner]. *)
Lemma set_fighter_flags s f m :
  game_over (set_fighter s f m) = game_over m /\
  winner (set_fighter s f m) = winner m.
Proof. now destruct s. Qed.

Lemma resolve_attacks_flags s clk m :
  game_over (resolve_attacks s clk m) = game_over m /\
  winner (resolve_attacks s clk m) = winner m.
Proof.
  unfold resolve_attacks. destruct (hit_loop _ _ _) as [t atks].
  now destruct s.
Qed.

Lemma resolve_projectiles_flags m :
  game_over (resolve_projectiles m) = game_over m /\
  winner (resolve_projectiles m) = winner m.
Proof.
  unfold resolve_projectiles.
  now destruct (projectile_loop _ _ _) as [[pl en] ps].
Qed.

Lemma act_flags inp m :
  game_over (act inp m) = game_over m /\ winner (act inp m) = winner m.
Proof.
  unfold act.
  destruct (fighter_turn Player _ _ _ _) as [pl ps].
  destruct (evalState _ _) as [ai_action ai2].
  destruct (fighter_turn Enemy _ _ _ _) as [en ps'].
  split; reflexivity.
Qed.

Lemma before_ko_flags clk m :
  game_over (apply_movement (resolve_projectiles (resolve_hitboxes clk m)))
  = game_over m /\
  winner (apply_movement (resolve_projectiles (resolve_hitboxes clk m)))
  = winner m.
Proof.
  unfold apply_movement, resolve_hitboxes.
  rewrite !(proj1 (set_fighter_flags _ _ _)),
          !(proj2 (set_fighter_flags _ _ _)).
  rewrite (proj1 (resolve_projectiles_flags _)),
          (proj2 (resolve_projectiles_flags _)).
  rewrite !(proj1 (resolve_attacks_flags _ _ _)),
          !(proj2 (resolve_attacks_flags _ _ _)).
  split; reflexivity.
Qed.

(** A call of [check_ko] that leaves the match over leaves a winner. *)
Lemma check_ko_winner s x m :
  (game_over m = true -> winner m <> None) ->
  game_over (check_ko s x m) = true -> winner (check_ko s x m) <> None.
Proof.
  intros I. unfold check_ko.
  destruct (out_of_bounds _); [|exact I].
  destruct (_ <=? 1); [discriminate|].
  rewrite (proj1 (set_fighter_flags _ _ _)), (proj2 (set_fighter_flags _ _ _)).
  exact I.
Qed.

Lemma ko_checks_winner m :
  game_over m = false ->
  game_over (update_animations (ko_checks m)) = true ->
  winner (update_animations (ko_checks m)) = Some Player \/
  winner (update_animations (ko_checks m)) = Some Enemy.
Proof.
  intros G. unfold update_animations.
  rewrite !(proj1 (set_fighter_flags _ _ _)),
          !(proj2 (set_fighter_flags _ _ _)).
  intros O.
  assert (W : winner (ko_checks m) <> None).
  { unfold ko_checks in *. apply check_ko_winner; [|exact O].
    apply check_ko_winner. rewrite G. discriminate. }
  destruct (winner (ko_checks m)) as [[|]|]; [now left|now right|easy].
Qed.

(** The iteration in which the match ends leaves a winner, player or
    enemy, and from then on nothing changes. *)
Lemma winner_set_when_over inp m :
  game_over m = false ->
  game_over (tick inp m) = true ->
  winner (tick inp m) = Some Player \/ winner (tick inp m) = Some Enemy.
Proof.
  intros G. unfold tick. rewrite G. unfold simulate, resolve.
  apply ko_checks_winner.
  rewrite (proj1 (before_ko_flags _ _)), (proj1 (act_flags _ _)). exact G.
Qed.

(** When both fighters are out of bounds on their last stock, the second
    check replaces the winner the first one has set. *)
Lemma ko_checks_double m :
  out_of_bounds (rect (player m)) = true -> stocks (player m) <= 1 ->
  out_of_bounds (rect (enemy m)) = true -> stocks (enemy m) <= 1 ->
  winner (check_ko Player (inject_Z WIDTH * 0.25) m) = Some Enemy /\
  winner (ko_checks m) = Some Player.
Proof.
  intros OP SP OE SE. unfold ko_checks.
  rewrite (check_ko_last_stock Player) by assumption.
  rewrite (check_ko_last_stock Enemy) by assumption.
  split; reflexivity.
Qed.

(* ===================================================================== *)
(** * Further properties of the code *)
(* ===================================================================== *)

(** ** How one iteration acts on one fighter *)

Lemma check_ko_cases s x m s' :
  fighter s' (check_ko s x m) = fighter s' m \/
  (s' = s /\ 1 < stocks (fighter s m) /\
   out_of_bounds (rect (fighter s m)) = true /\
   fighter s' (check_ko s x m) = respawned x (fighter s m)).
Proof.
  unfold check_ko.
  destruct (out_of_bounds (rect (fighter s m))) eqn:O; [|now left].
  destruct (Z.leb_spec (stocks (fighter s m)) 1) as [L|L].
  - left. now destruct s'.
  - destruct s, s'; try (now left); right; repeat split; assumption.
Qed.

(** Closure of a property of fighters under everything an iteration does
    to a fighter. *)
Section FighterInvariant.
Variable P : Fighter -> Prop.
Hypothesis P_physics : forall g c, P c -> P (update_physics g c).
Hypothesis P_input : forall mv j c, P c -> P (apply_input mv j c).
Hypothesis P_attack : forall v s now c, P c -> P (fst (attack v s now c)).
Hypothesis P_clamp : forall c, P c -> P (clamp_to_arena c).
Hypothesis P_ground : forall c, P c -> P (set_on_ground false c).
Hypothesis P_land : forall c plat, P c -> P (land c plat).
Hypothesis P_hit :
  forall d b src c, 0 <= d ->
    P c -> P (receive_hit (inject_Z d) (inject_Z b) src c).
Hypothesis P_attacks : forall l c, P c -> P (set_active_attacks l c).
Hypothesis P_integrate : forall c, P c -> P (integrate c).
Hypothesis P_respawn :
  forall x c, 1 < stocks c -> P c -> P (respawned x c).
Hypothesis P_animation : forall c, P c -> P (update_animation c).

Lemma P_platforms plats c :
  P c -> P (handle_platform_collisions_on plats c).
Proof.
  intros H. unfold handle_platform_collisions_on.
  apply P_ground in H. revert H. generalize (set_on_ground false c).
  induction plats as [|p plats IH]; intros e H; cbn [fold_left];
    [exact H|].
  apply IH. unfold platform_step.
  destruct (lands_on e p); [now apply P_land|exact H].
Qed.

Lemma P_fighter_turn s clk a f ps :
  P f -> P (fst (fighter_turn s clk a f ps)).
Proof.
  intros H. unfold fighter_turn.
  set (f1 := apply_input (move a) (jump a) (update_physics GRAVITY f)).
  assert (H1 : P f1) by (apply P_input, P_physics, H). clearbody f1.
  assert (S2 : exists f2 ps2,
    (if light a
     then let '(f0, res) := light_attack s (t_light clk s) f1 in
          (f0, register res ps)
     else (f1, ps)) = (f2, ps2) /\ P f2).
  { destruct (light a).
    - pose proof (P_attack Light s (t_light clk s) f1 H1) as A.
      cbn [attack] in A.
      destruct (light_attack s (t_light clk s) f1) as [f2 r].
      now exists f2, (register r ps).
    - now exists f1, ps. }
  destruct S2 as (f2 & ps2 & -> & H2).
  set (f3 := if heavy a then fst (heavy_attack s (t_heavy clk s) f2)
             else f2).
  assert (H3 : P f3).
  { subst f3. destruct (heavy a); [|exact H2].
    apply (P_attack Heavy s (t_heavy clk s) f2 H2). }
  clearbody f3.
  destruct (special a); [|exact H3].
  pose proof (P_attack SpecialV s (t_special clk s) f3 H3) as A.
  cbn [attack] in A.
  now destruct (special_attack s (t_special clk s) f3) as [f4 r].
Qed.

Lemma P_act inp m s : P (fighter s m) -> P (fighter s (act inp m)).
Proof.
  unfold act.
  pose proof (P_fighter_turn Player (clock inp) (keys_action (keys inp))
                (player m) (projectiles m)) as T1.
  destruct (fighter_turn Player _ _ _ _) as [pl ps]. cbn [fst] in T1.
  destruct (evalState _ _) as [ai_action ai2].
  pose proof (P_fighter_turn Enemy (clock inp) ai_action (enemy m) ps)
    as T2.
  destruct (fighter_turn Enemy _ _ _ _) as [en ps']. cbn [fst] in T2.
  destruct s; cbn [fighter player enemy]; intros H;
    apply P_platforms, P_clamp; auto.
Qed.

Lemma P_hit_loop owner atks : forall target,
  Forall nonneg_damage atks ->
  P target -> P (fst (hit_loop owner atks target)).
Proof.
  induction atks as [|a atks IH]; intros target F H; cbn [hit_loop];
    [exact H|].
  inversion F as [|? ? Fa Fr]; subst.
  destruct (connects a target).
  - specialize (IH (receive_hit (inject_Z (hb_damage a))
                      (inject_Z (hb_knockback a)) owner target) Fr
                   (P_hit _ _ _ _ Fa H)).
    now destruct (hit_loop owner atks _).
  - specialize (IH target Fr H). now destruct (hit_loop owner atks target).
Qed.

Lemma P_projectile_loop ps : forall pl en,
  Forall projectile_ok ps ->
  (P pl -> P (fst (fst (projectile_loop ps pl en)))) /\
  (P en -> P (snd (fst (projectile_loop ps pl en)))).
Proof.
  induction ps as [|p ps IH]; intros pl en F;
    [cbn [projectile_loop]; now split|rewrite projectile_loop_cons].
  inversion F as [|? ? [Fa Fd] Fr]; subst.
  destruct (_ && _).
  { destruct (IH pl (receive_hit (inject_Z (p_damage p))
                       (inject_Z (p_knockback p)) pl en) Fr) as [I1 I2].
    split; [exact I1|]. intros H. apply I2. now apply P_hit. }
  destruct (_ && _).
  { destruct (IH (receive_hit (inject_Z (p_damage p))
                    (inject_Z (p_knockback p)) en pl) en Fr) as [I1 I2].
    split; [|exact I2]. intros H. apply I1. now apply P_hit. }
  specialize (IH pl en Fr).
  now destruct (projectile_loop ps pl en) as [[pl' en'] ps'].
Qed.

Lemma P_resolve_attacks s clk m s' :
  well_formed m ->
  P (fighter s' m) -> P (fighter s' (resolve_attacks s clk m)).
Proof.
  intros W H. apply well_formed_sides in W. destruct W as [WA _].
  unfold resolve_attacks.
  pose proof (P_hit_loop (fighter s m) (active_attacks (fighter s m))
                (fighter (other s) m) (hitbox_ok_nonneg _ (WA s))) as L.
  destruct (hit_loop _ _ _) as [t atks]. cbn [fst] in L.
  destruct s, s'; cbn in *; auto.
Qed.

Lemma P_resolve_projectiles m s :
  well_formed m ->
  P (fighter s m) -> P (fighter s (resolve_projectiles m)).
Proof.
  intros (_ & _ & WP). unfold resolve_projectiles.
  pose proof (P_projectile_loop (projectiles m) (player m) (enemy m) WP)
    as [L1 L2].
  destruct (projectile_loop _ _ _) as [[pl en] ps]. now destruct s.
Qed.

Lemma P_ko_checks m s : P (fighter s m) -> P (fighter s (ko_checks m)).
Proof.
  intros H. unfold ko_checks.
  set (m1 := check_ko Player _ m).
  assert (H1 : P (fighter s m1)).
  { subst m1.
    destruct (check_ko_cases Player (inject_Z WIDTH * 0.25) m s)
      as [->|(-> & L & _ & ->)]; [exact H|now apply P_respawn]. }
  destruct (check_ko_cases Enemy (inject_Z WIDTH * 0.75) m1 s)
    as [->|(-> & L & _ & ->)]; [exact H1|now apply P_respawn].
Qed.

(** An iteration of the loop keeps [P] of a fighter. *)
Lemma P_tick inp m s :
  well_formed m -> P (fighter s m) -> P (fighter s (tick inp m)).
Proof.
  intros W H. unfold tick. destruct (game_over m); [exact H|].
  unfold simulate, resolve.
  pose proof (proj1 (act_ok inp m) W) as W1.
  pose proof (P_act inp m s H) as A.
  set (m1 := act inp m) in *. clearbody m1.
  unfold resolve_hitboxes.
  pose proof (P_resolve_attacks Player (clock inp) m1 s W1 A) as B.
  destruct (resolve_attacks_ok Player (clock inp) m1 W1) as [W2 _].
  set (m2 := resolve_attacks Player (clock inp) m1) in *. clearbody m2.
  pose proof (P_resolve_attacks Enemy (clock inp) m2 s W2 B) as C.
  destruct (resolve_attacks_ok Enemy (clock inp) m2 W2) as [W3 _].
  set (m3 := resolve_attacks Enemy (clock inp) m2) in *. clearbody m3.
  pose proof (P_resolve_projectiles m3 s W3 C) as D.
  set (m4 := resolve_projectiles m3) in *. clearbody m4.
  assert (E : P (fighter s (apply_movement m4)))
    by (destruct s; cbn; now apply P_integrate).
  set (m5 := apply_movement m4) in *. clearbody m5.
  pose proof (P_ko_checks m5 s E) as F.
  set (m6 := ko_checks m5) in *. clearbody m6.
  destruct s; cbn; now apply P_animation.
Qed.
End FighterInvariant.

(** ** Ranges of the dynamic attributes *)

Lemma in_range_same c c' :
  facing c' = facing c -> percent c' = percent c -> stocks c' = stocks c ->
  in_range c -> in_range c'.
Proof. unfold in_range. intros -> -> ->. exact (fun H => H). Qed.

Lemma in_range_attack v s now c :
  in_range c -> in_range (fst (attack v s now c)).
Proof.
  destruct (attack_turn_ok v s now c) as [(T1 & T2 & T3 & _) _].
  assert (F : facing (fst (attack v s now c)) = facing c).
  { unfold_attacks.
    destruct v, (cls c); unfold trigger_attack_anim, trigger_special_anim;
      cbn; split_ifs; reflexivity. }
  intros (Hf & Hp & Hs). unfold in_range. rewrite F, T2.
  split; [exact Hf|]. split; [|exact Hs].
  destruct v; try (rewrite attack_percent; [exact Hp|intros [? _]; discriminate]).
  destruct (cls c) eqn:K;
    try (rewrite attack_percent; [exact Hp|intros [_ ?]; congruence]).
  cbn [attack]. unfold special_attack, Priest_special_attack. rewrite K.
  destruct (_ <? 1000); [exact Hp|].
  unfold trigger_special_anim. cbn.
  pose proof (py_max_ge_left 0.0 (percent c - 12)) as M.
  destruct (anim_special c); cbn; lra.
Qed.

Lemma in_range_respawned x c :
  1 < stocks c -> in_range c -> in_range (respawned x c).
Proof.
  intros L (Hf & Hp & Hs). unfold in_range, respawned, on_ko. cbn.
  destruct (_ <=? 0); cbn;
    (split; [exact Hf|]); (split; [apply Qle_refl|lia]).
Qed.

Lemma in_range_tick inp m s :
  well_formed m -> in_range (fighter s m) -> in_range (fighter s (tick inp m)).
Proof.
  apply P_tick.
  - intros g c. apply in_range_same; unfold update_physics; cbn;
      now destruct (on_ground c).
  - intros mv j c (Hf & Hp & Hs). unfold apply_input.
    destruct (negb (mv =? 0)); cbn; destruct (j && _); cbn;
      (split; [|now split]); try exact Hf;
      destruct (mv >? 0); auto.
  - apply in_range_attack.
  - intros c. now apply in_range_same.
  - intros c. now apply in_range_same.
  - intros c plat. now apply in_range_same.
  - intros d b src c Hd (Hf & Hp & Hs). split; [exact Hf|]. split; [|exact Hs].
    rewrite receive_hit_percent.
    assert (0 <= inject_Z d)%Q
      by (change 0%Q with (inject_Z 0); now rewrite <- Zle_Qle).
    lra.
  - intros l c. now apply in_range_same.
  - intros c. now apply in_range_same.
  - apply in_range_respawned.
  - intros c. apply in_range_same; unfold update_animation;
      now destruct (_ && _).
Qed.

Lemma start_in_range pk ek pa ea :
  in_range (player (main_game_start pk ek pa ea)) /\
  in_range (enemy (main_game_start pk ek pa ea)).
Proof.
  unfold in_range, main_game_start, start_match, try_load_sprites,
    new_fighter.
  destruct (tuning pk) as [[[? ?] ?] ?], (tuning ek) as [[[? ?] ?] ?].
  destruct (scale_txt pa), (scale_txt ea); cbn;
    repeat split; try (now left); try lia; apply Qle_refl.
Qed.

(** Throughout a match both fighters face left or right, have a percent
    that is not negative, and have between one and three stocks. *)
Theorem reachable_in_range (m : Match) :
  reachable m -> in_range (player m) /\ in_range (enemy m).
Proof.
  induction 1 as [pk ek pa ea|inp m R IH].
  - apply start_in_range.
  - destruct IH. apply reachable_well_formed in R.
    split; [apply (in_range_tick inp m Player)|apply (in_range_tick inp m Enemy)];
      assumption.
Qed.

(** ** The attributes nothing writes *)

Lemma same_build_refl c : same_build c c.
Proof. unfold same_build. repeat split. Qed.

Lemma same_build_trans a b c :
  same_build a b -> same_build b c -> same_build a c.
Proof.
  unfold same_build.
  intros (A1 & A2 & A3 & A4 & A5 & A6 & A7 & A8 & A9)
         (B1 & B2 & B3 & B4 & B5 & B6 & B7 & B8 & B9).
  repeat split; congruence.
Qed.

Lemma same_build_attack v s now c : same_build c (fst (attack v s now c)).
Proof.
  destruct c as [k r vx vy sp js og fc pc wt aa lt cd st a1 a2 cs].
  unfold same_build. unfold_attacks. cbn.
  destruct v, k; unfold trigger_attack_anim, trigger_special_anim; cbn;
    split_ifs; cbn; repeat split.
Qed.

Lemma same_build_tick c0 inp m s :
  well_formed m ->
  same_build c0 (fighter s m) -> same_build c0 (fighter s (tick inp m)).
Proof.
  assert (K : forall f : Fighter -> Fighter,
            (forall c, same_build c (f c)) ->
            forall c, same_build c0 c -> same_build c0 (f c)).
  { intros f Hf c H. eapply same_build_trans; [exact H|apply Hf]. }
  apply P_tick.
  - intros g. apply (K (update_physics g)). intros c.
    unfold same_build, update_physics. cbn. destruct (on_ground _);
      repeat split.
  - intros mv j. apply (K (apply_input mv j)). intros c.
    unfold same_build, apply_input. destruct (negb _); cbn;
      destruct (_ && _); repeat split.
  - intros v s0 now. apply (K (fun c => fst (attack v s0 now c))).
    intros c. apply same_build_attack.
  - apply K. intros c. unfold same_build. repeat split.
  - apply (K (set_on_ground false)). intros c. unfold same_build.
    repeat split.
  - intros c plat. apply (K (fun c => land c plat)). intros c'.
    unfold same_build. repeat split.
  - intros d b src c _. apply (K (receive_hit (inject_Z d) (inject_Z b) src)).
    intros c'. unfold same_build. repeat split.
  - intros l. apply (K (set_active_attacks l)). intros c.
    unfold same_build. repeat split.
  - apply K. intros c. unfold same_build. repeat split.
  - intros x c _. apply (K (respawned x)). intros c'.
    unfold same_build, respawned, on_ko. cbn. destruct (_ <=? 0);
      repeat split.
  - apply K. intros c. unfold same_build, update_animation.
    destruct (_ && _); repeat split.
Qed.

Lemma reachable_from_start pk ek pa ea m :
  reachable_from (main_game_start pk ek pa ea) m -> reachable m.
Proof.
  induction 1 as [|inp m _ IH]; [apply reach_start|now apply reach_tick].
Qed.

Lemma reachable_has_start m :
  reachable m ->
  exists pk ek pa ea, reachable_from (main_game_start pk ek pa ea) m.
Proof.
  induction 1 as [pk ek pa ea|inp m _ (pk & ek & pa & ea & IH)].
  - exists pk, ek, pa, ea. apply from_start.
  - exists pk, ek, pa, ea. now apply from_tick.
Qed.

(** Every fighter of a match has the build of some class with some
    sprite files. *)
Lemma reachable_build m s :
  reachable m ->
  exists k a, same_build (try_load_sprites a (new_fighter k)) (fighter s m).
Proof.
  induction 1 as [pk ek pa ea|inp m R (k & a & IH)].
  - destruct s; [exists pk, pa|exists ek, ea];
      unfold same_build, main_game_start, start_match, reset_position;
      cbn; repeat split.
  - exists k, a.
    apply (same_build_tick _ inp m s (reachable_well_formed m R) IH).
Qed.

(** Class, speed, jump strength, weight, base cooldown, the size of the
    rectangle and the animation table of both fighters are, all through a
    match, what the constructor and [try_load_sprites] made them. *)
Theorem build_is_constant (pk ek : Archetype) (pa ea : Assets) (m : Match) :
  reachable_from (main_game_start pk ek pa ea) m ->
  same_build (try_load_sprites pa (new_fighter pk)) (player m) /\
  same_build (try_load_sprites ea (new_fighter ek)) (enemy m).
Proof.
  induction 1 as [|inp m R [IH1 IH2]].
  - unfold same_build, main_game_start, start_match, reset_position.
    cbn. repeat split.
  - pose proof (reachable_well_formed m (reachable_from_start _ _ _ _ _ R))
      as W.
    split.
    + apply (same_build_tick _ inp m Player W IH1).
    + apply (same_build_tick _ inp m Enemy W IH2).
Qed.

Lemma build_is_constant_witness :
  same_build (try_load_sprites no_assets (new_fighter Ninja))
    (player (tick quiet_inputs ninja_vs_tank)) /\
  same_build (try_load_sprites no_assets (new_fighter Tank))
    (enemy (tick quiet_inputs ninja_vs_tank)).
Proof.
  apply (build_is_constant Ninja Tank no_assets no_assets).
  apply from_tick, from_start.
Defined.

Lemma tuning_weight k :
  (0.8 <= snd (fst (tuning k)))%Q /\ (snd (fst (tuning k)) <= 1.8)%Q.
Proof. destruct k; cbn; split; discriminate. Qed.

Lemma try_load_sprites_weight a c : weight (try_load_sprites a c) = weight c.
Proof. unfold try_load_sprites. now destruct (scale_txt a). Qed.

Lemma new_fighter_weight k : weight (new_fighter k) = snd (fst (tuning k)).
Proof. unfold new_fighter. now destruct (tuning k) as [[[? ?] ?] ?]. Qed.

(** In a match the floor of [max(0.5, weight)] is never reached: every
    fighter's weight lies between 0.8 and 1.8 at all times, so the impulse
    of a hit divides by the weight itself. *)
Theorem weight_floor_unused (m : Match) (s : Side) (b p : Q) :
  reachable m ->
  (0.8 <= weight (fighter s m))%Q /\ (weight (fighter s m) <= 1.8)%Q /\
  py_max 0.5 (weight (fighter s m)) = weight (fighter s m) /\
  (kb_force b p (weight (fighter s m))
   == b * (1 + p * 0.01) / weight (fighter s m))%Q.
Proof.
  intros R. destruct (reachable_build m s R) as (k & a & B).
  assert (W : (0.8 <= weight (fighter s m))%Q /\
              (weight (fighter s m) <= 1.8)%Q).
  { destruct B as (_ & _ & _ & -> & _).
    rewrite try_load_sprites_weight, new_fighter_weight.
    apply tuning_weight. }
  destruct W as [W1 W2]. split; [exact W1|]. split; [exact W2|].
  split; [apply py_max_right; lra | apply kb_force_heavy; lra].
Qed.

Lemma weight_floor_unused_witness :
  (0.8 <= weight (fighter Enemy ninja_vs_tank))%Q /\
  (weight (fighter Enemy ninja_vs_tank) <= 1.8)%Q /\
  py_max 0.5 (weight (fighter Enemy ninja_vs_tank))
    = weight (fighter Enemy ninja_vs_tank) /\
  (kb_force 10 6 (weight (fighter Enemy ninja_vs_tank))
   == 10 * (1 + 6 * 0.01) / weight (fighter Enemy ninja_vs_tank))%Q.
Proof.
  apply (weight_floor_unused ninja_vs_tank Enemy 10 6). apply reach_start.
Defined.

Lemma reachable_in_range_witness :
  in_range (player (tick quiet_inputs ninja_vs_tank)) /\
  in_range (enemy (tick quiet_inputs ninja_vs_tank)).
Proof.
  apply (reachable_in_range (tick quiet_inputs ninja_vs_tank)).
  apply reach_tick, reach_start.
Defined.

(** ** Stocks, match flags and the AI's timer over a match *)

Lemma respawned_stocks x c :
  1 < stocks c ->
  stocks (respawned x c) = stocks c - 1 /\ percent (respawned x c) = 0%Q.
Proof.
  intros L. split; [|reflexivity].
  unfold respawned. cbn. now apply on_ko_frame.
Qed.

Lemma ko_checks_stocks m s :
  stocks (fighter s (ko_checks m)) = stocks (fighter s m) \/
  (stocks (fighter s (ko_checks m)) = stocks (fighter s m) - 1 /\
   percent (fighter s (ko_checks m)) = 0%Q).
Proof.
  unfold ko_checks. set (m4 := check_ko Player _ m).
  assert (K1 : fighter s m4 = fighter s m \/
               (s = Player /\
                stocks (fighter s m4) = stocks (fighter s m) - 1 /\
                percent (fighter s m4) = 0%Q)).
  { subst m4.
    destruct (check_ko_cases Player (inject_Z WIDTH * 0.25) m s)
      as [E|(-> & L & _ & E)]; [now left|right]. rewrite E.
    split; [reflexivity|]. now apply respawned_stocks. }
  destruct (check_ko_cases Enemy (inject_Z WIDTH * 0.75) m4 s)
    as [E|(-> & L & _ & E)]; rewrite E.
  - destruct K1 as [->|(_ & K1)]; [now left|now right].
  - destruct K1 as [K1|(D & _)]; [|discriminate].
    rewrite <- K1. right. apply respawned_stocks. exact L.
Qed.

Lemma resolve_stocks clk m s :
  well_formed m ->
  stocks (fighter s (resolve clk m)) = stocks (fighter s m) \/
  (stocks (fighter s (resolve clk m)) = stocks (fighter s m) - 1 /\
   percent (fighter s (resolve clk m)) = 0%Q).
Proof.
  intros W. unfold resolve.
  destruct (stage_ok_collisions clk m W) as [_ R3].
  destruct (R3 s) as (_ & S3 & _). rewrite <- S3.
  generalize (apply_movement (resolve_projectiles (resolve_hitboxes clk m))).
  intros m3.
  assert (U : forall m5,
            stocks (fighter s (update_animations m5)) = stocks (fighter s m5)
            /\ percent (fighter s (update_animations m5))
               = percent (fighter s m5)).
  { intros m5. destruct s; cbn [fighter update_animations set_fighter
                                 player enemy];
      unfold update_animation; destruct (_ && _); now split. }
  destruct (U (ko_checks m3)) as [-> ->]. apply ko_checks_stocks.
Qed.

(** From one iteration to the next a fighter keeps its stocks or loses
    exactly one, and then its percent is 0; [on_ko]'s reset to three
    stocks never happens. *)
Theorem stocks_step (inp : Inputs) (m : Match) (s : Side) :
  reachable m ->
  stocks (fighter s (tick inp m)) = stocks (fighter s m) \/
  (stocks (fighter s (tick inp m)) = stocks (fighter s m) - 1 /\
   percent (fighter s (tick inp m)) = 0%Q).
Proof.
  intros R. apply reachable_well_formed in R.
  unfold tick. destruct (game_over m); [now left|].
  unfold simulate.
  destruct (act_ok inp m) as [W A]. destruct (A s) as (_ & A2 & _).
  rewrite <- A2. apply resolve_stocks. exact (W R).
Qed.

Lemma stocks_step_witness :
  stocks (fighter Player (tick quiet_inputs ninja_vs_tank))
    = stocks (fighter Player ninja_vs_tank) \/
  (stocks (fighter Player (tick quiet_inputs ninja_vs_tank))
     = stocks (fighter Player ninja_vs_tank) - 1 /\
   percent (fighter Player (tick quiet_inputs ninja_vs_tank)) = 0%Q).
Proof.
  apply (stocks_step quiet_inputs ninja_vs_tank Player). apply reach_start.
Defined.

Lemma check_ko_flags s x m :
  (game_over m = true <-> winner m <> None) ->
  (game_over (check_ko s x m) = true <-> winner (check_ko s x m) <> None).
Proof.
  intros I. unfold check_ko.
  destruct (out_of_bounds _); [|exact I].
  destruct (_ <=? 1); [cbn; split; [discriminate|reflexivity]|].
  rewrite (proj1 (set_fighter_flags _ _ _)), (proj2 (set_fighter_flags _ _ _)).
  exact I.
Qed.

(** All through a match [winner] is set exactly when [game_over] is. *)
Theorem winner_iff_game_over (m : Match) :
  reachable m -> (game_over m = true <-> winner m <> None).
Proof.
  induction 1 as [pk ek pa ea|inp m _ IH].
  - cbn. split; [discriminate|congruence].
  - unfold tick. destruct (game_over m) eqn:G; [now rewrite G|].
    unfold simulate, resolve, update_animations.
    rewrite !(proj1 (set_fighter_flags _ _ _)),
            !(proj2 (set_fighter_flags _ _ _)).
    unfold ko_checks. apply check_ko_flags, check_ko_flags.
    rewrite (proj1 (before_ko_flags _ _)), (proj2 (before_ko_flags _ _)).
    rewrite (proj1 (act_flags _ _)), (proj2 (act_flags _ _)), G.
    exact IH.
Qed.

Lemma winner_iff_game_over_witness :
  game_over (tick quiet_inputs ninja_vs_tank) = true <->
  winner (tick quiet_inputs ninja_vs_tank) <> None.
Proof.
  apply (winner_iff_game_over (tick quiet_inputs ninja_vs_tank)).
  apply reach_tick, reach_start.
Defined.

(** ** The decision engine *)

Lemma range_behavior_unit dist_x a g :
  unit_move (move a) ->
  unit_move (move (fst (runState (range_behavior dist_x a) g))).
Proof.
  intros H. rewrite range_behavior_move.
  destruct (_ >? 120); [|exact H].
  unfold unit_move. destruct (dist_x >? 0); auto.
Qed.

Lemma retreat_override_unit char dist_x a g :
  unit_move (move a) ->
  unit_move (move (fst (runState (retreat_override char dist_x a) g))).
Proof.
  intros H. unfold retreat_override.
  destruct (Qgtb _ _); [|exact H]. cbn.
  destruct (Qltb (floats g 0%nat) 0.5); [|exact H]. cbn.
  unfold unit_move. destruct (dist_x >? 0); auto.
Qed.

Lemma evade_unit char p : evade char p = -1 \/ evade char p = 1.
Proof. unfold evade. destruct (_ <? _); auto. Qed.

Lemma decide_now_cool self char target ps g :
  15 <= cool (snd (fst (runState (decide_now self char target ps) g))) <= 50.
Proof.
  rewrite decide_now_run. cbn zeta.
  destruct (runState (dodge_loop self char ps) _) as [d g2].
  destruct (runState (range_behavior _ _) g2) as [a1 g3].
  destruct (runState (retreat_override _ _ a1) g3) as [a2 g4].
  cbn [fst snd cool].
  pose proof (Z.mod_pos_bound (ints g 0%nat) 26 eq_refl).
  destruct d; lia.
Qed.

Lemma decide_now_unit self char target ps g :
  unit_move (move (fst (fst (runState (decide_now self char target ps) g)))).
Proof.
  rewrite decide_now_run. cbn zeta.
  destruct (runState (dodge_loop self char ps) _) as [d g2] eqn:D.
  set (a0 := match d with
             | Some (mv, j) => mkAction mv j false false false
             | None => mkAction 0 false false false false
             end).
  assert (U0 : unit_move (move a0)).
  { subst a0. destruct d as [[mv j]|]; cbn; [|right; now left].
    apply dodge_loop_some in D. destruct D as (_ & p & _ & _ & _ & -> & _).
    unfold unit_move. destruct (evade_unit char p); auto. }
  clearbody a0.
  pose proof (range_behavior_unit
                (R.centerx (rect target) - R.centerx (rect char)) a0 g2 U0)
    as U1.
  destruct (runState (range_behavior _ _) g2) as [a1 g3]. cbn [fst] in U1.
  pose proof (retreat_override_unit char
                (R.centerx (rect target) - R.centerx (rect char)) a1 g3 U1)
    as U2.
  now destruct (runState (retreat_override _ _ a1) g3) as [a2 g4].
Qed.

(** With the timer running, [decide] makes no decision: it returns the
    facing move with no jump, heavy or special, keeps the AI's state, and
    consumes one draw, for the rare light attack. *)
Lemma decide_waiting self char target ps ai0 g :
  0 < cool ai0 ->
  runState (decide self char target ps ai0) g =
  ((mkAction
      (if Z.abs (R.centerx (rect target) - R.centerx (rect char)) >? 30
       then if R.centerx (rect target) >? R.centerx (rect char)
            then 1 else -1
       else 0)
      false (Qltb (floats g 0%nat) 0.02) false false, ai0),
   skip_floats 1 g).
Proof.
  intros H. unfold decide, decide_default.
  destruct (Z.leb_spec (cool ai0) 0); [lia|]. reflexivity.
Qed.

Lemma decide_timer self char target ps ai0 g :
  snd (evalState (decide self char target ps ai0) g) = ai0 \/
  15 <= cool (snd (evalState (decide self char target ps ai0) g)) <= 50.
Proof.
  unfold evalState.
  destruct (Z.leb_spec (cool ai0) 0) as [C|C].
  - destruct (Qlt_le_dec (floats g 0%nat) 0.18) as [D|D].
    + rewrite decide_gate_open by assumption.
      right; apply decide_now_cool.
    + unfold decide, decide_default. apply Z.leb_le in C.
      apply Qltb_ge in D. cbn. rewrite C. cbn. rewrite D. cbn. now left.
  - rewrite decide_waiting by assumption. cbn. now left.
Qed.

(** Whatever the state of the match and of the generator, the move
    [decide] returns is -1, 0 or 1, and the timer it leaves is the one it
    found or a fresh one between 15 and 50. *)
Theorem decide_well_formed (self : Side) (char target : Fighter)
    (ps : list Projectile) (ai0 : SimpleAI) (g : RNG) :
  let res := evalState (decide self char target ps ai0) g in
  unit_move (move (fst res)) /\
  (snd res = ai0 \/ 15 <= cool (snd res) <= 50).
Proof.
  cbn zeta. split; [|apply decide_timer]. unfold evalState.
  destruct (Z.leb_spec (cool ai0) 0) as [C|C].
  - destruct (Qlt_le_dec (floats g 0%nat) 0.18) as [D|D].
    + rewrite decide_gate_open by assumption. apply decide_now_unit.
    + unfold decide, decide_default. apply Z.leb_le in C.
      apply Qltb_ge in D. cbn. rewrite C. cbn. rewrite D. cbn.
      unfold unit_move.
      destruct (_ >? 30); [destruct (_ >? _)|]; auto.
  - rewrite decide_waiting by assumption. cbn.
    unfold unit_move.
    destruct (_ >? 30); [destruct (_ >? _)|]; auto.
Qed.

Lemma dodge_loop_none self char ps : forall g,
  (forall p, In p ps -> threatens self char p = false) ->
  runState (dodge_loop self char ps) g = (None, g).
Proof.
  induction ps as [|p ps IH]; intros g H; cbn [dodge_loop]; [reflexivity|].
  rewrite (H p) by now left. apply IH. intros q Hq. apply H. now right.
Qed.

(** A decision taken far from the target (more than 220 units) with no
    projectile in dodge range and percent at most 120: the intent is to
    move toward the target, with the special flag set exactly when the next
    draw is under 0.2 and nothing else; the timer is set between 15 and
    40. *)
Theorem far_range_intent (self : Side) (char target : Fighter)
    (ps : list Projectile) (ai0 : SimpleAI) (g : RNG) :
  cool ai0 <= 0 ->
  (floats g 0%nat < 0.18)%Q ->
  (forall p, In p ps -> threatens self char p = false) ->
  220 < Z.abs (R.centerx (rect target) - R.centerx (rect char)) ->
  (percent char <= 120)%Q ->
  let res := evalState (decide self char target ps ai0) g in
  fst res =
    mkAction (if R.centerx (rect target) - R.centerx (rect char) >? 0
              then 1 else -1)
      false false false (Qltb (floats g 1%nat) 0.2) /\
  action (snd res) = fst res /\
  cool (snd res) = 15 + ints g 0%nat mod 26 /\
  15 <= cool (snd res) <= 40.
Proof.
  intros C D T F P. cbn zeta. unfold evalState.
  rewrite decide_gate_open, decide_now_run by assumption. cbn zeta.
  rewrite dodge_loop_none by assumption.
  unfold range_behavior. apply Z.gtb_lt in F. rewrite F.
  cbn -[Z.add Z.modulo].
  rewrite retreat_override_calm by assumption. cbn -[Z.add Z.modulo].
  pose proof (Z.mod_pos_bound (ints g 0%nat) 26 eq_refl).
  repeat split; try lia;
    now destruct (Qltb (floats g 1%nat) 0.2).
Qed.

Lemma far_range_intent_witness :
  let res := evalState (decide Enemy ai_tank far_mage [] SimpleAI_init)
               far_draws in
  fst res =
    mkAction (if R.centerx (rect far_mage) - R.centerx (rect ai_tank) >? 0
              then 1 else -1)
      false false false (Qltb (floats far_draws 1%nat) 0.2) /\
  action (snd res) = fst res /\
  cool (snd res) = 15 + ints far_draws 0%nat mod 26 /\
  15 <= cool (snd res) <= 40.
Proof.
  apply (far_range_intent Enemy ai_tank far_mage [] SimpleAI_init far_draws);
    [vm_compute; discriminate | reflexivity | intros p []
    | vm_compute; reflexivity | vm_compute; discriminate].
Defined.

(** The same decision above 120 percent, when the retreat draw is under
    0.5: the move is away from the target instead, the jump flag follows
    the draw after it, and the special flag stays what the range block
    made it. *)
Theorem far_range_retreat (self : Side) (char target : Fighter)
    (ps : list Projectile) (ai0 : SimpleAI) (g : RNG) :
  cool ai0 <= 0 ->
  (floats g 0%nat < 0.18)%Q ->
  (forall p, In p ps -> threatens self char p = false) ->
  220 < Z.abs (R.centerx (rect target) - R.centerx (rect char)) ->
  (120 < percent char)%Q ->
  (floats g 2%nat < 0.5)%Q ->
  fst (evalState (decide self char target ps ai0) g) =
    mkAction (if R.centerx (rect target) - R.centerx (rect char) >? 0
              then -1 else 1)
      (Qltb (floats g 3%nat) 0.6) false false
      (Qltb (floats g 1%nat) 0.2).
Proof.
  intros C D T F P X. unfold evalState.
  rewrite decide_gate_open, decide_now_run by assumption. cbn zeta.
  rewrite dodge_loop_none by assumption.
  unfold range_behavior. apply Z.gtb_lt in F. rewrite F. cbn.
  unfold retreat_override. apply Qgtb_gt in P. rewrite P. cbn.
  apply Qltb_lt in X. rewrite X. cbn.
  now destruct (Qltb (floats g 1%nat) 0.2), (Qltb (floats g 3%nat) 0.6).
Qed.

Lemma far_range_retreat_witness :
  fst (evalState (decide Enemy hurt_tank far_mage [] SimpleAI_init)
         retreat_draws) =
    mkAction (if R.centerx (rect far_mage) - R.centerx (rect hurt_tank) >? 0
              then -1 else 1)
      (Qltb (floats retreat_draws 3%nat) 0.6) false false
      (Qltb (floats retreat_draws 1%nat) 0.2).
Proof.
  apply (far_range_retreat Enemy hurt_tank far_mage [] SimpleAI_init
           retreat_draws);
    [vm_compute; discriminate | reflexivity | intros p []
    | vm_compute; reflexivity | reflexivity | reflexivity].
Defined.

Lemma set_fighter_ai s f m : ai (set_fighter s f m) = ai m.
Proof. now destruct s. Qed.

Lemma check_ko_ai s x m : ai (check_ko s x m) = ai m.
Proof.
  unfold check_ko. destruct (out_of_bounds _); [|reflexivity].
  destruct (_ <=? 1); [reflexivity|apply set_fighter_ai].
Qed.

Lemma resolve_attacks_ai s clk m : ai (resolve_attacks s clk m) = ai m.
Proof.
  unfold resolve_attacks. destruct (hit_loop _ _ _) as [t atks].
  now destruct s.
Qed.

Lemma resolve_ai clk m : ai (resolve clk m) = ai m.
Proof.
  unfold resolve, update_animations, ko_checks, apply_movement,
    resolve_hitboxes.
  rewrite !set_fighter_ai, !check_ko_ai, !set_fighter_ai.
  unfold resolve_projectiles.
  destruct (projectile_loop _ _ _) as [[pl en] ps]. cbn [ai].
  now rewrite !resolve_attacks_ai.
Qed.

(** What an iteration makes of the AI's state: the outcome of [decide]
    on the state [update] left. *)
Lemma tick_ai inp m :
  game_over m = false ->
  exists pl ps,
    ai (tick inp m) =
    snd (evalState (decide Enemy (enemy m) pl ps (SimpleAI_update (ai m)))
           (rng inp)).
Proof.
  intros G. unfold tick. rewrite G. unfold simulate. rewrite resolve_ai.
  unfold act.
  destruct (fighter_turn Player _ _ _ _) as [pl ps]. exists pl, ps.
  destruct (evalState _ _) as [ai_action ai2].
  now destruct (fighter_turn Enemy _ _ _ _) as [en ps'].
Qed.

(** While more than one tick is left on the timer an iteration only
    counts it down. *)
Lemma tick_counts_down inp m :
  game_over m = false -> 1 < cool (ai m) ->
  ai (tick inp m) = mkAI (cool (ai m) - 1) (action (ai m)).
Proof.
  intros G C. destruct (tick_ai inp m G) as (pl & ps & ->).
  unfold evalState, SimpleAI_update.
  destruct (Z.gtb_spec (cool (ai m)) 0); [|lia].
  rewrite decide_waiting by (cbn; lia). reflexivity.
Qed.

(** The AI's timer stays between 0 and 50 all through a match. *)
Theorem cool_in_range (m : Match) :
  reachable m -> 0 <= cool (ai m) <= 50.
Proof.
  induction 1 as [pk ek pa ea|inp m _ IH]; [cbn; lia|].
  destruct (game_over m) eqn:G; [now rewrite tick_game_over|].
  destruct (tick_ai inp m G) as (pl & ps & ->).
  assert (U : 0 <= cool (SimpleAI_update (ai m)) <= 50).
  { unfold SimpleAI_update. destruct (Z.gtb_spec (cool (ai m)) 0); cbn; lia. }
  destruct (decide_timer Enemy (enemy m) pl ps
              (SimpleAI_update (ai m)) (rng inp)) as [->|D];
    [exact U|lia].
Qed.

Lemma cool_in_range_witness :
  0 <= cool (ai (tick quiet_inputs ninja_vs_tank)) <= 50.
Proof.
  apply (cool_in_range (tick quiet_inputs ninja_vs_tank)).
  apply reach_tick, reach_start.
Defined.

(** After the timer has been set to [c], no decision is taken in the next
    [c - 1] iterations: the stored action stays, and the timer goes down by
    one per iteration for as long as the match is on. *)
Theorem no_decision_while_cooling (inps : list Inputs) : forall m : Match,
  Z.of_nat (length inps) < cool (ai m) ->
  action (ai (run inps m)) = action (ai m) /\
  cool (ai m) - Z.of_nat (length inps) <= cool (ai (run inps m)) /\
  (game_over (run inps m) = false ->
   cool (ai (run inps m)) = cool (ai m) - Z.of_nat (length inps)).
Proof.
  induction inps as [|inp inps IH]; intros m H.
  - cbn. split; [reflexivity|]. split; [lia|intros _; lia].
  - cbn [run fold_left]. fold (run inps (tick inp m)).
    cbn [length] in *. rewrite Nat2Z.inj_succ in *.
    destruct (game_over m) eqn:G.
    + rewrite (tick_game_over inp m G).
      destruct (IH m ltac:(lia)) as (I1 & I2 & I3).
      split; [exact I1|]. split; [lia|].
      intros O. exfalso.
      assert (F : forall l m0, game_over m0 = true ->
                               game_over (run l m0) = true).
      { clear. induction l as [|i l IHl]; intros m0 Hm; [exact Hm|].
        cbn [run fold_left]. fold (run l (tick i m0)).
        apply IHl. now rewrite tick_game_over. }
      rewrite (F inps m G) in O. discriminate.
    + pose proof (tick_counts_down inp m G ltac:(lia)) as E.
      destruct (IH (tick inp m)) as (I1 & I2 & I3).
      { rewrite E. cbn. lia. }
      rewrite E in I1, I2, I3. cbn [cool action] in I1, I2, I3.
      split; [exact I1|]. split; [lia|]. intros O. rewrite (I3 O). lia.
Qed.

Lemma no_decision_while_cooling_witness :
  action (ai (run [quiet_inputs; quiet_inputs] cooling_match))
    = action (ai cooling_match) /\
  cool (ai cooling_match) - Z.of_nat (length [quiet_inputs; quiet_inputs])
    <= cool (ai (run [quiet_inputs; quiet_inputs] cooling_match)) /\
  (game_over (run [quiet_inputs; quiet_inputs] cooling_match) = false ->
   cool (ai (run [quiet_inputs; quiet_inputs] cooling_match))
   = cool (ai cooling_match)
     - Z.of_nat (length [quiet_inputs; quiet_inputs])).
Proof.
  apply (no_decision_while_cooling [quiet_inputs; quiet_inputs]
           cooling_match).
  vm_compute. reflexivity.
Defined.

(** ** Rectangles: clamping, hitboxes, projectiles *)

Lemma clamp_axis_spec p s bp bs :
  0 <= s < bs ->
  bp <= R.clamp_axis p s bp bs /\ R.clamp_axis p s bp bs + s <= bp + bs /\
  (bp <= p -> p + s <= bp + bs -> R.clamp_axis p s bp bs = p).
Proof.
  intros H. unfold R.clamp_axis.
  destruct (Z.geb_spec s bs); [lia|].
  destruct (Z.ltb_spec p bp); [lia|].
  destruct (Z.gtb_spec (p + s) (bp + bs)); lia.
Qed.

(** [clamp_ip] puts a rectangle that fits inside the bounds, keeps its
    size, does nothing to a rectangle already inside, and so does nothing
    when applied a second time. *)
Lemma clamp_ip_inside (b r : Rect) :
  0 <= rw r < rw b -> 0 <= rh r < rh b ->
  inside b (R.clamp_ip b r) /\
  rw (R.clamp_ip b r) = rw r /\ rh (R.clamp_ip b r) = rh r /\
  (inside b r -> R.clamp_ip b r = r) /\
  R.clamp_ip b (R.clamp_ip b r) = R.clamp_ip b r.
Proof.
  intros Hw Hh.
  destruct (clamp_axis_spec (rx r) (rw r) (rx b) (rw b) Hw) as (X1 & X2 & X3).
  destruct (clamp_axis_spec (ry r) (rh r) (ry b) (rh b) Hh) as (Y1 & Y2 & Y3).
  assert (I : inside b (R.clamp_ip b r)) by (unfold inside; cbn; lia).
  split; [exact I|]. split; [reflexivity|]. split; [reflexivity|].
  split.
  - intros (A1 & A2 & A3 & A4). unfold R.clamp_ip.
    rewrite X3, Y3 by assumption. now destruct r.
  - unfold R.clamp_ip at 1. cbn [rx ry rw rh R.clamp_ip].
    destruct (clamp_axis_spec (R.clamp_axis (rx r) (rw r) (rx b) (rw b))
                (rw r) (rx b) (rw b) Hw) as (_ & _ & ->); [|lia|lia].
    destruct (clamp_axis_spec (R.clamp_axis (ry r) (rh r) (ry b) (rh b))
                (rh r) (ry b) (rh b) Hh) as (_ & _ & ->); [|lia|lia].
    reflexivity.
Qed.

(** The clamp of the main loop puts a fighter inside the rectangle from
    (-500, -500) to (1500, 1100) without resizing it or touching anything
    but its position, leaves a fighter that is inside where it is, and does
    nothing when applied twice. *)
Theorem clamp_to_arena_inside (c : Fighter) :
  0 <= rw (rect c) < 2000 -> 0 <= rh (rect c) < 1600 ->
  inside ARENA (rect (clamp_to_arena c)) /\
  -500 <= R.left (rect (clamp_to_arena c)) /\
  R.right (rect (clamp_to_arena c)) <= 1500 /\
  -500 <= R.top (rect (clamp_to_arena c)) /\
  R.bottom (rect (clamp_to_arena c)) <= 1100 /\
  clamp_to_arena c = set_rect (rect (clamp_to_arena c)) c /\
  rw (rect (clamp_to_arena c)) = rw (rect c) /\
  rh (rect (clamp_to_arena c)) = rh (rect c) /\
  (inside ARENA (rect c) -> rect (clamp_to_arena c) = rect c) /\
  clamp_to_arena (clamp_to_arena c) = clamp_to_arena c.
Proof.
  intros Hw Hh.
  destruct (clamp_ip_inside ARENA (rect c) Hw Hh) as (I & W & H & K & D).
  change (rect (clamp_to_arena c)) with (R.clamp_ip ARENA (rect c)).
  split; [exact I|].
  destruct I as (I1 & I2 & I3 & I4). cbn [rx ry rw rh ARENA] in I1, I2, I3, I4.
  unfold R.left, R.right, R.top, R.bottom.
  change (WIDTH + 1000) with 2000 in I2. change (HEIGHT + 1000) with 1600 in I4.
  repeat split; try lia; try assumption.
  unfold clamp_to_arena at 1.
  change (rect (clamp_to_arena c)) with (R.clamp_ip ARENA (rect c)).
  change (mkRect (-500) (-500) (WIDTH + 1000) (HEIGHT + 1000)) with ARENA.
  rewrite D. reflexivity.
Qed.

Lemma clamp_to_arena_inside_witness :
  let c := fighter_at Tank 1700 (-900) in
  inside ARENA (rect (clamp_to_arena c)) /\
  -500 <= R.left (rect (clamp_to_arena c)) /\
  R.right (rect (clamp_to_arena c)) <= 1500 /\
  -500 <= R.top (rect (clamp_to_arena c)) /\
  R.bottom (rect (clamp_to_arena c)) <= 1100 /\
  clamp_to_arena c = set_rect (rect (clamp_to_arena c)) c /\
  rw (rect (clamp_to_arena c)) = rw (rect c) /\
  rh (rect (clamp_to_arena c)) = rh (rect c) /\
  (inside ARENA (rect c) -> rect (clamp_to_arena c) = rect c) /\
  clamp_to_arena (clamp_to_arena c) = clamp_to_arena c.
Proof.
  apply (clamp_to_arena_inside (fighter_at Tank 1700 (-900)));
    vm_compute; split; congruence.
Defined.

Lemma py_int_nonneg q : (0 <= q)%Q -> 0 <= py_int q.
Proof.
  intros H. unfold py_int. apply Z.quot_pos; [|reflexivity].
  unfold Qle in H. cbn in H. lia.
Qed.

(** A rectangle put against the right side of [r], or against its left
    side, does not overlap [r]. *)
Lemma right_clear (r : Rect) (reach y h : Z) :
  0 <= reach -> 0 <= rw r ->
  R.colliderect (mkRect (R.right r) y reach h) r = false.
Proof.
  intros Hr Hw. unfold R.colliderect, R.right. cbn [rx ry rw rh].
  destruct (_ || _); [reflexivity|].
  destruct (Z.ltb_spec (Z.min (rx r + rw r) (rx r + rw r + reach))
              (Z.max (rx r) (rx r + rw r))); [lia|reflexivity].
Qed.

Lemma left_clear (r : Rect) (reach y h : Z) :
  0 <= reach -> 0 <= rw r ->
  R.colliderect (mkRect (R.left r - reach) y reach h) r = false.
Proof.
  intros Hr Hw. unfold R.colliderect, R.left. cbn [rx ry rw rh].
  destruct (_ || _); [reflexivity|].
  destruct (Z.ltb_spec (Z.min (rx r) (rx r + rw r))
              (Z.max (rx r - reach) (rx r - reach + reach)));
    [lia|now rewrite !andb_false_r].
Qed.

(** Every hitbox a successful attack appends lies beside its owner and
    does not overlap the owner's rectangle, the brawler's special, which is
    centred on the brawler, excepted. *)
Theorem melee_hitbox_beside_owner (v : Variant) (s : Side) (now : Z)
    (c : Fighter) :
  0 <= rw (rect c) ->
  ~ (v = SpecialV /\ cls c = Brawler) ->
  exists new,
    active_attacks (fst (attack v s now c)) = active_attacks c ++ new /\
    Forall (fun h => R.colliderect (hb_rect h)
                       (rect (fst (attack v s now c))) = false) new.
Proof.
  intros Hw N.
  assert (R6 := py_int_nonneg (inject_Z (R.width (rect c)) * 0.6)).
  assert (R9 := py_int_nonneg (inject_Z (R.width (rect c)) * 0.9)).
  assert (R7 := py_int_nonneg (inject_Z (R.width (rect c)) * 0.7)).
  assert (Q : forall k : Q, (0 <= k)%Q ->
                (0 <= inject_Z (R.width (rect c)) * k)%Q).
  { intros k Hk. apply Qmult_le_0_compat; [|exact Hk].
    change 0%Q with (inject_Z 0). rewrite <- Zle_Qle. exact Hw. }
  assert (P6 : (0 <= 0.6)%Q) by discriminate.
  assert (P9 : (0 <= 0.9)%Q) by discriminate.
  assert (P7 : (0 <= 0.7)%Q) by discriminate.
  specialize (R6 (Q _ P6)). specialize (R9 (Q _ P9)).
  specialize (R7 (Q _ P7)). clear Q P6 P9 P7.
  destruct c as [k r vx vy sp js og fc pc wt aa lt cd st a1 a2 cs].
  cbn [rect cls] in *. unfold_attacks. cbn [cls].
  destruct v, k; try (exfalso; apply N; now split);
    cbn [last_attack_time attack_cooldown];
    (match goal with |- context [if ?b then _ else _] => destruct b end;
     [cbn [fst active_attacks]; exists []; split;
        [symmetry; apply app_nil_r|apply Forall_nil] | ]);
    unfold trigger_attack_anim, trigger_special_anim, append_attack,
      Boxer_punch, front_rect;
    cbn -[R.colliderect R.right R.left R.centery R.top R.height Z.mul
          Z.add Z.sub Z.eqb];
    destruct (fc =? 1);
    cbn -[R.colliderect R.right R.left R.centery R.top R.height Z.mul
          Z.add Z.sub];
    try (destruct a1); try (destruct a2);
    cbn -[R.colliderect R.right R.left R.centery R.top R.height Z.mul
          Z.add Z.sub];
    rewrite <- ?app_assoc;
    first [ exists []; split; [symmetry; apply app_nil_r|apply Forall_nil]
          | eexists; split; [reflexivity|];
            repeat (apply Forall_cons;
                    [first [apply right_clear | apply left_clear];
                     cbn [rw R.move_x]; lia|]);
            apply Forall_nil ].
Qed.

Lemma melee_hitbox_beside_owner_witness :
  exists new,
    active_attacks (fst (attack SpecialV Player 1000 (fighter_at Ninja 250 440)))
      = active_attacks (fighter_at Ninja 250 440) ++ new /\
    Forall (fun h => R.colliderect (hb_rect h)
                       (rect (fst (attack SpecialV Player 1000
                                     (fighter_at Ninja 250 440)))) = false)
      new.
Proof.
  apply (melee_hitbox_beside_owner SpecialV Player 1000
           (fighter_at Ninja 250 440));
    [vm_compute; discriminate | intros [_ H]; discriminate].
Defined.

(** An attack that returns a projectile is a special of the mage, the
    archer, the robot or the gunner, or the gunner's light attack, never a
    heavy attack (whose result the main loop drops).  The projectile is
    alive, owned by the attacker, starts wholly on the side the attacker
    faces, and flies that way. *)
Theorem projectile_spawn (v : Variant) (s : Side) (now : Z) (c : Fighter)
    (p : Projectile) :
  facing c = 1 \/ facing c = -1 ->
  snd (attack v s now c) = Proj p ->
  v <> Heavy /\
  ((v = SpecialV /\
    (cls c = Mage \/ cls c = Archer \/ cls c = Robot \/ cls c = Gunner)) \/
   (v = Light /\ cls c = Gunner)) /\
  p_owner p = s /\ p_alive p = true /\
  active_attacks (fst (attack v s now c)) = active_attacks c /\
  (facing c = 1 ->
     R.centerx (rect c) < R.left (p_rect p) /\ (0 < p_vel_x p)%Q) /\
  (facing c = -1 ->
     R.right (p_rect p) < R.centerx (rect c) /\ (p_vel_x p < 0)%Q).
Proof.
  intros F H.
  destruct c as [k r vx vy sp js og fc pc wt aa lt cd st a1 a2 cs].
  cbn [facing cls rect active_attacks] in *. unfold_attacks. cbn [cls] in H.
  cbn [cls].
  destruct v, k; cbn [last_attack_time attack_cooldown] in *;
    match type of H with context [if ?b then _ else _] => destruct b end;
    unfold trigger_attack_anim, trigger_special_anim in H;
    cbn in H; try discriminate;
    try (destruct a1; discriminate); try (destruct a2; discriminate);
    injection H as <-;
    (split; [discriminate|]);
    (split; [first [left; split; [reflexivity|]; tauto
                   | right; split; reflexivity]|]);
    (split; [reflexivity|]); (split; [reflexivity|]);
    (split; [reflexivity|]);
    unfold R.centerx, R.left, R.right; cbn;
    destruct F as [-> | ->]; cbn; split; intros E; try discriminate;
    (split; [lia|reflexivity]).
Qed.

Lemma projectile_spawn_witness :
  let c := fighter_at Gunner 250 440 in
  let p := new_projectile (250 + 32 + 28) (440 + 40 - 6) 16 (-1) Player
             14 16 12 in
  SpecialV <> Heavy /\
  ((SpecialV = SpecialV /\
    (cls c = Mage \/ cls c = Archer \/ cls c = Robot \/ cls c = Gunner)) \/
   (SpecialV = Light /\ cls c = Gunner)) /\
  p_owner p = Player /\ p_alive p = true /\
  active_attacks (fst (attack SpecialV Player 1000 c)) = active_attacks c /\
  (facing c = 1 ->
     R.centerx (rect c) < R.left (p_rect p) /\ (0 < p_vel_x p)%Q) /\
  (facing c = -1 ->
     R.right (p_rect p) < R.centerx (rect c) /\ (p_vel_x p < 0)%Q).
Proof.
  apply (projectile_spawn SpecialV Player 1000 (fighter_at Gunner 250 440));
    [left; reflexivity | reflexivity].
Defined.

(** ** The collision loops *)

Lemma connects_receive_hit a d b src target :
  connects a (receive_hit d b src target) = connects a target.
Proof. reflexivity. Qed.

(** The hitbox loop: the target's percent goes up by the damage of the
    hitboxes that overlap it while alive, each counted once; these
    hitboxes come out dead, the others as they were; and the target's
    rectangle, stocks and own hitboxes are untouched. *)
Theorem hit_loop_accounting (owner : Fighter) (atks : list Hitbox)
    (target : Fighter) :
  let target' := fst (hit_loop owner atks target) in
  (percent target'
   == percent target + inject_Z (connecting_damage atks target))%Q /\
  snd (hit_loop owner atks target)
    = map (fun a => if connects a target then kill a else a) atks /\
  rect target' = rect target /\ stocks target' = stocks target /\
  active_attacks target' = active_attacks target.
Proof.
  cbn zeta. revert target.
  induction atks as [|a atks IH]; intros target; cbn [hit_loop].
  - unfold connecting_damage. cbn. repeat split. ring.
  - unfold connecting_damage. cbn [filter].
    destruct (connects a target) eqn:C.
    + specialize (IH (receive_hit (inject_Z (hb_damage a))
                        (inject_Z (hb_knockback a)) owner target)).
      destruct (hit_loop owner atks _) as [t rest]. cbn [fst snd] in *.
      destruct IH as (I1 & I2 & I3 & I4 & I5).
      split; [|split; [|split; [|split]]]; try assumption.
      * rewrite I1, receive_hit_percent. unfold connecting_damage.
        cbn [map fold_right]. rewrite inject_Z_plus.
        assert (E : filter (fun a0 => connects a0
                      (receive_hit (inject_Z (hb_damage a))
                         (inject_Z (hb_knockback a)) owner target)) atks
                    = filter (fun a0 => connects a0 target) atks)
          by reflexivity.
        rewrite E. ring.
      * cbn [map]. rewrite C. f_equal. exact I2.
    + specialize (IH target).
      destruct (hit_loop owner atks target) as [t rest]. cbn [fst snd] in *.
      destruct IH as (I1 & I2 & I3 & I4 & I5).
      split; [exact I1|]. split; [|now repeat split].
      cbn [map]. rewrite C. f_equal. exact I2.
Qed.

Lemma projectile_loop_own_player ps : forall pl en,
  (forall p, In p ps -> p_owner p = Player) ->
  fst (fst (projectile_loop ps pl en)) = pl.
Proof.
  induction ps as [|p ps IH]; intros pl en H;
    [reflexivity|rewrite projectile_loop_cons].
  assert (O : p_owner p = Player) by (apply H; now left).
  assert (H' : forall q, In q ps -> p_owner q = Player)
    by (intros q Hq; apply H; now right).
  rewrite O. cbn [Side_eqb andb].
  destruct (R.colliderect (p_rect p) (rect en)); [now apply IH|].
  specialize (IH pl en H').
  now destruct (projectile_loop ps pl en) as [[pl' en'] ps'].
Qed.

Lemma projectile_loop_own_enemy ps : forall pl en,
  (forall p, In p ps -> p_owner p = Enemy) ->
  snd (fst (projectile_loop ps pl en)) = en.
Proof.
  induction ps as [|p ps IH]; intros pl en H;
    [reflexivity|rewrite projectile_loop_cons].
  assert (O : p_owner p = Enemy) by (apply H; now left).
  assert (H' : forall q, In q ps -> p_owner q = Enemy)
    by (intros q Hq; apply H; now right).
  rewrite O. cbn [Side_eqb andb].
  destruct (R.colliderect (p_rect p) (rect pl)); [now apply IH|].
  specialize (IH pl en H').
  now destruct (projectile_loop ps pl en) as [[pl' en'] ps'].
Qed.

(** No attack affects its owner: projectiles that all belong to one
    fighter leave that fighter exactly as it was, and the hitbox loop of
    an owner changes nothing of the owner but its list of hitboxes. *)
Theorem no_self_hit (s : Side) (clk : Clock) (m : Match) :
  (forall p, In p (projectiles m) -> p_owner p = s) ->
  fighter s (resolve_projectiles m) = fighter s m /\
  exists atks,
    fighter s (resolve_attacks s clk m) = set_active_attacks atks (fighter s m).
Proof.
  intros H. split.
  - unfold resolve_projectiles.
    pose proof (projectile_loop_own_player (projectiles m) (player m)
                  (enemy m)) as L1.
    pose proof (projectile_loop_own_enemy (projectiles m) (player m)
                  (enemy m)) as L2.
    destruct (projectile_loop _ _ _) as [[pl en] ps]. cbn [fst snd] in *.
    destruct s; cbn [fighter player enemy]; auto.
  - unfold resolve_attacks. destruct (hit_loop _ _ _) as [t atks].
    exists (prune (t_prune clk s) atks). now destruct s.
Qed.

Lemma no_self_hit_witness :
  fighter Player (resolve_projectiles shot_match) = fighter Player shot_match
  /\
  exists atks,
    fighter Player (resolve_attacks Player (clock quiet_inputs) shot_match)
    = set_active_attacks atks (fighter Player shot_match).
Proof.
  apply (no_self_hit Player (clock quiet_inputs) shot_match).
  intros p [<-|[]]. reflexivity.
Defined.

(** ** Projectiles in flight *)

Lemma fly_frame n p :
  p_alive (fly n p) = p_alive p /\
  rw (p_rect (fly n p)) = rw (p_rect p) /\
  p_vel_x (fly n p) = p_vel_x p /\ p_vel_y (fly n p) = p_vel_y p /\
  rx (p_rect (fly n p)) = rx (p_rect p) + Z.of_nat n * py_int (p_vel_x p) /\
  ry (p_rect (fly n p)) = ry (p_rect p) + Z.of_nat n * py_int (p_vel_y p).
Proof.
  induction n as [|n IH].
  - cbn. repeat split; lia.
  - change (fly (S n) p) with (Projectile_update (fly n p)).
    rewrite Nat2Z.inj_succ.
    destruct IH as (A1 & A2 & A3 & A4 & A5 & A6).
    unfold Projectile_update.
    cbn [p_alive p_vel_x p_vel_y p_rect rx ry rw rh R.move_x R.move_y].
    rewrite A1, A2, A3, A4, A5, A6. repeat split; lia.
Qed.

Lemma gone_after (p : Projectile) (n : nat) :
  0 <= rw (p_rect p) ->
  WIDTH + 200 + Z.abs (rx (p_rect p)) + rw (p_rect p)
    < Z.of_nat n * Z.abs (py_int (p_vel_x p)) ->
  projectile_gone (fly n p) = true.
Proof.
  intros Hw Hn.
  destruct (fly_frame n p) as (_ & A2 & _ & _ & A5 & _).
  unfold projectile_gone, R.right, R.left. rewrite A2, A5.
  unfold WIDTH in *.
  destruct (Z.ltb_spec
              (rx (p_rect p) + Z.of_nat n * py_int (p_vel_x p)
               + rw (p_rect p)) (-100)) as [L|L];
    [now rewrite orb_true_r|].
  destruct (Z.gtb_spec
              (rx (p_rect p) + Z.of_nat n * py_int (p_vel_x p))
              (1000 + 100)) as [L'|L'];
    [now rewrite orb_true_r|]. exfalso.
  destruct (Z.abs_spec (py_int (p_vel_x p))) as [[? E]|[? E]];
    rewrite E in Hn; nia.
Qed.

(** A projectile moves in a straight line, [int(vel)] per update; if it
    moves horizontally at all it is beyond the removal bounds after
    finitely many updates, and the update loop then drops it: no
    projectile stays in the list for ever. *)
Theorem projectile_leaves (p : Projectile) (n : nat) :
  0 <= rw (p_rect p) ->
  WIDTH + 200 + Z.abs (rx (p_rect p)) + rw (p_rect p)
    < Z.of_nat n * Z.abs (py_int (p_vel_x p)) ->
  rx (p_rect (fly n p)) = rx (p_rect p) + Z.of_nat n * py_int (p_vel_x p) /\
  ry (p_rect (fly n p)) = ry (p_rect p) + Z.of_nat n * py_int (p_vel_y p) /\
  projectile_gone (fly n p) = true /\
  update_projectiles [fly n p] = [].
Proof.
  intros Hw Hn.
  destruct (fly_frame n p) as (_ & _ & _ & _ & A5 & A6).
  split; [exact A5|]. split; [exact A6|].
  split; [now apply gone_after|].
  unfold update_projectiles. cbn [map filter].
  change (Projectile_update (fly n p)) with (fly (S n) p).
  rewrite gone_after; [reflexivity|exact Hw|].
  rewrite Nat2Z.inj_succ. lia.
Qed.

Lemma projectile_leaves_witness :
  rx (p_rect (fly 200 shot)) = rx (p_rect shot)
    + Z.of_nat 200 * py_int (p_vel_x shot) /\
  ry (p_rect (fly 200 shot)) = ry (p_rect shot)
    + Z.of_nat 200 * py_int (p_vel_y shot) /\
  projectile_gone (fly 200 shot) = true /\
  update_projectiles [fly 200 shot] = [].
Proof.
  apply (projectile_leaves shot 200); vm_compute; congruence.
Defined.

(** ** Respawn *)

Lemma respawned_rect x c :
  rect (respawned x c)
  = R.set_center (py_int x) (GROUND_Y - R.height (rect c) / 2) (rect c).
Proof.
  unfold respawned, on_ko. cbn. now destruct (_ <=? 0).
Qed.

(** A respawned fighter is centred on its spawn column, stands on the
    ground line (one unit into it when its height is odd) and is inside
    the KO bounds; so a second [check_ko] on the same fighter changes
    nothing, and one fall costs one stock. *)
Theorem respawn_in_bounds (s : Side) (x : Q) (m : Match) :
  0 <= rw (rect (fighter s m)) -> 0 <= rh (rect (fighter s m)) ->
  -200 <= py_int x <= WIDTH + 200 ->
  let c' := respawned x (fighter s m) in
  R.centerx (rect c') = py_int x /\
  GROUND_Y <= R.bottom (rect c') <= GROUND_Y + 1 /\
  out_of_bounds (rect c') = false /\
  check_ko s x (check_ko s x m) = check_ko s x m.
Proof.
  intros Hw Hh Hx. cbn zeta.
  assert (B : forall c, 0 <= rw (rect c) -> 0 <= rh (rect c) ->
      R.centerx (rect (respawned x c)) = py_int x /\
      GROUND_Y <= R.bottom (rect (respawned x c)) <= GROUND_Y + 1 /\
      out_of_bounds (rect (respawned x c)) = false).
  { intros c Cw Ch. rewrite respawned_rect.
    unfold R.centerx, R.bottom, R.set_center, R.height, out_of_bounds,
      R.top, R.right, R.left.
    cbn [rx ry rw rh]. unfold GROUND_Y, HEIGHT, WIDTH in *.
    pose proof (Z.quot_div_nonneg (rh (rect c)) 2 Ch ltac:(lia)) as Q2.
    pose proof (Z.div_mod (rh (rect c)) 2 ltac:(lia)) as D.
    pose proof (Z.mod_pos_bound (rh (rect c)) 2 ltac:(lia)) as M.
    pose proof (Z.quot_pos (rw (rect c)) 2 Cw ltac:(lia)) as Qw.
    pose proof (Z.quot_le_upper_bound (rw (rect c)) 2 (rw (rect c))
                  ltac:(lia) ltac:(lia)) as Qu.
    rewrite Q2.
    split; [lia|]. split; [lia|].
    destruct (Z.gtb_spec (600 - 80 - rh (rect c) / 2 - rh (rect c) / 2)
                (600 + 200)); [lia|].
    destruct (Z.ltb_spec (py_int x - rw (rect c) ÷ 2 + rw (rect c)) (-200));
      [lia|].
    destruct (Z.gtb_spec (py_int x - rw (rect c) ÷ 2) (1000 + 200));
      [lia|reflexivity]. }
  destruct (B (fighter s m) Hw Hh) as (B1 & B2 & B3).
  split; [exact B1|]. split; [exact B2|]. split; [exact B3|].
  destruct (out_of_bounds (rect (fighter s m))) eqn:O.
  - destruct (Z.leb_spec (stocks (fighter s m)) 1) as [L|L].
    + rewrite (check_ko_last_stock s x m O L).
      rewrite check_ko_last_stock; [reflexivity| |]; destruct s; assumption.
    + assert (E : fighter s (check_ko s x m) = respawned x (fighter s m)).
      { destruct (check_ko_cases s x m s) as [E|(_ & _ & _ & E)]; [|exact E].
        exfalso. unfold check_ko in E. rewrite O in E.
        destruct (Z.leb_spec (stocks (fighter s m)) 1); [lia|].
        rewrite fighter_set_same in E.
        assert (S : stocks (fighter s m) = stocks (on_ko (fighter s m)))
          by (rewrite <- E at 1; reflexivity).
        destruct (on_ko_frame (fighter s m)) as (_ & _ & K).
        rewrite K in S; lia. }
      apply check_ko_in_bounds. rewrite E. exact B3.
  - rewrite (check_ko_in_bounds s x m O). now apply check_ko_in_bounds.
Qed.

Lemma respawn_in_bounds_witness :
  let c' := respawned (inject_Z WIDTH * 0.25)
              (fighter Player first_ko_state) in
  R.centerx (rect c') = py_int (inject_Z WIDTH * 0.25) /\
  GROUND_Y <= R.bottom (rect c') <= GROUND_Y + 1 /\
  out_of_bounds (rect c') = false /\
  check_ko Player (inject_Z WIDTH * 0.25)
    (check_ko Player (inject_Z WIDTH * 0.25) first_ko_state)
  = check_ko Player (inject_Z WIDTH * 0.25) first_ko_state.
Proof.
  apply (respawn_in_bounds Player (inject_Z WIDTH * 0.25) first_ko_state);
    vm_compute; try split; congruence.
Defined.

(** ** Standing on the ground *)

Lemma py_int_small q : (-1 < q < 1)%Q -> py_int q = 0.
Proof.
  destruct q as [n d]. unfold Qlt, py_int. cbn [Qnum Qden]. intros [A B].
  apply Z.quot_small_iff; lia.
Qed.

Lemma no_land_below f plat :
  (inject_Z (R.top plat + 6) < inject_Z (R.bottom (rect f)) - vel_y f)%Q ->
  lands_on f plat = false.
Proof.
  intros H. destruct (lands_on f plat) eqn:L; [|reflexivity].
  apply lands_on_iff in L. destruct L as (_ & _ & L). lra.
Qed.

Lemma no_land_apart f plat :
  R.colliderect (rect f) plat = false -> lands_on f plat = false.
Proof. intros H. unfold lands_on. now rewrite H. Qed.

Lemma clamp_to_arena_id g :
  0 <= rw (rect g) < 2000 -> 0 <= rh (rect g) < 1600 ->
  inside ARENA (rect g) -> clamp_to_arena g = g.
Proof.
  intros Hw Hh I.
  destruct (clamp_ip_inside ARENA (rect g) Hw Hh) as (_ & _ & _ & K & _).
  unfold clamp_to_arena.
  change (mkRect (-500) (-500) (WIDTH + 1000) (HEIGHT + 1000)) with ARENA.
  rewrite (K I). now destruct g.
Qed.

(** Resting contact is no collision: a fighter whose bottom edge is on
    the ground's top edge is airborne after the platform loop. *)
Lemma platforms_resting g :
  R.bottom (rect g) = GROUND_Y ->
  0 < rw (rect g) <= 500 -> 0 < rh (rect g) <= 1000 ->
  - rw (rect g) < rx (rect g) < WIDTH ->
  (vel_y g < 84)%Q ->
  handle_platform_collisions (clamp_to_arena g) = set_on_ground false g.
Proof.
  intros B Hw Hh Hx Hv.
  unfold R.bottom, GROUND_Y, HEIGHT in B. unfold WIDTH in Hx.
  rewrite clamp_to_arena_id;
    [|lia|lia|unfold inside, ARENA, WIDTH, HEIGHT; cbn [rx ry rw rh]; lia].
  unfold handle_platform_collisions, handle_platform_collisions_on.
  apply loop_no_landing. intros p Hp.
  assert (Bq : inject_Z (R.bottom (rect (set_on_ground false g))) == 520).
  { unfold R.bottom. destruct g as [k [x y w h] vx vy sp js og fc pc wt aa lt cd st a1 a2 cs].
    cbn [rect set_on_ground rx ry rw rh] in *.
    replace (y + h) with 520 by lia. reflexivity. }
  assert (Vq : vel_y (set_on_ground false g) = vel_y g) by now destruct g.
  destruct Hp as [<-|[<-|[<-|[<-|[]]]]].
  - apply no_land_apart.
    destruct g as [k [x y w h] vx vy sp js og fc pc wt aa lt cd st a1 a2 cs].
    cbn [rect set_on_ground rx ry rw rh] in *.
    unfold R.colliderect, GROUND_Y, HEIGHT, WIDTH. cbn [rx ry rw rh].
    destruct (_ || _); [reflexivity|].
    assert (E : (Z.min (600 - 80) (600 - 80 + 80) <? Z.max y (y + h)) = false)
      by (apply Z.ltb_ge; lia).
    rewrite E. apply andb_false_r.
  - apply no_land_below. rewrite Bq, Vq.
    change (inject_Z _) with (376 # 1). lra.
  - apply no_land_below. rewrite Bq, Vq.
    change (inject_Z _) with (436 # 1). lra.
  - apply no_land_below. rewrite Bq, Vq.
    change (inject_Z _) with (436 # 1). lra.
Qed.

(** A fighter that has sunk [d] pixels into the ground while falling no
    faster than [d + 6] lands on it, and on nothing else. *)
Lemma platforms_sunk g d :
  R.bottom (rect g) = GROUND_Y + d -> 0 < d <= 80 ->
  0 < rw (rect g) <= 500 -> 0 < rh (rect g) <= 1000 ->
  - rw (rect g) < rx (rect g) < WIDTH ->
  (0 <= vel_y g)%Q -> (inject_Z d - vel_y g <= 6)%Q ->
  handle_platform_collisions (clamp_to_arena g)
  = land (set_on_ground false g) (mkRect 0 GROUND_Y WIDTH 80).
Proof.
  intros B Hd Hw Hh Hx Hv Hs.
  unfold R.bottom, GROUND_Y, HEIGHT in B. unfold WIDTH in Hx.
  rewrite clamp_to_arena_id;
    [|lia|lia|unfold inside, ARENA, WIDTH, HEIGHT; cbn [rx ry rw rh]; lia].
  unfold handle_platform_collisions, handle_platform_collisions_on, PLATFORMS.
  cbn [fold_left].
  set (ground := mkRect 0 GROUND_Y WIDTH 80).
  assert (L : lands_on (set_on_ground false g) ground = true).
  { apply lands_on_iff.
    destruct g as [k [x y w h] vx vy sp js og fc pc wt aa lt cd st a1 a2 cs].
    cbn [rect vel_y set_on_ground rx ry rw rh] in *.
    split; [|split; [exact Hv|]].
    - unfold R.colliderect, ground, GROUND_Y, HEIGHT, WIDTH.
      cbn [rx ry rw rh].
      replace ((w =? 0) || (h =? 0) || (1000 =? 0) || (80 =? 0)) with false
        by (symmetry; rewrite !orb_false_iff; repeat split;
            try apply Z.eqb_neq; lia).
      rewrite !andb_true_iff. repeat split; apply Z.ltb_lt; lia.
    - unfold R.bottom, R.top, ground, GROUND_Y, HEIGHT. cbn [rx ry rw rh].
      replace (y + h) with (520 + d) by lia.
      change (600 - 80 + 6) with 526.
      rewrite inject_Z_plus.
      change (inject_Z 520) with (520 # 1). change (inject_Z 526) with (526 # 1).
      lra. }
  unfold platform_step at 4. rewrite L.
  assert (Bq : inject_Z (R.bottom (rect (land (set_on_ground false g) ground)))
               == 520).
  { destruct (land_spec (set_on_ground false g) ground) as (-> & _).
    reflexivity. }
  assert (Vq : vel_y (land (set_on_ground false g) ground) = 0%Q)
    by apply land_spec.
  unfold platform_step at 3.
  rewrite no_land_below
    by (rewrite Bq, Vq; change (inject_Z _) with (376 # 1); lra).
  unfold platform_step at 2.
  rewrite no_land_below
    by (rewrite Bq, Vq; change (inject_Z _) with (436 # 1); lra).
  unfold platform_step.
  rewrite no_land_below
    by (rewrite Bq, Vq; change (inject_Z _) with (436 # 1); lra).
  reflexivity.
Qed.

Lemma idle_input g f :
  let f' := apply_input 0 false (update_physics g f) in
  rect f' = rect f /\ vel_y f' = (vel_y f + g)%Q /\
  vel_x f' = (if on_ground f then vel_x f * 0.85 else vel_x f)%Q /\
  on_ground f' = on_ground f.
Proof.
  destruct f as [k r vx vy sp js og fc pc wt aa lt cd st a1 a2 cs].
  unfold update_physics, apply_input.
  cbn [set_vel_y on_ground negb Z.eqb andb]. now destruct og.
Qed.

Lemma idle_output g :
  let f := update_animation (integrate g) in
  rect f = R.move_y (py_int (vel_y g)) (R.move_x (py_int (vel_x g)) (rect g)) /\
  vel_x f = vel_x g /\ vel_y f = vel_y g /\ on_ground f = on_ground g.
Proof.
  destruct g as [k r vx vy sp js og fc pc wt aa lt cd st a1 a2 cs].
  unfold update_animation, integrate.
  cbn [set_rect vel_x vel_y rect on_ground].
  now destruct (_ && _).
Qed.

Lemma slowed vx (og : bool) :
  (-1 < vx < 1)%Q -> (-1 < (if og then vx * 0.85 else vx) < 1)%Q.
Proof. intros H. destruct og; [|exact H]. lra. Qed.

(** One frame without input for a fighter whose bottom edge is on the
    ground's top edge: it comes out airborne, moved down by its fall
    speed in whole pixels. *)
Lemma idle_step_resting f :
  R.bottom (rect f) = GROUND_Y ->
  0 < rw (rect f) <= 500 -> 0 < rh (rect f) <= 1000 ->
  - rw (rect f) < rx (rect f) < WIDTH ->
  (-1 < vel_x f < 1)%Q -> (vel_y f + GRAVITY < 84)%Q ->
  on_ground (idle_step f) = false /\
  rect (idle_step f) = R.move_y (py_int (vel_y f + GRAVITY)) (rect f) /\
  vel_y (idle_step f) = (vel_y f + GRAVITY)%Q /\
  (-1 < vel_x (idle_step f) < 1)%Q.
Proof.
  intros B Hw Hh Hx Hvx Hvy. unfold idle_step.
  destruct (idle_input GRAVITY f) as (R1 & V1 & X1 & _).
  set (f' := apply_input 0 false (update_physics GRAVITY f)) in *.
  clearbody f'.
  rewrite platforms_resting; [|rewrite R1; assumption ..|rewrite V1; exact Hvy].
  destruct (idle_output (set_on_ground false f')) as (R2 & X2 & V2 & G2).
  rewrite R2, X2, V2, G2.
  assert (E : vel_x (set_on_ground false f') = vel_x f') by now destruct f'.
  assert (E' : vel_y (set_on_ground false f') = vel_y f') by now destruct f'.
  assert (E'' : rect (set_on_ground false f') = rect f') by now destruct f'.
  rewrite E, E', E'', X1, V1, R1.
  pose proof (slowed (vel_x f) (on_ground f) Hvx) as S.
  rewrite (py_int_small _ S).
  split; [now destruct f'|]. split; [|split; [reflexivity|exact S]].
  destruct (rect f) as [x y w h]. unfold R.move_y, R.move_x. cbn [rx ry rw rh].
  f_equal. lia.
Qed.

(** The same frame for a fighter that has sunk [d] pixels into the
    ground: it is put back on the ground's top edge, at rest and
    grounded. *)
Lemma idle_step_sunk f d :
  R.bottom (rect f) = GROUND_Y + d -> 0 < d <= 80 ->
  0 < rw (rect f) <= 500 -> 0 < rh (rect f) <= 1000 ->
  - rw (rect f) < rx (rect f) < WIDTH ->
  (-1 < vel_x f < 1)%Q ->
  (0 <= vel_y f + GRAVITY)%Q -> (inject_Z d - (vel_y f + GRAVITY) <= 6)%Q ->
  on_ground (idle_step f) = true /\
  rect (idle_step f) = R.set_bottom GROUND_Y (rect f) /\
  vel_y (idle_step f) = 0%Q /\
  (-1 < vel_x (idle_step f) < 1)%Q.
Proof.
  intros B Hd Hw Hh Hx Hvx Hv0 Hv6. unfold idle_step.
  destruct (idle_input GRAVITY f) as (R1 & V1 & X1 & _).
  set (f' := apply_input 0 false (update_physics GRAVITY f)) in *.
  clearbody f'.
  rewrite (platforms_sunk f' d);
    [|rewrite R1; assumption|assumption|rewrite R1; assumption ..
     |rewrite V1; assumption|rewrite V1; assumption].
  set (ground := mkRect 0 GROUND_Y WIDTH 80).
  destruct (idle_output (land (set_on_ground false f') ground))
    as (R2 & X2 & V2 & G2).
  rewrite R2, X2, V2, G2.
  assert (E : vel_x (land (set_on_ground false f') ground) = vel_x f')
    by now destruct f'.
  assert (E' : vel_y (land (set_on_ground false f') ground) = 0%Q)
    by now destruct f'.
  assert (E'' : rect (land (set_on_ground false f') ground)
                = R.set_bottom GROUND_Y (rect f')) by now destruct f'.
  rewrite E, E', E'', X1, R1.
  pose proof (slowed (vel_x f) (on_ground f) Hvx) as S.
  rewrite (py_int_small _ S).
  split; [now destruct f'|]. split; [|split; [reflexivity|exact S]].
  destruct (rect f) as [x y w h].
  unfold R.move_y, R.move_x, R.set_bottom. cbn [rx ry rw rh].
  change (py_int 0) with 0. f_equal; lia.
Qed.

(** A fighter standing on the ground with no input does not stay
    grounded: resting contact is no collision, so the frame after a
    landing it is airborne without having moved, the next frame it has
    sunk one pixel, and the third frame it lands again where it stood.
    [on_ground], which [apply_input] requires for a jump, therefore holds
    in one frame of three, and a jump asked for in the other two is
    dropped. *)
Theorem standing_cycle (e : Fighter) :
  standing e ->
  let e1 := idle_step e in
  let e2 := idle_step e1 in
  let e3 := idle_step e2 in
  (on_ground e1 = false /\ rect e1 = rect e) /\
  (on_ground e2 = false /\ rect e2 = R.move_y 1 (rect e)) /\
  (on_ground e3 = true /\ rect e3 = rect e) /\
  standing e3 /\
  (forall mv g,
     apply_input mv true (update_physics g e1)
     = apply_input mv false (update_physics g e1)) /\
  (forall mv g,
     apply_input mv true (update_physics g e2)
     = apply_input mv false (update_physics g e2)).
Proof.
  intros (B & Hw & Hh & Hx & Vy & Vx) e1 e2 e3.
  assert (Q1 : (vel_y e + GRAVITY < 84)%Q) by (rewrite Vy; reflexivity).
  destruct (idle_step_resting e B Hw Hh Hx Vx Q1) as (G1 & R1 & Y1 & X1).
  change (idle_step e) with e1 in G1, R1, Y1, X1. clearbody e1.
  rewrite Vy in R1, Y1.
  change (py_int (0 + GRAVITY)) with 0 in R1.
  assert (R1' : rect e1 = rect e).
  { rewrite R1. destruct (rect e) as [x y w h]. unfold R.move_y.
    cbn [rx ry rw rh]. f_equal. lia. }
  clear R1.
  assert (Q2 : (vel_y e1 + GRAVITY < 84)%Q) by (rewrite Y1; reflexivity).
  destruct (idle_step_resting e1) as (G2 & R2 & Y2 & X2);
    [rewrite R1'; exact B|rewrite R1'; exact Hw|rewrite R1'; exact Hh
    |rewrite R1'; exact Hx|exact X1|exact Q2|].
  change (idle_step e1) with e2 in G2, R2, Y2, X2. clearbody e2.
  rewrite Y1 in R2, Y2.
  change (py_int (0 + GRAVITY + GRAVITY)) with 1 in R2.
  rewrite R1' in R2.
  assert (B2 : R.bottom (rect e2) = GROUND_Y + 1).
  { rewrite R2. unfold R.bottom, R.move_y in *. cbn [rx ry rw rh]. lia. }
  assert (W2 : rw (rect e2) = rw (rect e)) by (rewrite R2; reflexivity).
  assert (H2 : rh (rect e2) = rh (rect e)) by (rewrite R2; reflexivity).
  assert (XX2 : rx (rect e2) = rx (rect e)) by (rewrite R2; reflexivity).
  assert (Q3 : (0 <= vel_y e2 + GRAVITY)%Q) by (rewrite Y2; discriminate).
  assert (Q4 : (inject_Z 1 - (vel_y e2 + GRAVITY) <= 6)%Q)
    by (rewrite Y2; discriminate).
  destruct (idle_step_sunk e2 1 B2) as (G3 & R3 & Y3 & X3);
    [lia|rewrite W2; exact Hw|rewrite H2; exact Hh
    |rewrite W2, XX2; exact Hx|exact X2|exact Q3|exact Q4|].
  change (idle_step e2) with e3 in G3, R3, Y3, X3. clearbody e3.
  assert (R3' : rect e3 = rect e).
  { rewrite R3, R2. unfold R.bottom, R.set_bottom, R.move_y in *.
    destruct (rect e) as [x y w h]. cbn [rx ry rw rh] in *. f_equal. lia. }
  assert (J : forall c mv g, on_ground c = false ->
              apply_input mv true (update_physics g c)
              = apply_input mv false (update_physics g c)).
  { intros c mv g Hc.
    destruct c as [k r vx vy sp js og fc pc wt aa lt cd st a1 a2 cs].
    cbn [on_ground] in Hc. subst og. unfold update_physics, apply_input.
    cbn [set_vel_y on_ground]. destruct (negb (mv =? 0)); reflexivity. }
  split; [split; [exact G1|exact R1']|].
  split; [split; [exact G2|exact R2]|].
  split; [split; [exact G3|exact R3']|].
  split; [|split; intros mv g; apply J; assumption].
  unfold standing. rewrite R3'.
  split; [exact B|]. split; [exact Hw|]. split; [exact Hh|].
  split; [exact Hx|]. split; [exact Y3|exact X3].
Qed.

Lemma standing_cycle_witness :
  let e := player ninja_vs_tank in
  let e1 := idle_step e in
  let e2 := idle_step e1 in
  let e3 := idle_step e2 in
  e1 = player (tick quiet_inputs ninja_vs_tank) /\
  (on_ground e1 = false /\ rect e1 = rect e) /\
  (on_ground e2 = false /\ rect e2 = R.move_y 1 (rect e)) /\
  (on_ground e3 = true /\ rect e3 = rect e) /\
  standing e3 /\
  (forall mv g,
     apply_input mv true (update_physics g e1)
     = apply_input mv false (update_physics g e1)) /\
  (forall mv g,
     apply_input mv true (update_physics g e2)
     = apply_input mv false (update_physics g e2)).
Proof.
  split; [vm_compute; reflexivity|].
  apply (standing_cycle (player ninja_vs_tank)).
  unfold standing. vm_compute. repeat split; first [reflexivity|discriminate].
Defined.

(** ** The animation state *)

Lemma update_animation_state c :
  current_state (update_animation c) = Idle \/
  current_state (update_animation c) = Run.
Proof.
  unfold update_animation. destruct (_ && _); [right|left]; reflexivity.
Qed.

Lemma update_animations_state m s :
  current_state (fighter s (update_animations m)) = Idle \/
  current_state (fighter s (update_animations m)) = Run.
Proof.
  unfold update_animations. destruct s; cbn [fighter set_fighter player enemy];
    apply update_animation_state.
Qed.

(** The attack methods set [current_state] to "attack" or "special" when
    such an animation is loaded, but the loop ends every iteration with
    [update_animation], which overwrites it before anything is drawn: at
    the top of the loop, and so whenever a fighter is drawn, the state is
    "idle" or "run". *)
Theorem attack_state_never_kept (m : Match) (s : Side) :
  reachable m ->
  current_state (fighter s m) = Idle \/ current_state (fighter s m) = Run.
Proof.
  induction 1 as [pk ek pa ea|inp m _ IH].
  - left. unfold main_game_start, start_match, try_load_sprites, new_fighter.
    destruct s; cbn [fighter player enemy].
    + destruct (tuning pk) as [[[? ?] ?] ?]. now destruct (scale_txt pa).
    + destruct (tuning ek) as [[[? ?] ?] ?]. now destruct (scale_txt ea).
  - unfold tick. destruct (game_over m); [exact IH|].
    apply update_animations_state.
Qed.

Lemma attack_state_never_kept_witness :
  let m := animated_match in
  current_state (fst (attack Light Player 1000 (player m))) = Attack /\
  (current_state (fighter Player (tick light_key_inputs m)) = Idle \/
   current_state (fighter Player (tick light_key_inputs m)) = Run).
Proof.
  split; [vm_compute; reflexivity|].
  apply (attack_state_never_kept (tick light_key_inputs animated_match) Player).
  apply reach_tick, reach_start.
Defined.

(** ** Hitboxes that have hit *)

Lemma hit_loop_output owner atks : forall target,
  snd (hit_loop owner atks target)
  = map (fun a => if connects a target then kill a else a) atks.
Proof.
  induction atks as [|a atks IH]; intros target; cbn [hit_loop map];
    [reflexivity|].
  destruct (connects a target) eqn:C.
  - specialize (IH (receive_hit (inject_Z (hb_damage a))
                      (inject_Z (hb_knockback a)) owner target)).
    destruct (hit_loop owner atks _) as [t rest]. cbn [snd] in *.
    now rewrite IH.
  - specialize (IH target).
    destruct (hit_loop owner atks target) as [t rest]. cbn [snd] in *.
    now rewrite IH.
Qed.

Lemma prune_keeps atks : forall clk a,
  In a (prune clk atks) ->
  In a atks /\ hb_alive a = true /\ exists n, clk n - hb_time a < 600.
Proof.
  induction atks as [|b atks IH]; intros clk a H; cbn [prune] in H;
    [destruct H|].
  destruct (hb_alive b) eqn:L.
  - destruct (clk 0%nat - hb_time b <? 600) eqn:T.
    + destruct H as [<-|H].
      * split; [now left|]. split; [exact L|]. exists 0%nat.
        now apply Z.ltb_lt.
      * destruct (IH _ _ H) as (I & A & n & Hn).
        split; [now right|]. split; [exact A|]. now exists (S n).
    + destruct (IH _ _ H) as (I & A & n & Hn).
      split; [now right|]. split; [exact A|]. now exists (S n).
  - destruct (IH _ _ H) as (I & A & n & Hn).
    split; [now right|]. split; [exact A|]. now exists n.
Qed.

(** A hitbox hits once at most: after the loop over an owner's hitboxes
    and the pruning that follows it, every hitbox still in the owner's
    list was in it before, is alive, did not overlap the target in this
    iteration, and was younger than 600 ms at one of the clock samples. *)
Theorem spent_hitboxes_removed (s : Side) (clk : Clock) (m : Match)
    (a : Hitbox) :
  In a (active_attacks (fighter s (resolve_attacks s clk m))) ->
  In a (active_attacks (fighter s m)) /\ hb_alive a = true /\
  R.colliderect (hb_rect a) (rect (fighter (other s) m)) = false /\
  exists n, t_prune clk s n - hb_time a < 600.
Proof.
  unfold resolve_attacks.
  pose proof (hit_loop_output (fighter s m) (active_attacks (fighter s m))
                (fighter (other s) m)) as O.
  destruct (hit_loop _ _ _) as [target atks]. cbn [snd] in O.
  rewrite fighter_set_same. intros H.
  assert (H' : In a (prune (t_prune clk s) atks)) by exact H.
  clear H. apply prune_keeps in H'. destruct H' as (I & A & E).
  rewrite O in I. apply in_map_iff in I. destruct I as (b & Eb & Ib).
  destruct (connects b (fighter (other s) m)) eqn:C.
  - subst a. discriminate A.
  - subst b. split; [exact Ib|]. split; [exact A|]. split; [|exact E].
    unfold connects in C. rewrite A, andb_true_r in C. exact C.
Qed.

Lemma spent_hitboxes_removed_witness :
  let m := swing_match in
  let a := mkHitbox (mkRect 164 470 38 20) 6 6 1000 true in
  In a (active_attacks (fighter Player m)) /\ hb_alive a = true /\
  R.colliderect (hb_rect a) (rect (fighter Enemy m)) = false /\
  exists n, t_prune (clock light_key_inputs) Player n - hb_time a < 600.
Proof.
  apply (spent_hitboxes_removed Player (clock light_key_inputs) swing_match).
  vm_compute. left. reflexivity.
Defined.

(** ** Animated sprites *)

Lemma py_getitem_in_range {A : Type} (l : list A) (i : Z) :
  0 <= i < Z.of_nat (length l) ->
  exists a, py_getitem l i = Some a /\
            nth_error l (Z.to_nat i) = Some a /\ In a l.
Proof.
  intros H. unfold py_getitem.
  replace ((0 <=? i) && (i <? Z.of_nat (length l))) with true
    by (symmetry; apply andb_true_iff; split;
        [apply Z.leb_le|apply Z.ltb_lt]; lia).
  destruct (nth_error l (Z.to_nat i)) as [a|] eqn:E.
  - exists a. repeat split. now apply nth_error_In in E.
  - apply nth_error_None in E. lia.
Qed.

Lemma update_keeps_frames {A : Type} dt (s : AnimatedSprite A) :
  spr_frames (AnimatedSprite_update dt s) = spr_frames s /\
  spr_loop (AnimatedSprite_update dt s) = spr_loop s /\
  spr_frame_time (AnimatedSprite_update dt s) = spr_frame_time s.
Proof.
  destruct s as [fr ft lp tm ix]. unfold AnimatedSprite_update.
  cbn [spr_frames spr_loop spr_frame_time spr_time spr_index].
  destruct fr; [now repeat split|]. destruct (Qgeb _ _); now repeat split.
Qed.

Lemma update_index {A : Type} dt (s : AnimatedSprite A) :
  let n := Z.of_nat (length (spr_frames s)) in
  0 <= spr_index s < n ->
  spr_index (AnimatedSprite_update dt s)
  = if Qgeb (spr_time s + dt) (spr_frame_time s) then
      if spr_loop s then (spr_index s + 1) mod n
      else Z.min (spr_index s + 1) (n - 1)
    else spr_index s.
Proof.
  intros n H. subst n. destruct s as [fr ft lp tm ix].
  unfold AnimatedSprite_update.
  cbn [spr_frames spr_loop spr_frame_time spr_time spr_index] in *.
  destruct fr as [|a l]; [cbn in H; lia|].
  set (n := Z.of_nat (length (a :: l))) in *.
  destruct (Qgeb _ _); cbn [spr_index]; [|reflexivity].
  destruct (ix + 1 >=? n) eqn:G.
  - apply Z.geb_le in G. assert (K : ix + 1 = n) by lia.
    destruct lp; [rewrite K, Z.mod_same; lia|lia].
  - rewrite Z.geb_leb in G. apply Z.leb_gt in G.
    destruct lp; [rewrite Z.mod_small; lia|lia].
Qed.

Lemma animate_in_range {A : Type} dts : forall s : AnimatedSprite A,
  0 <= spr_index s < Z.of_nat (length (spr_frames s)) ->
  spr_frames (animate dts s) = spr_frames s /\
  0 <= spr_index (animate dts s) < Z.of_nat (length (spr_frames s)).
Proof.
  induction dts as [|dt dts IH]; intros s H; cbn [animate fold_left];
    [now split|].
  destruct (update_keeps_frames dt s) as (F & _ & _).
  destruct (IH (AnimatedSprite_update dt s)) as (F' & I').
  - rewrite F, (update_index dt s H).
    destruct (Qgeb _ _); [|exact H].
    destruct (spr_loop s); [apply Z.mod_pos_bound|]; lia.
  - unfold animate in *. rewrite F', F in *. now split.
Qed.

Lemma animate_no_frames {A : Type} dts : forall s : AnimatedSprite A,
  spr_frames s = [] -> animate dts s = s.
Proof.
  induction dts as [|dt dts IH]; intros s H; cbn [animate fold_left];
    [reflexivity|].
  assert (E : AnimatedSprite_update dt s = s)
    by (unfold AnimatedSprite_update; now rewrite H).
  rewrite E. now apply IH.
Qed.

(** However an animation is advanced after its construction, [current()]
    does not raise: without frames the sprite never changes and
    [current()] returns [None]; with frames the index stays within the
    list and [current()] returns one of them. *)
Theorem sprite_current_defined (A : Type) (frames : list A) (frame_time : Q)
    (loop : bool) (dts : list Q) :
  let s := animate dts (AnimatedSprite_init frames frame_time loop) in
  spr_frames s = frames /\
  AnimatedSprite_current s <> IndexError /\
  (frames = [] ->
   s = AnimatedSprite_init frames frame_time loop /\
   AnimatedSprite_current s = NoFrame) /\
  (frames <> [] ->
   0 <= spr_index s < Z.of_nat (length frames) /\
   exists a, AnimatedSprite_current s = Frame a /\ In a frames).
Proof.
  intros s. destruct frames as [|a l].
  - assert (E : s = AnimatedSprite_init [] frame_time loop)
      by now apply animate_no_frames.
    rewrite E. cbn. repeat split; congruence.
  - destruct (animate_in_range dts (AnimatedSprite_init (a :: l) frame_time loop))
      as (F & I); [cbn; lia|].
    fold s in F, I. cbn [AnimatedSprite_init spr_frames] in F, I.
    destruct (py_getitem_in_range (a :: l) (spr_index s) I)
      as (b & G & _ & Hb).
    assert (C : AnimatedSprite_current s = Frame b)
      by (unfold AnimatedSprite_current; now rewrite F, G).
    split; [exact F|]. split; [rewrite C; discriminate|].
    split; [discriminate|]. intros _. split; [exact I|]. now exists b.
Qed.



(** ** The selection screen *)

Lemma selection_loop_closed evs rest : forall idx,
  0 <= idx < 10 ->
  Forall (fun e => e <> EvQuit /\ e <> EvReturn) evs ->
  selection_loop idx (evs ++ EvReturn :: rest)
  = match py_getitem CHARACTER_CLASSES
            ((idx + presses EvRight evs - presses EvLeft evs) mod 10) with
    | Some c => Chosen c
    | None => SelectionError
    end.
Proof.
  induction evs as [|e evs IH]; intros idx Hi H.
  - cbn [app selection_loop]. unfold presses. cbn [filter length Z.of_nat].
    replace (idx + 0 - 0) with idx by lia. now rewrite Z.mod_small.
  - apply Forall_cons_iff in H. destruct H as ((Q & T) & H).
    change (Z.of_nat (length CHARACTER_CLASSES)) with 10 in *.
    destruct e; try congruence; cbn [app selection_loop];
      change (Z.of_nat (length CHARACTER_CLASSES)) with 10.
    + rewrite IH; [|apply Z.mod_pos_bound; lia|exact H].
      unfold presses. cbn [filter Event_eqb length].
      rewrite Nat2Z.inj_succ.
      set (r := Z.of_nat (length (filter (Event_eqb EvRight) evs))).
      set (l := Z.of_nat (length (filter (Event_eqb EvLeft) evs))).
      replace ((idx + 1) mod 10 + r - l) with ((idx + 1) mod 10 + (r - l))
        by lia.
      rewrite Z.add_mod_idemp_l by lia.
      replace (idx + 1 + (r - l)) with (idx + Z.succ r - l) by lia.
      reflexivity.
    + rewrite IH; [|apply Z.mod_pos_bound; lia|exact H].
      unfold presses. cbn [filter Event_eqb length].
      rewrite Nat2Z.inj_succ.
      set (r := Z.of_nat (length (filter (Event_eqb EvRight) evs))).
      set (l := Z.of_nat (length (filter (Event_eqb EvLeft) evs))).
      replace ((idx - 1) mod 10 + r - l) with ((idx - 1) mod 10 + (r - l))
        by lia.
      rewrite Z.add_mod_idemp_l by lia.
      replace (idx - 1 + (r - l)) with (idx + r - Z.succ l) by lia.
      reflexivity.
    + rewrite IH; [|exact Hi|exact H]. reflexivity.
Qed.

(** Whatever keys are pressed before Return, short of closing the
    window, [character_selection] returns a class and [choices[idx]] does
    not raise: the class is the one at position (presses of Right less
    presses of Left) modulo 10 of [CHARACTER_CLASSES], and so never the
    base class [Character]. *)
Theorem character_selection_pick (evs rest : list Event) :
  Forall (fun e => e <> EvQuit /\ e <> EvReturn) evs ->
  let i := (presses EvRight evs - presses EvLeft evs) mod 10 in
  0 <= i < 10 /\
  exists c,
    character_selection (evs ++ EvReturn :: rest) = Chosen c /\
    nth_error CHARACTER_CLASSES (Z.to_nat i) = Some c /\
    c <> Character.
Proof.
  intros H i.
  assert (Hi : 0 <= i < 10) by (apply Z.mod_pos_bound; lia).
  split; [exact Hi|].
  destruct (py_getitem_in_range CHARACTER_CLASSES i Hi) as (c & G & N & I).
  exists c. split; [|split; [exact N|]].
  - unfold character_selection.
    rewrite (selection_loop_closed evs rest 0) by (lia || exact H).
    change (0 + presses EvRight evs - presses EvLeft evs)
      with (presses EvRight evs - presses EvLeft evs).
    fold i. now rewrite G.
  - cbn in I. intuition congruence.
Qed.

Lemma character_selection_pick_witness :
  let evs := [EvLeft; EvOther; EvLeft; EvRight; EvLeft] in
  let i := (presses EvRight evs - presses EvLeft evs) mod 10 in
  0 <= i < 10 /\
  exists c,
    character_selection (evs ++ EvReturn :: [EvQuit]) = Chosen c /\
    nth_error CHARACTER_CLASSES (Z.to_nat i) = Some c /\
    c <> Character.
Proof.
  apply (character_selection_pick
           [EvLeft; EvOther; EvLeft; EvRight; EvLeft] [EvQuit]).
  repeat constructor; discriminate.
Defined.

(** ** Particles *)

Lemma py_int_le_bound q n :
  (0 <= q)%Q -> (q <= inject_Z n)%Q -> py_int q <= n.
Proof.
  destruct q as [a d]. unfold Qle, py_int. cbn [Qnum Qden inject_Z].
  intros H0 H1. apply Z.quot_le_upper_bound; lia.
Qed.

(** Every particle the loop keeps is drawn, with an alpha component
    pygame accepts: after the loop's [update] and removal, a particle left
    in the list is younger than its life, so that [draw] neither divides
    by zero nor returns early, and passes an alpha from 0 to 255; and the
    particle is again one the next iteration can take. *)
Theorem particles_drawn_valid (dt : Q) (ps : list Particle) :
  (0 <= dt)%Q -> Forall fresh ps ->
  Forall (fun p =>
            fresh p /\ (pt_age p < pt_life p)%Q /\
            exists a, Particle_draw p = Circle a /\ 0 <= a <= 255)
    (update_particles dt ps).
Proof.
  intros Hdt H. apply Forall_forall. intros p Hp.
  unfold update_particles in Hp. apply filter_In in Hp.
  destruct Hp as (Hm & Hk). apply in_map_iff in Hm.
  destruct Hm as (p0 & <- & H0).
  destruct (proj1 (Forall_forall _ _) H p0 H0) as (L & G).
  apply negb_true_iff in Hk.
  assert (Y : (pt_age (Particle_update dt p0)
               < pt_life (Particle_update dt p0))%Q).
  { destruct (Qlt_le_dec (pt_age (Particle_update dt p0))
                (pt_life (Particle_update dt p0))) as [Y|Y]; [exact Y|].
    apply Qgeb_ge in Y. congruence. }
  clear Hk. destruct p0 as [px py vx vy life size age].
  unfold Particle_update, fresh in *. cbn [pt_age pt_life] in *.
  split; [split; [exact L|lra]|]. split; [exact Y|].
  unfold Particle_draw. cbn [pt_age pt_life].
  assert (E0 : Qeq_bool life 0 = false).
  { destruct (Qeq_bool life 0) eqn:E; [|reflexivity].
    apply Qeq_bool_iff in E. lra. }
  rewrite E0.
  assert (D1 : (0 <= (age + dt) / life)%Q)
    by (apply Qle_shift_div_l; [exact L|lra]).
  assert (D2 : ((age + dt) / life < 1)%Q)
    by (apply Qlt_shift_div_r; [exact L|lra]).
  set (q := ((age + dt) / life)%Q) in *. clearbody q.
  assert (P : (0 < 255 * (1 - q))%Q) by lra.
  rewrite (py_max_right 0 (255 * (1 - q)) P).
  assert (E1 : Qleb (255 * (1 - q)) 0 = false).
  { destruct (Qleb (255 * (1 - q)) 0) eqn:E; [|reflexivity].
    apply Qleb_le in E. lra. }
  rewrite E1. exists (py_int (255 * (1 - q))). split; [reflexivity|].
  split.
  - apply py_int_nonneg. lra.
  - apply py_int_le_bound; [lra|]. change (inject_Z 255) with 255%Q. lra.
Qed.

Lemma particles_drawn_valid_witness :
  let ps := [new_particle 425 470 0.3 (-0.2) 0.35 3;
             mkParticle 0 0 1 1 0.4 4 0.39] in
  Forall (fun p =>
            fresh p /\ (pt_age p < pt_life p)%Q /\
            exists a, Particle_draw p = Circle a /\ 0 <= a <= 255)
    (update_particles (16 # 1000) ps).
Proof.
  apply (particles_drawn_valid (16 # 1000)
           [new_particle 425 470 0.3 (-0.2) 0.35 3;
            mkParticle 0 0 1 1 0.4 4 0.39]).
  - discriminate.
  - apply Forall_cons; [split; [reflexivity|discriminate]|].
    apply Forall_cons; [split; [reflexivity|discriminate]|].
    apply Forall_nil.
Defined.

(** ** The size of a fighter *)

Lemma py_int_ge_bound q n :
  (inject_Z n <= q)%Q -> n <= py_int q.
Proof.
  destruct q as [a d]. unfold Qle, py_int. cbn [Qnum Qden inject_Z].
  intros H. apply Z.quot_le_lower_bound; lia.
Qed.

Lemma scale_clamped s :
  (0.5 <= py_max 0.5 (py_min 2.0 s))%Q /\
  (py_max 0.5 (py_min 2.0 s) <= 2)%Q.
Proof.
  split; [apply py_max_ge_left|].
  unfold py_max, py_min, Qgtb.
  destruct (Qltb s 2.0) eqn:A.
  - apply Qltb_lt in A. destruct (Qltb 0.5 s); lra.
  - destruct (Qltb 0.5 2.0); lra.
Qed.

Lemma try_load_sprites_size a k :
  let r := rect (try_load_sprites a (new_fighter k)) in
  (32 <= rw r <= 128 /\ 40 <= rh r <= 160) /\
  (scale_txt a = None -> rw r = BASE_WIDTH /\ rh r = BASE_HEIGHT).
Proof.
  unfold try_load_sprites, new_fighter.
  destruct (tuning k) as [[[sp js] wt] cd].
  destruct (scale_txt a) as [s|]; cbn [rect set_rect rw rh].
  - destruct (scale_clamped s) as [L U].
    set (sc := py_max 0.5 (py_min 2.0 s)) in *. clearbody sc.
    unfold BASE_WIDTH, BASE_HEIGHT.
    change (inject_Z 64) with 64%Q. change (inject_Z 80) with 80%Q.
    split; [|discriminate].
    split; (split;
      [apply py_int_ge_bound
      |apply py_int_le_bound; [lra|]]).
    + change (inject_Z 32) with 32%Q. lra.
    + change (inject_Z 128) with 128%Q. lra.
    + change (inject_Z 40) with 40%Q. lra.
    + change (inject_Z 160) with 160%Q. lra.
  - unfold BASE_WIDTH, BASE_HEIGHT. split; [lia|]. intros _. now split.
Qed.

(** Whatever number a [scale.txt] holds, every fighter of a match is, at
    all times, between 32 and 128 wide and between 40 and 160 high: the
    scale is clamped to [0.5, 2.0] before the 64 by 80 rectangle is
    resized, and nothing resizes it afterwards. *)
Theorem fighter_size_bounds (m : Match) (s : Side) :
  reachable m ->
  32 <= rw (rect (fighter s m)) <= 128 /\
  40 <= rh (rect (fighter s m)) <= 160.
Proof.
  intros R. destruct (reachable_build m s R) as (k & a & B).
  destruct B as (_ & _ & _ & _ & _ & -> & -> & _).
  apply try_load_sprites_size.
Qed.

Lemma fighter_size_bounds_witness :
  let m := tick quiet_inputs
             (main_game_start Tank Mage (mkAssets false false (Some 7.5%Q))
                (mkAssets false false (Some (-3)%Q))) in
  32 <= rw (rect (fighter Player m)) <= 128 /\
  40 <= rh (rect (fighter Player m)) <= 160.
Proof.
  apply (fighter_size_bounds
           (tick quiet_inputs
              (main_game_start Tank Mage (mkAssets false false (Some 7.5%Q))
                 (mkAssets false false (Some (-3)%Q)))) Player).
  apply reach_tick, reach_start.
Defined.

(** ** The end of a match *)

Lemma reachable_run inps : forall m, reachable m -> reachable (run inps m).
Proof.
  induction inps as [|inp inps IH]; intros m R; [exact R|].
  apply (IH (tick inp m)). now apply reach_tick.
Qed.

Lemma tick_flags inp m :
  (game_over m = true <-> winner m <> None) ->
  (game_over (tick inp m) = true <-> winner (tick inp m) <> None).
Proof.
  intros I. unfold tick. destruct (game_over m) eqn:G; [now rewrite G|].
  unfold simulate, resolve, update_animations.
  rewrite !(proj1 (set_fighter_flags _ _ _)),
          !(proj2 (set_fighter_flags _ _ _)).
  unfold ko_checks. apply check_ko_flags, check_ko_flags.
  rewrite (proj1 (before_ko_flags _ _)), (proj2 (before_ko_flags _ _)).
  rewrite (proj1 (act_flags _ _)), (proj2 (act_flags _ _)), G.
  exact I.
Qed.

(** What [check_ko] makes of a loser already found, and when it finds
    one. *)
Lemma check_ko_loser s x m w :
  winner (check_ko s x m) = Some w ->
  (winner m = Some w /\
   fighter (other w) (check_ko s x m) = fighter (other w) m) \/
  (winner m = Some w /\ other w = s /\ 1 < stocks (fighter s m)) \/
  (w = other s /\ stocks (fighter s m) <= 1 /\
   out_of_bounds (rect (fighter s m)) = true /\
   fighter s (check_ko s x m) = fighter s m).
Proof.
  unfold check_ko.
  destruct (out_of_bounds (rect (fighter s m))) eqn:O;
    [|intros H; left; now split].
  destruct (Z.leb_spec (stocks (fighter s m)) 1) as [L|L].
  - intros H. cbn in H. injection H as <-. right. right.
    split; [reflexivity|]. split; [exact L|]. split; [reflexivity|].
    now destruct s.
  - rewrite (proj2 (set_fighter_flags _ _ _)). intros H.
    destruct s, w; cbn [other fighter set_fighter player enemy];
      try (left; now split); right; left; now repeat split.
Qed.

Lemma ko_checks_loser m w :
  winner m = None -> winner (ko_checks m) = Some w ->
  stocks (fighter (other w) (ko_checks m)) <= 1 /\
  out_of_bounds (rect (fighter (other w) (ko_checks m))) = true.
Proof.
  intros N H. unfold ko_checks in *.
  set (m1 := check_ko Player (inject_Z WIDTH * 0.25) m) in *.
  destruct (check_ko_loser Enemy (inject_Z WIDTH * 0.75) m1 w H)
    as [(W1 & E)|[(W1 & Ow & S)|(-> & S & O & E)]].
  - rewrite E. subst m1.
    destruct (check_ko_loser Player (inject_Z WIDTH * 0.25) m w W1)
      as [(W0 & _)|[(W0 & _)|(-> & S & O & E')]]; [congruence|congruence|].
    cbn [other]. rewrite E'. now split.
  - subst m1.
    destruct (check_ko_loser Player (inject_Z WIDTH * 0.25) m w W1)
      as [(W0 & _)|[(W0 & _)|(-> & _)]]; [congruence|congruence|].
    discriminate Ow.
  - cbn [other]. rewrite E. now split.
Qed.

Lemma update_animations_keeps m s :
  stocks (fighter s (update_animations m)) = stocks (fighter s m) /\
  rect (fighter s (update_animations m)) = rect (fighter s m) /\
  winner (update_animations m) = winner m.
Proof.
  unfold update_animations, update_animation.
  destruct s; cbn [fighter set_fighter player enemy winner];
    destruct (_ && _); repeat split.
Qed.

(** When a match has a winner the match is over, and the loser still
    holds one stock and is out of bounds: the KO that ends the match
    neither takes the last stock nor moves the fighter.  The stock count
    on the final screen is therefore 1, not 0. *)
Theorem loser_at_last_stock (m : Match) (w : Side) :
  reachable m -> winner m = Some w ->
  game_over m = true /\
  stocks (fighter (other w) m) = 1 /\
  out_of_bounds (rect (fighter (other w) m)) = true.
Proof.
  intros R. revert w.
  assert (I : (game_over m = true <-> winner m <> None) /\
              (forall s, in_range (fighter s m)) /\
              forall w, winner m = Some w ->
                stocks (fighter (other w) m) <= 1 /\
                out_of_bounds (rect (fighter (other w) m)) = true).
  { induction R as [pk ek pa ea|inp m R (IF & IR & IL)].
    - split; [cbn; split; [discriminate|congruence]|].
      split; [|discriminate].
      intros s. destruct (start_in_range pk ek pa ea). now destruct s.
    - split; [now apply tick_flags|].
      split; [intros s; apply in_range_tick;
              [now apply reachable_well_formed|apply IR]|].
      intros w. unfold tick. destruct (game_over m) eqn:G; [apply IL|].
      unfold simulate, resolve.
      set (m1 := apply_movement _).
      assert (N : winner m1 = None).
      { subst m1. rewrite (proj2 (before_ko_flags _ _)).
        rewrite (proj2 (act_flags _ _)).
        destruct (winner m) as [w0|] eqn:Wm; [|reflexivity].
        assert (T : false = true) by (apply IF; discriminate).
        discriminate T. }
      clearbody m1.
      destruct (update_animations_keeps (ko_checks m1) (other w))
        as (-> & -> & ->).
      now apply ko_checks_loser. }
  destruct I as (IF & IR & IL). intros w W.
  destruct (IL w W) as [S O].
  split; [apply IF; congruence|]. split; [|exact O].
  destruct (IR (other w)) as (_ & _ & S'). lia.
Qed.

Lemma loser_at_last_stock_witness :
  game_over walked_off = true /\
  stocks (fighter (other Enemy) walked_off) = 1 /\
  out_of_bounds (rect (fighter (other Enemy) walked_off)) = true.
Proof.
  apply (loser_at_last_stock walked_off Enemy).
  - apply reachable_run, reach_start.
  - vm_compute. reflexivity.
Defined.

(* ===================================================================== *)
(** * One iteration, stage by stage *)
(* ===================================================================== *)

(** ** The stages *)

Lemma act_fighter s inp m :
  fighter s (act inp m)
  = handle_platform_collisions (clamp_to_arena (moved s inp m)).
Proof.
  unfold act, moved, enemy_turn, ai_action_of, player_turn.
  destruct (fighter_turn Player _ _ _ _) as [pl ps]. cbn [fst snd].
  destruct (evalState _ _) as [ai_action ai2]. cbn [fst].
  destruct (fighter_turn Enemy _ _ _ _) as [en ps'].
  now destruct s.
Qed.

Lemma tick_stages inp m :
  game_over m = false ->
  tick inp m = update_animations (ko_checks (before_ko inp m)).
Proof. intros G. unfold tick. now rewrite G. Qed.


Lemma update_animations_fighter m s :
  fighter s (update_animations m) = update_animation (fighter s m) /\
  game_over (update_animations m) = game_over m /\
  winner (update_animations m) = winner m.
Proof. unfold update_animations. now destruct s. Qed.

Lemma update_animation_keeps c :
  stocks (update_animation c) = stocks c /\
  rect (update_animation c) = rect c /\
  percent (update_animation c) = percent c /\
  vel_x (update_animation c) = vel_x c /\
  vel_y (update_animation c) = vel_y c.
Proof.
  unfold update_animation. destruct (_ && _); repeat split; reflexivity.
Qed.

(** ** The KO checks of an iteration *)


Lemma check_ko_other s x m : fighter (other s) (check_ko s x m)
  = fighter (other s) m.
Proof.
  unfold check_ko. destruct (out_of_bounds _); [|reflexivity].
  destruct (_ <=? 1); now destruct s.
Qed.

(** The two calls, seen from the player and from the enemy: each
    fighter is handled by its own call only. *)
Lemma ko_checks_own m s :
  fighter s (ko_checks m) = fighter s (check_ko s (spawn_x s) m).
Proof.
  unfold ko_checks. destruct s; cbn [spawn_x].
  - apply (check_ko_other Enemy).
  - set (m1 := check_ko Player _ m).
    assert (E : fighter Enemy m1 = fighter Enemy m)
      by apply (check_ko_other Player).
    unfold check_ko. rewrite E.
    destruct (out_of_bounds _); [|exact E].
    destruct (_ <=? 1); [exact E|reflexivity].
Qed.





(** ** Platforms *)

(** Everything after the platform loop leaves [on_ground] alone. *)
Lemma resolve_on_ground clk m s :
  well_formed m ->
  on_ground (fighter s (resolve clk m)) = on_ground (fighter s m).
Proof.
  intros W. unfold resolve.
  set (b := on_ground (fighter s m)).
  assert (H0 : on_ground (fighter s m) = b) by reflexivity. clearbody b.
  assert (Hh : forall (d k : Z) (src c : Fighter),
             0 <= d -> on_ground c = b ->
             on_ground (receive_hit (inject_Z d) (inject_Z k) src c) = b)
    by (intros; assumption).
  assert (Ha : forall (l : list Hitbox) (c : Fighter),
             on_ground c = b -> on_ground (set_active_attacks l c) = b)
    by (intros; assumption).
  assert (Hr : forall (x : Q) (c : Fighter),
             1 < stocks c -> on_ground c = b ->
             on_ground (respawned x c) = b).
  { intros x c _ H. unfold respawned, on_ko. cbn.
    now destruct (_ <=? 0). }
  pose proof (resolve_attacks_ok Player clk m W) as [W1 _].
  pose proof (resolve_attacks_ok Enemy clk _ W1) as [W2 _].
  pose proof (P_resolve_attacks (fun c => on_ground c = b) Hh Ha
                Player clk m s W H0) as H1.
  pose proof (P_resolve_attacks (fun c => on_ground c = b) Hh Ha
                Enemy clk _ s W1 H1) as H2.
  fold (resolve_hitboxes clk m) in H2, W2.
  pose proof (P_resolve_projectiles (fun c => on_ground c = b) Hh
                _ s W2 H2) as H3.
  set (m3 := resolve_projectiles (resolve_hitboxes clk m)) in *.
  clearbody m3.
  assert (H4 : on_ground (fighter s (apply_movement m3)) = b)
    by (unfold apply_movement; now destruct s).
  pose proof (P_ko_checks (fun c => on_ground c = b) Hr _ s H4) as H5.
  destruct (update_animations_fighter (ko_checks (apply_movement m3)) s)
    as (-> & _).
  unfold update_animation. now destruct (_ && _).
Qed.

Lemma tick_on_ground inp m s :
  reachable m -> game_over m = false ->
  on_ground (fighter s (tick inp m)) = on_ground (fighter s (act inp m)).
Proof.
  intros R G. unfold tick. rewrite G. unfold simulate.
  apply resolve_on_ground. apply act_ok. now apply reachable_well_formed.
Qed.

(** A fighter that has landed passes the test of no platform that lies
    more than 6 units higher or no higher than the one it stands on. *)
Lemma land_no_second e plat q :
  0 <= rh (rect e) ->
  R.top q + 6 < R.top plat \/ R.top plat <= Z.min (ry q) (ry q + rh q) ->
  lands_on (land e plat) q = false.
Proof.
  intros Hh [H|H].
  - apply no_land_below.
    destruct (land_spec e plat) as (-> & -> & _).
    rewrite Zlt_Qlt in H. lra.
  - apply no_land_apart.
    destruct e as [k [x y w h] vx vy sp js og fc pc wt aa lt cd st a1 a2 cs].
    unfold land, R.set_bottom, R.colliderect, R.top in *.
    cbn [rect set_rect set_vel_y set_on_ground rx ry rw rh] in *.
    destruct (_ || _); [reflexivity|].
    assert (E : (Z.min (ry q) (ry q + rh q)
                 <? Z.max (ry plat - h) (ry plat - h + h)) = false)
      by (apply Z.ltb_ge; lia).
    rewrite E. apply andb_false_r.
Qed.

Lemma land_frame e plat :
  rx (rect (land e plat)) = rx (rect e) /\
  rw (rect (land e plat)) = rw (rect e) /\
  rh (rect (land e plat)) = rh (rect e) /\
  vel_x (land e plat) = vel_x e.
Proof. repeat split. Qed.

(** The platform loop on the stage of the game: the fighter lands on the
    first platform, in the order of [PLATFORMS], that passes the test, and
    on no other. *)
Lemma platforms_first entity :
  0 <= rh (rect entity) ->
  handle_platform_collisions entity
  = match find (lands_on (set_on_ground false entity)) PLATFORMS with
    | Some plat => land (set_on_ground false entity) plat
    | None => set_on_ground false entity
    end.
Proof.
  intros Hh. unfold handle_platform_collisions, handle_platform_collisions_on.
  set (e0 := set_on_ground false entity).
  assert (H0 : 0 <= rh (rect e0)) by (subst e0; now destruct entity).
  clearbody e0.
  assert (K : forall p q,
            ((R.top q + 6 <? R.top p) = true \/
             (R.top p <=? Z.min (ry q) (ry q + rh q)) = true) ->
            lands_on (land e0 p) q = false).
  { intros p q [H|H]; apply (land_no_second e0 p q H0);
      [left; now apply Z.ltb_lt|right; now apply Z.leb_le]. }
  unfold PLATFORMS.
  set (P0 := mkRect 0 GROUND_Y WIDTH 80).
  set (P1 := mkRect (WIDTH / 2 - 100) (GROUND_Y - 150) 200 20).
  set (P2 := mkRect 150 (GROUND_Y - 90) 200 20).
  set (P3 := mkRect (WIDTH - 350) (GROUND_Y - 90) 200 20).
  cbn [fold_left find]. unfold platform_step.
  destruct (lands_on e0 P0) eqn:L0.
  { rewrite (K P0 P1), (K P0 P2), (K P0 P3) by (vm_compute; auto).
    reflexivity. }
  destruct (lands_on e0 P1) eqn:L1.
  { rewrite (K P1 P2), (K P1 P3) by (vm_compute; auto). reflexivity. }
  destruct (lands_on e0 P2) eqn:L2.
  { rewrite (K P2 P3) by (vm_compute; auto). reflexivity. }
  now destruct (lands_on e0 P3).
Qed.

Lemma find_existsb {A : Type} (f : A -> bool) l :
  existsb f l = match find f l with Some _ => true | None => false end.
Proof.
  induction l as [|a l IH]; [reflexivity|]. cbn. now destruct (f a).
Qed.

(** [C4], as amended.  In every iteration each fighter goes through
    [handle_platform_collisions] on the platforms of the stage, and what
    it leaves in [on_ground] is what the next iteration finds.  The loop
    first resets [on_ground]; a platform passes the test exactly when the
    fighter's rectangle overlaps it, the vertical velocity is not negative
    and the bottom edge less the vertical velocity is at most 6 below the
    platform's top.  If no platform passes, the fighter comes out airborne
    and otherwise unchanged; if one does, the fighter is landed on the
    first such platform of [PLATFORMS]: bottom on its top, vertical
    velocity 0, [on_ground] set, nothing else touched.  So a rising
    fighter never lands, and neither does one whose bottom edge was more
    than 6 below the top of every platform it overlaps. *)
Theorem platform_landing (entity : Fighter) :
  0 <= rh (rect entity) ->
  let e0 := set_on_ground false entity in
  let e' := handle_platform_collisions entity in
  (forall plat,
     lands_on e0 plat = true <->
     R.colliderect (rect entity) plat = true /\
     (0 <= vel_y entity)%Q /\
     (inject_Z (R.bottom (rect entity)) - vel_y entity
      <= inject_Z (R.top plat + 6))%Q) /\
  on_ground e' = lands_somewhere e0 /\
  (lands_somewhere e0 = false -> e' = e0) /\
  (forall plat,
     find (lands_on e0) PLATFORMS = Some plat ->
     In plat PLATFORMS /\ lands_on e0 plat = true /\
     e' = land e0 plat /\
     on_ground e' = true /\ vel_y e' = 0%Q /\
     R.bottom (rect e') = R.top plat /\
     rx (rect e') = rx (rect entity) /\
     rw (rect e') = rw (rect entity) /\ rh (rect e') = rh (rect entity) /\
     vel_x e' = vel_x entity) /\
  ((vel_y entity < 0)%Q -> on_ground e' = false) /\
  ((forall plat, In plat PLATFORMS ->
      R.colliderect (rect entity) plat = true ->
      (inject_Z (R.top plat + 6)
       < inject_Z (R.bottom (rect entity)) - vel_y entity)%Q) ->
   on_ground e' = false) /\
  (forall inp m s,
     reachable m -> game_over m = false ->
     fighter s (act inp m)
     = handle_platform_collisions (clamp_to_arena (moved s inp m)) /\
     on_ground (fighter s (tick inp m))
     = on_ground
         (handle_platform_collisions (clamp_to_arena (moved s inp m)))).
Proof.
  intros Hh e0 e'.
  assert (T : forall plat,
            lands_on e0 plat = true <->
            R.colliderect (rect entity) plat = true /\
            (0 <= vel_y entity)%Q /\
            (inject_Z (R.bottom (rect entity)) - vel_y entity
             <= inject_Z (R.top plat + 6))%Q).
  { intros plat. rewrite lands_on_iff. subst e0. destruct entity.
    reflexivity. }
  pose proof (platforms_first entity Hh) as F. fold e0 e' in F.
  clearbody e'.
  assert (E0 : on_ground e0 = false /\ rect e0 = rect entity /\
               vel_x e0 = vel_x entity) by (subst e0; now destruct entity).
  destruct E0 as (E1 & E2 & E3). clearbody e0.
  assert (G : on_ground e' = lands_somewhere e0).
  { unfold lands_somewhere. rewrite find_existsb, F.
    destruct (find _ _) as [plat|]; [apply land_spec|exact E1]. }
  split; [exact T|]. split; [exact G|].
  split.
  { intros L. unfold lands_somewhere in L. rewrite find_existsb in L.
    rewrite F. now destruct (find _ _). }
  split.
  { intros plat Hf. rewrite Hf in F.
    apply find_some in Hf. destruct Hf as [Hi Hl].
    destruct (land_spec e0 plat) as (B & V & O).
    split; [exact Hi|]. split; [exact Hl|]. split; [exact F|].
    rewrite F. split; [exact O|]. split; [exact V|]. split; [exact B|].
    destruct (land_frame e0 plat) as (X1 & X2 & X3 & X4).
    rewrite X1, X2, X3, X4, E2, E3. repeat split. }
  split.
  { intros V. rewrite G. unfold lands_somewhere.
    apply not_true_is_false. intros E. apply existsb_exists in E.
    destruct E as (plat & _ & L). apply T in L. lra. }
  split.
  { intros V. rewrite G. unfold lands_somewhere.
    apply not_true_is_false. intros E. apply existsb_exists in E.
    destruct E as (plat & Hi & L). apply T in L.
    destruct L as (C & _ & L). specialize (V plat Hi C). lra. }
  intros inp m s R Gm. rewrite (tick_on_ground inp m s R Gm).
  now rewrite act_fighter.
Qed.

Lemma platform_landing_witness :
  (find (lands_on (set_on_ground false faller)) PLATFORMS
   = Some (mkRect 0 GROUND_Y WIDTH 80) /\
   handle_platform_collisions faller
   = land (set_on_ground false faller) (mkRect 0 GROUND_Y WIDTH 80) /\
   on_ground (handle_platform_collisions faller) = true /\
   vel_y (handle_platform_collisions faller) = 0%Q /\
   R.bottom (rect (handle_platform_collisions faller))
   = R.top (mkRect 0 GROUND_Y WIDTH 80)) /\
  ((vel_y riser < 0)%Q /\
   on_ground (handle_platform_collisions riser) = false) /\
  on_ground (fighter Player (tick quiet_inputs ninja_vs_tank))
  = on_ground
      (handle_platform_collisions
         (clamp_to_arena (moved Player quiet_inputs ninja_vs_tank))).
Proof.
  assert (Hf : 0 <= rh (rect faller)) by (vm_compute; discriminate).
  assert (Hr : 0 <= rh (rect riser)) by (vm_compute; discriminate).
  assert (F : find (lands_on (set_on_ground false faller)) PLATFORMS
              = Some (mkRect 0 GROUND_Y WIDTH 80))
    by (vm_compute; reflexivity).
  assert (V : (vel_y riser < 0)%Q) by (vm_compute; reflexivity).
  assert (G : game_over ninja_vs_tank = false) by reflexivity.
  pose proof (platform_landing faller Hf) as T. cbv zeta in T.
  destruct T as (_ & _ & _ & T & _ & _ & K).
  destruct (T _ F) as (_ & _ & T3 & T4 & T5 & T6 & _).
  pose proof (platform_landing riser Hr) as U. cbv zeta in U.
  destruct U as (_ & _ & _ & _ & U & _).
  destruct (K quiet_inputs ninja_vs_tank Player
              (reach_start Ninja Tank no_assets no_assets) G) as [_ K2].
  split; [split; [exact F|]; split; [exact T3|]; split; [exact T4|];
          split; [exact T5|exact T6]|].
  split; [split; [exact V|exact (U V)]|exact K2].
Defined.

(** [C4] as stated fails in a match: a priest that starts under the left
    platform and holds the up key jumps in the fourth iteration and rises
    until its feet are at 434, four units below the platform's top at
    430; its feet have been below that top all along.  When it stops
    rising it still overlaps the platform, its bottom edge less its
    velocity is within 6 of the top, and the eighteenth iteration lands it
    on the platform: approached from below, the platform has set
    [on_ground]. *)
Lemma landing_from_below_counterexample :
  reachable (priest_jump 17) /\
  In LEFT_PLATFORM PLATFORMS /\ R.top LEFT_PLATFORM = 430 /\
  forallb (fun n => R.top LEFT_PLATFORM
                    <? R.bottom (rect (player (priest_jump n))))
    (seq 0 18) = true /\
  R.bottom (rect (player (priest_jump 17))) = 434 /\
  (vel_y (player (priest_jump 17)) < 0)%Q /\
  find (lands_on
          (set_on_ground false
             (clamp_to_arena (moved Player up_key_inputs (priest_jump 17)))))
    PLATFORMS = Some LEFT_PLATFORM /\
  on_ground (player (priest_jump 18)) = true /\
  R.bottom (rect (player (priest_jump 18))) = R.top LEFT_PLATFORM.
Proof.
  split; [apply reachable_run, reach_start|].
  vm_compute. repeat split; try reflexivity. right. right. now left.
Qed.

(** ** Dead hitboxes and projectiles *)

(** The hitbox test looks at the flag. *)
Lemma dead_hitbox_misses a target :
  hb_alive a = false -> connects a target = false.
Proof. intros H. unfold connects. rewrite H. apply andb_false_r. Qed.

Lemma strikes_receive_hit p d b src pl en :
  strikes p (receive_hit d b src pl) en = strikes p pl en /\
  strikes p pl (receive_hit d b src en) = strikes p pl en.
Proof. split; reflexivity. Qed.

(** A projectile that strikes is marked dead; one that does not is left
    as it is, and so are the fighters. *)
Lemma projectile_hit_spec p pl en :
  (strikes p pl en = true ->
   snd (projectile_hit p pl en) = spend p /\
   p_alive (snd (projectile_hit p pl en)) = false) /\
  (strikes p pl en = false -> projectile_hit p pl en = (pl, en, p)).
Proof.
  unfold strikes, projectile_hit.
  destruct (_ && _); [split; [now split|discriminate]|].
  destruct (_ && _); [split; [now split|discriminate]|].
  split; [discriminate|reflexivity].
Qed.

(** What the projectile loop leaves in the list was in it, is alive and
    did not strike: a projectile that strikes is out of the list when the
    loop is done. *)
Lemma projectile_loop_keeps ps : forall pl en q,
  In q (snd (projectile_loop ps pl en)) ->
  In q ps /\ p_alive q = true /\ strikes q pl en = false.
Proof.
  induction ps as [|p ps IH]; intros pl en q H;
    [cbn [projectile_loop snd] in H; destruct H
    |rewrite projectile_loop_cons in H].
  destruct (Side_eqb (p_owner p) Player &&
            R.colliderect (p_rect p) (rect en)) eqn:A.
  { destruct (IH _ _ _ H) as (I1 & I2 & I3).
    split; [now right|]. split; [exact I2|exact I3]. }
  destruct (Side_eqb (p_owner p) Enemy &&
            R.colliderect (p_rect p) (rect pl)) eqn:B.
  { destruct (IH _ _ _ H) as (I1 & I2 & I3).
    split; [now right|]. split; [exact I2|exact I3]. }
  specialize (IH pl en q).
  destruct (projectile_loop ps pl en) as [[pl' en'] ps']. cbn [snd] in *.
  destruct (p_alive p) eqn:L.
  - destruct H as [<-|H].
    + split; [now left|]. split; [exact L|].
      unfold strikes. now rewrite A, B.
    + destruct (IH H) as (I1 & I2 & I3). split; [now right|now split].
  - destruct (IH H) as (I1 & I2 & I3). split; [now right|now split].
Qed.

(** What an owner's list holds after its hitbox loop and the pruning. *)
Lemma resolve_attacks_keeps s clk m a :
  In a (active_attacks (fighter s (resolve_attacks s clk m))) ->
  In a (active_attacks (fighter s m)) /\ hb_alive a = true /\
  connects a (fighter (other s) m) = false.
Proof.
  unfold resolve_attacks.
  pose proof (hit_loop_output (fighter s m) (active_attacks (fighter s m))
                (fighter (other s) m)) as O.
  destruct (hit_loop _ _ _) as [target atks]. cbn [snd] in O.
  rewrite fighter_set_same. intros H.
  assert (H' : In a (prune (t_prune clk s) atks)) by exact H.
  clear H. apply prune_keeps in H'. destruct H' as (I & A & _).
  rewrite O in I. apply in_map_iff in I. destruct I as (b & Eb & Ib).
  destruct (connects b (fighter (other s) m)) eqn:C.
  - subst a. discriminate A.
  - subst b. now repeat split.
Qed.

(** [C8].  A hitbox or projectile that is dead takes part in no later
    collision check, in this iteration or any other.

    The lists are all the checks range over, and at the top of every
    iteration of a match, when the iteration enters its collision checks,
    and at the top of the next, every hitbox in either fighter's list and
    every projectile in the list is alive.

    Hitboxes: the test of the hitbox loop includes the flag, so a dead
    hitbox hits nothing; the loop marks dead exactly the hitboxes that
    hit; after the pruning that follows the loop, every hitbox still in
    the owner's list was in it before, is alive and did not hit.

    Projectiles: the test of the projectile loop does not look at the
    flag; a projectile that strikes is marked dead and removed by the last
    statement of the same pass, so that every projectile the loop leaves
    in the list was in it before, is alive and did not strike. *)
Theorem dead_never_collide (inp : Inputs) (m : Match) :
  reachable m ->
  (all_alive m /\ all_alive (act inp m) /\ all_alive (tick inp m)) /\
  ((forall a target, hb_alive a = false -> connects a target = false) /\
   (forall owner atks target,
      snd (hit_loop owner atks target)
      = map (fun a => if connects a target then kill a else a) atks) /\
   (forall owner atks target,
      Forall (fun a => hb_alive a = false) atks ->
      hit_loop owner atks target = (target, atks)) /\
   (forall s clk m0 a,
      In a (active_attacks (fighter s (resolve_attacks s clk m0))) ->
      In a (active_attacks (fighter s m0)) /\ hb_alive a = true /\
      connects a (fighter (other s) m0) = false)) /\
  ((forall p pl en,
      strikes p pl en = true ->
      p_alive (snd (projectile_hit p pl en)) = false) /\
   (forall ps pl en q,
      In q (snd (projectile_loop ps pl en)) ->
      In q ps /\ p_alive q = true /\ strikes q pl en = false) /\
   (forall q,
      In q (projectiles (resolve_projectiles m)) ->
      In q (projectiles m) /\ p_alive q = true /\
      strikes q (player m) (enemy m) = false)) /\
  (forall clk m0, all_alive (resolve_projectiles (resolve_hitboxes clk m0))).
Proof.
  intros R. apply reachable_well_formed in R.
  split.
  { split; [now apply well_formed_alive|].
    split; [apply well_formed_alive; now apply act_ok|].
    apply well_formed_alive; now apply tick_well_formed. }
  split.
  { split; [apply dead_hitbox_misses|].
    split; [intros; apply hit_loop_output|].
    split; [intros owner atks target; apply hit_loop_dead|].
    apply resolve_attacks_keeps. }
  split; [|apply collisions_leave_alive].
  split; [intros p pl en H; now apply projectile_hit_spec|].
  split; [intros ps; apply projectile_loop_keeps|].
  intros q. unfold resolve_projectiles.
  pose proof (projectile_loop_keeps (projectiles m) (player m) (enemy m) q)
    as K.
  destruct (projectile_loop _ _ _) as [[pl en] ps]. exact K.
Qed.

Lemma dead_never_collide_witness :
  (length (projectiles (act quiet_inputs before_impact)) = 1%nat /\
   Forall (fun q => strikes q (player (act quiet_inputs before_impact))
                      (enemy (act quiet_inputs before_impact)) = true)
     (projectiles (act quiet_inputs before_impact)) /\
   (percent (enemy (tick quiet_inputs before_impact))
    == percent (enemy before_impact) + 9)%Q /\
   projectiles (tick quiet_inputs before_impact) = []) /\
  all_alive before_impact /\
  all_alive (act quiet_inputs before_impact) /\
  all_alive (tick quiet_inputs before_impact).
Proof.
  split.
  - vm_compute. split; [reflexivity|]. split; [|split; reflexivity].
    apply Forall_cons; [reflexivity|apply Forall_nil].
  - assert (R : reachable before_impact)
      by (apply reachable_run, reach_start).
    destruct (dead_never_collide quiet_inputs before_impact R)
      as [(A & B & C) _].
    split; [exact A|]. split; [exact B|exact C].
Defined.

(** ** Percent through one iteration *)

(** An attack leaves percent alone, the priest's special excepted, which
    either does nothing (on cooldown) or takes 12 off, not below 0. *)
Lemma attack_percent_cases v s now c :
  percent (fst (attack v s now c)) = percent c \/
  (v = SpecialV /\ cls c = Priest /\
   percent (fst (attack v s now c)) = py_max 0.0 (percent c - 12)).
Proof.
  destruct v; try (left; apply attack_percent; intros [? _]; discriminate).
  destruct (cls c) eqn:K;
    try (left; apply attack_percent; intros [_ ?]; congruence).
  cbn [attack]. unfold special_attack. rewrite K.
  unfold Priest_special_attack.
  destruct (_ <? 1000); [now left|]. right.
  split; [reflexivity|]. split; [reflexivity|].
  unfold trigger_special_anim. cbn [fst].
  now destruct (anim_special _).
Qed.

Lemma heal_bounds p :
  (0 <= p)%Q ->
  (p - 12 <= py_max 0.0 (p - 12))%Q /\ (0 <= py_max 0.0 (p - 12))%Q /\
  (py_max 0.0 (p - 12) <= p)%Q.
Proof.
  intros H.
  destruct (Qlt_le_dec 0.0 (p - 12)) as [L|L].
  - rewrite (py_max_right _ _ L). repeat split; lra.
  - rewrite (py_max_left _ _ L). repeat split; lra.
Qed.

Lemma attack_cls v s now c : cls (fst (attack v s now c)) = cls c.
Proof. apply (attack_turn_ok v s now c). Qed.

(** A fighter's turn: physics and input leave percent alone, and of the
    three attack calls only the special can change it. *)
Lemma fighter_turn_percent s clk a f ps :
  percent (fst (fighter_turn s clk a f ps)) = percent f \/
  (cls f = Priest /\ special a = true /\
   percent (fst (fighter_turn s clk a f ps)) = py_max 0.0 (percent f - 12)).
Proof.
  unfold fighter_turn.
  set (f1 := apply_input (move a) (jump a) (update_physics GRAVITY f)).
  assert (C1 : cls f1 = cls f /\ percent f1 = percent f).
  { destruct (same_core_trans _ _ _ (update_physics_core GRAVITY f)
                (apply_input_core (move a) (jump a)
                   (update_physics GRAVITY f))) as (A1 & _ & A3 & _).
    now split. }
  clearbody f1. destruct C1 as [K1 P1].
  assert (S2 : exists f2 ps2,
    (if light a
     then let '(f0, res) := light_attack s (t_light clk s) f1 in
          (f0, register res ps)
     else (f1, ps)) = (f2, ps2) /\ cls f2 = cls f /\ percent f2 = percent f).
  { destruct (light a).
    - pose proof (attack_cls Light s (t_light clk s) f1) as A.
      pose proof (attack_percent Light s (t_light clk s) f1) as B.
      cbn [attack] in A, B.
      destruct (light_attack s (t_light clk s) f1) as [f2 r].
      cbn [fst] in A, B.
      exists f2, (register r ps). split; [reflexivity|].
      split; [congruence|]. rewrite B; [exact P1|].
      intros [? _]; discriminate.
    - exists f1, ps. now repeat split. }
  destruct S2 as (f2 & ps2 & -> & K2 & P2).
  set (f3 := if heavy a then fst (heavy_attack s (t_heavy clk s) f2) else f2).
  assert (C3 : cls f3 = cls f /\ percent f3 = percent f).
  { subst f3. destruct (heavy a); [|now split].
    pose proof (attack_cls Heavy s (t_heavy clk s) f2) as A.
    pose proof (attack_percent Heavy s (t_heavy clk s) f2) as B.
    cbn [attack] in A, B. split; [congruence|].
    rewrite B; [exact P2|]. intros [? _]; discriminate. }
  clearbody f3. destruct C3 as [K3 P3].
  destruct (special a); [|left; exact P3].
  pose proof (attack_percent_cases SpecialV s (t_special clk s) f3) as A.
  cbn [attack] in A.
  destruct (special_attack s (t_special clk s) f3) as [f4 r].
  cbn [fst] in *.
  destruct A as [A|(_ & A1 & A2)]; [left; congruence|].
  right. split; [congruence|]. split; [reflexivity|]. now rewrite A2, P3.
Qed.

Lemma moved_percent s inp m :
  percent (moved s inp m) = percent (fighter s m) \/
  (cls (fighter s m) = Priest /\ special (requested s inp m) = true /\
   percent (moved s inp m) = py_max 0.0 (percent (fighter s m) - 12)).
Proof.
  destruct s; cbn [moved requested fighter]; apply fighter_turn_percent.
Qed.

Lemma reachable_percent_nonneg m s :
  reachable m -> (0 <= percent (fighter s m))%Q.
Proof.
  intros R.
  assert (I : in_range (fighter s m)).
  { induction R as [pk ek pa ea|inp m R IH].
    - destruct (start_in_range pk ek pa ea). now destruct s.
    - apply in_range_tick; [now apply reachable_well_formed|exact IH]. }
  apply I.
Qed.

(** [C2], as amended.  The percent of a fighter, of any class, through
    one iteration of a match.  Its own turn leaves it alone unless the
    fighter is a priest whose special attack is requested, and then it
    either stays or goes down by 12, not below 0; clamp and platforms
    leave it alone; hitbox hits, projectile hits and movement leave it
    alone or raise it; the KO handling leaves it alone, or else takes a
    stock and resets it to 0; the animation update leaves it alone.  So
    from one iteration to the next the percent of a fighter that keeps its
    stocks does not go down, unless it is a priest that asked for its
    special, and then by no more than 12.  Operation by operation: of all
    attack variants of all classes only [Priest.special_attack] changes
    percent, and a hit of non-negative damage does not lower it. *)
Theorem percent_monotone (inp : Inputs) (m : Match) (s : Side) :
  reachable m -> game_over m = false ->
  let f := fighter s m in
  let f1 := moved s inp m in
  let f2 := fighter s (act inp m) in
  let f3 := fighter s (before_ko inp m) in
  let f' := fighter s (tick inp m) in
  (percent f1 = percent f \/
   (cls f = Priest /\ special (requested s inp m) = true /\
    percent f1 = py_max 0.0 (percent f - 12))) /\
  ((percent f - 12 <= percent f1)%Q /\ (0 <= percent f1)%Q /\
   (percent f1 <= percent f)%Q) /\
  percent f2 = percent f1 /\
  (percent f2 <= percent f3)%Q /\
  (stocks f' = stocks f -> percent f' = percent f3) /\
  (stocks f' <> stocks f ->
   stocks f' = stocks f - 1 /\ percent f' = 0%Q) /\
  (stocks f' = stocks f ->
   cls f <> Priest \/ special (requested s inp m) = false ->
   (percent f <= percent f')%Q) /\
  (stocks f' = stocks f -> (percent f - 12 <= percent f')%Q) /\
  (forall v s0 now c,
     percent (fst (attack v s0 now c)) = percent c \/
     (v = SpecialV /\ cls c = Priest /\
      percent (fst (attack v s0 now c)) = py_max 0.0 (percent c - 12))) /\
  (forall d b src c,
     0 <= d ->
     (percent c
      <= percent (receive_hit (inject_Z d) (inject_Z b) src c))%Q).
Proof.
  intros R G f f1 f2 f3 f'.
  pose proof (reachable_percent_nonneg m s R) as N. fold f in N.
  pose proof (reachable_well_formed m R) as W.
  pose proof (moved_percent s inp m) as T. fold f f1 in T.
  assert (B : (percent f - 12 <= percent f1)%Q /\ (0 <= percent f1)%Q /\
              (percent f1 <= percent f)%Q).
  { destruct T as [->|(_ & _ & ->)]; [repeat split; lra|].
    now apply heal_bounds. }
  assert (E2 : percent f2 = percent f1).
  { subst f2 f1. rewrite act_fighter.
    destruct (same_core_trans _ _ _ (clamp_to_arena_core (moved s inp m))
                (handle_platform_collisions_core PLATFORMS
                   (clamp_to_arena (moved s inp m)))) as (_ & _ & A3 & _).
    exact A3. }
  destruct (act_ok inp m) as [Wa A]. specialize (Wa W).
  destruct (A s) as (_ & S2 & _). fold f f2 in S2.
  destruct (stage_ok_collisions (clock inp) (act inp m) Wa) as [_ Rs].
  destruct (Rs s) as (_ & S3 & P3).
  fold (before_ko inp m) in S3, P3. fold f2 f3 in S3, P3.
  assert (K : (stocks f' = stocks f3 /\ percent f' = percent f3) \/
              (stocks f' = stocks f3 - 1 /\ percent f' = 0%Q)).
  { subst f'. rewrite (tick_stages inp m G).
    destruct (update_animations_fighter (ko_checks (before_ko inp m)) s)
      as (-> & _).
    destruct (update_animation_keeps
                (fighter s (ko_checks (before_ko inp m))))
      as (-> & _ & -> & _).
    rewrite (ko_checks_own (before_ko inp m) s).
    destruct (check_ko_cases s (spawn_x s) (before_ko inp m) s)
      as [->|(_ & L & _ & ->)]; [left; now split|].
    right. now apply respawned_stocks. }
  clearbody f f1 f2 f3 f'.
  split; [exact T|]. split; [exact B|]. split; [exact E2|].
  split; [exact P3|].
  split; [intros E; destruct K as [[_ K]|[K _]]; [exact K|lia]|].
  split; [intros E; destruct K as [[K _]|[K1 K2]];
          [congruence|split; [lia|exact K2]]|].
  split.
  { intros E C. destruct K as [[_ K]|[K _]]; [|lia].
    rewrite K, <- E2 in *.
    destruct T as [T|(T1 & T2 & _)].
    - rewrite <- T. exact P3.
    - destruct C as [C|C]; congruence. }
  split.
  { intros E. destruct K as [[_ K]|[K _]]; [|lia].
    rewrite K. destruct B as (B1 & _). rewrite <- E2 in B1. lra. }
  split; [apply attack_percent_cases|].
  intros d b src c Hd. apply (receive_hit_grows d b src c Hd).
Qed.

Lemma percent_monotone_witness :
  (cls (fighter Enemy before_swing) = Tank /\
   stocks (fighter Enemy (tick light_key_inputs before_swing))
   = stocks (fighter Enemy before_swing) /\
   (percent (fighter Enemy (tick light_key_inputs before_swing))
    == percent (fighter Enemy before_swing) + 6)%Q) /\
  (percent (fighter Enemy before_swing)
   <= percent (fighter Enemy (tick light_key_inputs before_swing)))%Q.
Proof.
  assert (R : reachable before_swing) by (apply reachable_run, reach_start).
  assert (G : game_over before_swing = false) by (vm_compute; reflexivity).
  assert (K : cls (fighter Enemy before_swing) = Tank)
    by (vm_compute; reflexivity).
  assert (S : stocks (fighter Enemy (tick light_key_inputs before_swing))
              = stocks (fighter Enemy before_swing))
    by (vm_compute; reflexivity).
  split; [split; [exact K|]; split; [exact S|]; vm_compute; reflexivity|].
  pose proof (percent_monotone light_key_inputs before_swing Enemy R G) as T.
  cbv zeta in T. destruct T as (_ & _ & _ & _ & _ & _ & T & _).
  apply (T S). left. rewrite K. discriminate.
Defined.
